(** * snapcraft/file_utils.py: a shallow embedding and its properties

    The module under study drives the operating system: it links, copies,
    walks and rewrites files, and it runs external commands.  The Python
    code is embedded as functions of a state-and-exception monad over an
    explicit model of the file system ([world]).

    Scope of the operating-system model (the library calls are not part of
    the module; they are modelled from their documented behaviour):
    - a path is the list of its components from the root; directory
      components are real directories (a symbolic link is followed only
      when it is the last component of a path);
    - regular files and symbolic links are names for inodes, so that hard
      links alias; directories carry their metadata themselves;
    - refusals of the operating system that the module reacts to (a link
      across devices, a chown without privilege, an open without
      permission) are decided by a [policy];
    - [os.walk] recurses once per directory level; the recursion depth of
      the interpreter is the [fuel] of [os_walk];
    - the logger and a record of the calls of three functions are part of
      the world, so that statements can speak of warnings and of which
      function was called on which path. *)

From Stdlib Require Import String Ascii List Bool Arith ZArith NArith Lia.
From stdpp Require Import base option list strings gmap.

Set Default Proof Using "Type".
Open Scope string_scope.
Open Scope list_scope.

(** ** Paths *)

Abbreviation path := (list string).

(** [os.path.dirname] and [os.path.basename] on component lists. *)
Definition dirname (p : path) : path := removelast p.
Definition basename (p : path) : string := List.last p EmptyString.

(** [os.path.join(p, name)] for a single component. *)
Definition join (p : path) (name : string) : path := p ++ [name].

(** [os.path.relpath(p, start)]: the components that lead from [start] to
    [p]; every component of [start] that is not shared costs one "..". *)
Fixpoint relpath (p start : path) : path :=
  match p, start with
  | x :: p', y :: start' =>
      if String.eqb x y then relpath p' start'
      else List.repeat ".." (length start) ++ p
  | _, [] => p
  | [], _ => List.repeat ".." (length start)
  end.

(** ** Exceptions *)

Inductive exn : Type :=
  | FileNotFoundError
  | FileExistsError
  | NotADirectoryError
  | IsADirectoryError
  | PermissionError
  | SameFileError
  | OSError                       (* any other errno: EXDEV, ELOOP, ... *)
  | UnicodeDecodeError
  | AttributeError
  | TypeError
  | IndexError
  | RecursionError
  | RuntimeError
  | CalledProcessError
  | RequiredCommandNotFound (command : string) (cmd_list : list string)
                            (fmt : option string)
  | RequiredCommandFailure (command : string) (cmd_list : list string)
                           (fmt : option string)
  | RequiredPathDoesNotExist (p : list string) (fmt : option string).

(** [isinstance(e, OSError)]. *)
Definition is_OSError (e : exn) : bool :=
  match e with
  | FileNotFoundError | FileExistsError | NotADirectoryError
  | IsADirectoryError | PermissionError | SameFileError | OSError => true
  | _ => false
  end.

Definition is_PermissionError (e : exn) : bool :=
  match e with PermissionError => true | _ => false end.

Definition is_UnicodeDecodeError (e : exn) : bool :=
  match e with UnicodeDecodeError => true | _ => false end.

(** ** The file system *)

Record stat_result := mkStat {
  st_uid : nat;
  st_gid : nat;
  st_mode : nat;
  st_atime : nat;
  st_mtime : nat
}.

Inductive inode_body :=
  | Reg (content : string)        (* the bytes of a regular file *)
  | Lnk (target : path).          (* the target of a symbolic link *)

Record inode := mkInode { i_body : inode_body; i_meta : stat_result }.

Inductive dentry :=
  | EDir (m : stat_result)
  | ENode (ino : nat).

(** The levels at which the module logs. *)
Inductive level := DEBUG | WARNING.

(** The calls that the statements below speak about; the world records
    them in the order they are made. *)
Inductive call :=
  | CallCreateSimilarDirectory (source destination : path)
  | CallCopyFunction (source destination : path)
  | CallSearchAndReplace (file_path : path).

(** The world: the names, the inodes, a clock for the times of new and
    rewritten files, what the logger was given (level and path), and the
    record of calls. *)
Record world := mkWorld {
  dents : gmap path dentry;
  inodes : gmap nat inode;
  clock : nat;
  logs : list (level * path);
  calls : list call
}.

Definition set_dents (f : gmap path dentry -> gmap path dentry) (w : world) :=
  mkWorld (f (dents w)) (inodes w) (clock w) (logs w) (calls w).
Definition set_inodes (f : gmap nat inode -> gmap nat inode) (w : world) :=
  mkWorld (dents w) (f (inodes w)) (clock w) (logs w) (calls w).
Definition tick (w : world) :=
  mkWorld (dents w) (inodes w) (S (clock w)) (logs w) (calls w).
Definition add_log (l : level) (p : path) (w : world) :=
  mkWorld (dents w) (inodes w) (clock w) (logs w ++ [(l, p)]) (calls w).
Definition add_call (c : call) (w : world) :=
  mkWorld (dents w) (inodes w) (clock w) (logs w) (calls w ++ [c]).

(** What the module can observe of the file system proper. *)
Definition fs_of (w : world) := (dents w, inodes w, clock w).

(** ** The monad: state and exceptions *)

Inductive result (A : Type) :=
  | Ok (a : A)
  | Raise (e : exn).
Arguments Ok {A} a.
Arguments Raise {A} e.

Definition M (A : Type) := world -> world * result A.

Definition ret {A} (a : A) : M A := fun w => (w, Ok a).
Definition raise {A} (e : exn) : M A := fun w => (w, Raise e).
Definition bind {A B} (m : M A) (k : A -> M B) : M B :=
  fun w => match m w with
           | (w', Ok a) => k a w'
           | (w', Raise e) => (w', Raise e)
           end.
Definition get : M world := fun w => (w, Ok w).
Definition modify (f : world -> world) : M unit := fun w => (f w, Ok tt).

(** [try: m except <handles>: h]. *)
Definition try_except {A} (m : M A) (handles : exn -> bool) (h : exn -> M A)
  : M A :=
  fun w => match m w with
           | (w', Raise e) => if handles e then h e w' else (w', Raise e)
           | r => r
           end.

Declare Scope py_scope.
Delimit Scope py_scope with py.
Notation "x <- m ;; k" := (bind m (fun x => k))
  (at level 100, m at next level, right associativity) : py_scope.
Notation "m ;;; k" := (bind m (fun _ => k))
  (at level 100, right associativity) : py_scope.
Open Scope py_scope.

(** [for x in l: body x]. *)
Fixpoint for_each {A} (l : list A) (body : A -> M unit) : M unit :=
  match l with
  | [] => ret tt
  | x :: l' => body x ;;; for_each l' body
  end.

(** ** Looking at the file system *)

Definition MAXSYMLINKS : nat := 40.

Definition readlink (w : world) (p : path) : option path :=
  match dents w !! p with
  | Some (ENode i) =>
      match inodes w !! i with
      | Some (mkInode (Lnk t) _) => Some t
      | _ => None
      end
  | _ => None
  end.

(** [os.path.islink]. *)
Definition islink (w : world) (p : path) : bool :=
  match readlink w p with Some _ => true | None => false end.

(** The kernel following the symbolic links at the end of a path; [None]
    is ELOOP. *)
Fixpoint resolve (n : nat) (w : world) (p : path) : option path :=
  match readlink w p with
  | Some t => match n with 0 => None | S n' => resolve n' w t end
  | None => Some p
  end.

(** [os.path.realpath]: follows links until a path that is no link, or
    until it meets a link for the second time, which it returns. *)
Fixpoint realpath_aux (n : nat) (w : world) (seen : list path) (p : path)
  : path :=
  match readlink w p with
  | None => p
  | Some t =>
      if bool_decide (p ∈ seen) then p
      else match n with
           | 0 => p
           | S n' => realpath_aux n' w (p :: seen) t
           end
  end.

Definition realpath (w : world) (p : path) : path :=
  realpath_aux (S (size (dents w))) w [] p.

Definition stat_entry (w : world) (p : path) : option dentry :=
  match resolve MAXSYMLINKS w p with
  | Some q => dents w !! q
  | None => None
  end.

Definition meta_of (w : world) (e : dentry) : option stat_result :=
  match e with
  | EDir m => Some m
  | ENode i => i_meta <$> inodes w !! i
  end.

(** [os.path.exists], [os.path.isdir], [os.path.lexists]. *)
Definition exists_ (w : world) (p : path) : bool :=
  match stat_entry w p with Some _ => true | None => false end.

Definition isdir (w : world) (p : path) : bool :=
  match stat_entry w p with Some (EDir _) => true | _ => false end.

Definition lexists (w : world) (p : path) : bool :=
  match dents w !! p with Some _ => true | None => false end.

(** The content of the regular file named [p] itself. *)
Definition file_content (w : world) (p : path) : option string :=
  match dents w !! p with
  | Some (ENode i) =>
      match inodes w !! i with
      | Some (mkInode (Reg c) _) => Some c
      | _ => None
      end
  | _ => None
  end.

(** [os.path.samefile], with the OSError of a failing stat read as False,
    as [shutil._samefile] does. *)
Definition samefile (w : world) (a b : path) : bool :=
  match resolve MAXSYMLINKS w a, resolve MAXSYMLINKS w b with
  | Some qa, Some qb =>
      match dents w !! qa, dents w !! qb with
      | Some (ENode i), Some (ENode j) => Nat.eqb i j
      | Some (EDir _), Some (EDir _) => bool_decide (qa = qb)
      | _, _ => false
      end
  | _, _ => false
  end.

(** The names in a directory, split as [os.scandir] and [is_dir()] split
    them: a link to a directory counts as a directory. *)
Definition children (w : world) (top : path) : list string :=
  omap (fun q => if bool_decide (q ≠ [] ∧ dirname q = top)
                 then Some (basename q) else None)
       (map_to_list (dents w)).*1.

Definition scandir (w : world) (top : path)
  : option (list string * list string) :=
  if isdir w top then
    let names := children w top in
    Some (filter (fun n => isdir w (join top n) = true) names,
          filter (fun n => isdir w (join top n) = false) names)
  else None.

(** ** The operating system's decisions *)

Record policy := mkPolicy {
  may_link : path -> path -> bool;    (* false: EXDEV or EPERM on link(2) *)
  may_chown : path -> bool;           (* false: EPERM on chown(2) *)
  may_open_rw : path -> bool;         (* false: EACCES on open for writing *)
  decode : string -> option string;   (* the locale's codec, text mode *)
  encode : string -> string;
  proc_uid : nat;
  proc_gid : nat;
  new_file_mode : nat;
  new_dir_mode : nat
}.

Section OS.

Variable pol : policy.

Definition new_file_meta (w : world) : stat_result :=
  mkStat (proc_uid pol) (proc_gid pol) (new_file_mode pol) (clock w) (clock w).

Definition new_dir_meta (w : world) : stat_result :=
  mkStat (proc_uid pol) (proc_gid pol) (new_dir_mode pol) (clock w) (clock w).

(** The error of creating a name in a directory that is not there. *)
Definition parent_error (w : world) (p : path) : option exn :=
  match p with
  | [] => Some FileExistsError
  | _ =>
      match dents w !! dirname p with
      | Some (EDir _) => None
      | Some (ENode _) => Some NotADirectoryError
      | None => Some FileNotFoundError
      end
  end.

(** Apply [f] to the metadata of the entry named [q] itself. *)
Definition update_meta (f : stat_result -> stat_result) (q : path)
  (w : world) : option world :=
  match dents w !! q with
  | Some (EDir m) => Some (set_dents (insert q (EDir (f m))) w)
  | Some (ENode i) =>
      match inodes w !! i with
      | Some (mkInode b m) =>
          Some (set_inodes (insert i (mkInode b (f m))) w)
      | None => None
      end
  | None => None
  end.

(** The entry an operation works on: the path itself, or the end of its
    chain of links. *)
Definition target_of (follow_symlinks : bool) (w : world) (p : path)
  : option path :=
  if follow_symlinks then resolve MAXSYMLINKS w p else Some p.

(** [os.stat(p, follow_symlinks=...)]. *)
Definition os_stat (p : path) (follow_symlinks : bool) : M stat_result :=
  fun w =>
    match target_of follow_symlinks w p with
    | Some q =>
        match dents w !! q ≫= meta_of w with
        | Some m => (w, Ok m)
        | None => (w, Raise FileNotFoundError)
        end
    | None => (w, Raise OSError)
    end.

(** [os.mkdir(p)]. *)
Definition os_mkdir (p : path) : M unit :=
  fun w =>
    match dents w !! p with
    | Some _ => (w, Raise FileExistsError)
    | None =>
        match parent_error w p with
        | Some e => (w, Raise e)
        | None => (tick (set_dents (insert p (EDir (new_dir_meta w))) w), Ok tt)
        end
    end.

Definition is_FileExistsError (e : exn) : bool :=
  match e with FileExistsError => true | _ => false end.

(** [os.makedirs(name, exist_ok=True)], on the reversed path: the missing
    ancestors first, then the directory itself, whose mkdir may fail when
    the directory is there already. *)
Fixpoint makedirs_rev (rname : list string) : M unit :=
  (match rname with
   | [] => ret tt
   | _ :: rhead =>
       w <- get ;;
       if exists_ w (rev rhead) then ret tt
       else try_except (makedirs_rev rhead) is_FileExistsError
                       (fun _ => ret tt)
   end) ;;;
  try_except (os_mkdir (rev rname)) is_OSError
    (fun e => w <- get ;; if isdir w (rev rname) then ret tt else raise e).

Definition os_makedirs (name : path) : M unit := makedirs_rev (rev name).

(** [os.chown(p, uid, gid, follow_symlinks=...)]. *)
Definition os_chown (p : path) (uid gid : nat) (follow_symlinks : bool)
  : M unit :=
  fun w =>
    match target_of follow_symlinks w p with
    | None => (w, Raise OSError)
    | Some q =>
        match dents w !! q with
        | None => (w, Raise FileNotFoundError)
        | Some _ =>
            if may_chown pol q then
              match update_meta
                      (fun m => mkStat uid gid (st_mode m) (st_atime m)
                                       (st_mtime m)) q w with
              | Some w' => (w', Ok tt)
              | None => (w, Raise FileNotFoundError)
              end
            else (w, Raise PermissionError)
        end
    end.

(** [shutil.copystat(src, dst, follow_symlinks=...)]: permission bits and
    times; links are only worked on themselves when both names are links. *)
Definition shutil_copystat (src dst : path) (follow_symlinks : bool)
  : M unit :=
  w <- get ;;
  let follow := follow_symlinks || negb (islink w src && islink w dst) in
  st <- os_stat src follow ;;
  fun w =>
    match target_of follow w dst with
    | None => (w, Raise OSError)
    | Some q =>
        match update_meta
                (fun m => mkStat (st_uid m) (st_gid m) (st_mode st)
                                 (st_atime st) (st_mtime st)) q w with
        | Some w' => (w', Ok tt)
        | None => (w, Raise FileNotFoundError)
        end
    end.

(** [os.link(src, dst, follow_symlinks=False)]. *)
Definition os_link (src dst : path) : M unit :=
  fun w =>
    match dents w !! src with
    | None => (w, Raise FileNotFoundError)
    | Some (EDir _) => (w, Raise PermissionError)
    | Some (ENode i) =>
        match dents w !! dst with
        | Some _ => (w, Raise FileExistsError)
        | None =>
            match parent_error w dst with
            | Some e => (w, Raise e)
            | None =>
                if may_link pol src dst
                then (set_dents (insert dst (ENode i)) w, Ok tt)
                else (w, Raise OSError)
            end
        end
    end.

(** [os.unlink(p)]. *)
Definition os_unlink (p : path) : M unit :=
  fun w =>
    match dents w !! p with
    | None => (w, Raise FileNotFoundError)
    | Some (EDir _) => (w, Raise IsADirectoryError)
    | Some (ENode _) => (set_dents (delete p) w, Ok tt)
    end.

Definition fresh_ino (w : world) : nat := fresh (dom (inodes w)).

(** The world with a new inode under the name [q]. *)
Definition with_new_node (q : path) (b : inode_body) (w : world) : world :=
  let i := fresh_ino w in
  tick (set_dents (insert q (ENode i))
          (set_inodes (insert i (mkInode b (new_file_meta w))) w)).

(** Enter a new inode under the name [q]. *)
Definition create_node (q : path) (b : inode_body) : M unit :=
  fun w =>
    match parent_error w q with
    | Some e => (w, Raise e)
    | None => (with_new_node q b w, Ok tt)
    end.

(** [os.symlink(target, dst)]. *)
Definition os_symlink (target dst : path) : M unit :=
  fun w =>
    match dents w !! dst with
    | Some _ => (w, Raise FileExistsError)
    | None => create_node dst (Lnk target) w
    end.

(** [open(p, 'rb').read()]. *)
Definition read_file (p : path) : M string :=
  fun w =>
    match resolve MAXSYMLINKS w p with
    | None => (w, Raise OSError)
    | Some q =>
        match dents w !! q with
        | None => (w, Raise FileNotFoundError)
        | Some (EDir _) => (w, Raise IsADirectoryError)
        | Some (ENode i) =>
            match inodes w !! i with
            | Some (mkInode (Reg c) _) => (w, Ok c)
            | _ => (w, Raise OSError)
            end
        end
    end.

(** Truncate the open file [i] and write [c] from its start. *)
Definition rewrite_inode (i : nat) (c : string) (w : world) : world :=
  match inodes w !! i with
  | Some (mkInode _ m) =>
      tick (set_inodes
              (insert i (mkInode (Reg c)
                           (mkStat (st_uid m) (st_gid m) (st_mode m)
                                   (st_atime m) (clock w)))) w)
  | None => w
  end.

(** [open(p, 'wb').write(c)]: the file at the end of the links is created
    or truncated. *)
Definition write_file (p : path) (c : string) : M unit :=
  fun w =>
    match resolve MAXSYMLINKS w p with
    | None => (w, Raise OSError)
    | Some q =>
        match dents w !! q with
        | None => create_node q (Reg c) w
        | Some (EDir _) => (w, Raise IsADirectoryError)
        | Some (ENode i) =>
            if may_open_rw pol q then (rewrite_inode i c w, Ok tt)
            else (w, Raise PermissionError)
        end
    end.

(** [shutil.copyfile(src, dst, follow_symlinks=...)]. *)
Definition shutil_copyfile (src dst : path) (follow_symlinks : bool)
  : M unit :=
  w <- get ;;
  if samefile w src dst then raise SameFileError
  else if negb follow_symlinks && islink w src then
    match readlink w src with
    | Some t => os_symlink t dst
    | None => raise OSError
    end
  else
    c <- read_file src ;;
    write_file dst c.

(** [shutil.copy2(src, dst, follow_symlinks=...)]. *)
Definition shutil_copy2 (src dst : path) (follow_symlinks : bool) : M unit :=
  w <- get ;;
  let dst := if isdir w dst then join dst (basename src) else dst in
  shutil_copyfile src dst follow_symlinks ;;;
  shutil_copystat src dst follow_symlinks.

(** [os.walk(top)] driving the body of a [for root, dirs, files in ...]
    loop.  The walk is lazy: a directory is listed when the loop reaches
    it, after the body has run on its parent, and a name that is a link at
    that moment is not entered.  A directory that cannot be listed is
    skipped ([onerror] is None). *)
Definition descend (walk : path -> M unit) (top : path) (d : string)
  : M unit :=
  w' <- get ;;
  if islink w' (join top d) then ret tt else walk (join top d).

Fixpoint os_walk (fuel : nat) (top : path)
  (body : path -> list string -> list string -> M unit) : M unit :=
  match fuel with
  | 0 => raise RecursionError
  | S fuel' =>
      w <- get ;;
      match scandir w top with
      | None => ret tt
      | Some (dirs, nondirs) =>
          body top dirs nondirs ;;;
          for_each dirs (descend (fun p => os_walk fuel' p body) top)
      end
  end.

(** ** The module *)

(** A compiled regular expression, as far as the module uses it:
    [pattern.match(s)] as a truth value and [pattern.sub(repl, s)]. *)
Record Pattern := mkPattern {
  re_match : string -> bool;
  re_sub : string -> string -> string
}.

(** [open(file_path, 'r+')]: the handle is the inode. *)
Definition open_rw (file_path : path) : M nat :=
  fun w =>
    match resolve MAXSYMLINKS w file_path with
    | None => (w, Raise OSError)
    | Some q =>
        match dents w !! q with
        | None => (w, Raise FileNotFoundError)
        | Some (EDir _) => (w, Raise IsADirectoryError)
        | Some (ENode i) =>
            if may_open_rw pol q then (w, Ok i)
            else (w, Raise PermissionError)
        end
    end.

(** [f.read()] in text mode. *)
Definition f_read (f : nat) : M string :=
  fun w =>
    match inodes w !! f with
    | Some (mkInode (Reg c) _) =>
        match decode pol c with
        | Some text => (w, Ok text)
        | None => (w, Raise UnicodeDecodeError)
        end
    | _ => (w, Raise OSError)
    end.

(** [f.seek(0); f.truncate(); f.write(text)]. *)
Definition f_rewrite (f : nat) (text : string) : M unit :=
  modify (rewrite_inode f (encode pol text)).

Definition search_and_replace_contents (file_path : path)
  (search_pattern : Pattern) (replacement : string) : M unit :=
  modify (add_call (CallSearchAndReplace file_path)) ;;;
  try_except
    (f <- open_rw file_path ;;
     r <- try_except (original <- f_read f ;; ret (Some original))
            is_UnicodeDecodeError (fun _ => ret None) ;;
     match r with
     | None => ret tt
     | Some original =>
         let replaced := re_sub search_pattern replacement original in
         if bool_decide (replaced ≠ original) then f_rewrite f replaced
         else ret tt
     end)
    is_PermissionError
    (fun _ => modify (add_log WARNING file_path)).

(** The loop over the [files] of one directory. *)
Definition replace_in_files (file_pattern search_pattern : Pattern)
  (replacement : string) (root : path) (files : list string) : M unit :=
  for_each files (fun file_name =>
    if re_match file_pattern file_name then
      let file_path := join root file_name in
      w <- get ;;
      if negb (islink w file_path) then
        search_and_replace_contents file_path search_pattern replacement
      else ret tt
    else ret tt).

Definition replace_in_file (fuel : nat) (directory : path)
  (file_pattern search_pattern : Pattern) (replacement : string) : M unit :=
  os_walk fuel directory (fun root directories files =>
    replace_in_files file_pattern search_pattern replacement root files).

Definition create_similar_directory (source destination : path)
  (follow_symlinks : bool) : M unit :=
  modify (add_call (CallCreateSimilarDirectory source destination)) ;;;
  stat <- os_stat source follow_symlinks ;;
  let uid := st_uid stat in
  let gid := st_gid stat in
  os_makedirs destination ;;;
  try_except (os_chown destination uid gid follow_symlinks)
    is_PermissionError (fun _ => modify (add_log DEBUG destination)) ;;;
  shutil_copystat source destination follow_symlinks.

Definition link_or_copy (source destination : path) (follow_symlinks : bool)
  : M unit :=
  try_except
    (w <- get ;;
     let source_path := if follow_symlinks then realpath w source
                        else source in
     (if negb (exists_ w (dirname destination)) then
        create_similar_directory (dirname source_path) (dirname destination)
          false
      else ret tt) ;;;
     os_link source_path destination)
    is_OSError
    (fun _ =>
       try_except (os_unlink destination) is_OSError (fun _ => ret tt) ;;;
       shutil_copy2 source destination follow_symlinks ;;;
       st1 <- os_stat source follow_symlinks ;;
       let uid := st_uid st1 in
       st2 <- os_stat source follow_symlinks ;;
       let gid := st_gid st2 in
       try_except (os_chown destination uid gid follow_symlinks)
         is_PermissionError (fun _ => modify (add_log DEBUG destination))).

(** The loop over [directories]; it returns [files] with the names it
    appended. *)
Fixpoint tree_directories (source_tree destination_tree root : path)
  (directories files : list string) : M (list string) :=
  match directories with
  | [] => ret files
  | directory :: rest =>
      let source := join root directory in
      w <- get ;;
      if islink w source then
        tree_directories source_tree destination_tree root rest
          (files ++ [directory])
      else
        let destination :=
          destination_tree ++ relpath source source_tree in
        create_similar_directory source destination false ;;;
        tree_directories source_tree destination_tree root rest files
  end.

(** The loop over [files]. *)
Definition tree_files (copy_function : path -> path -> M unit)
  (source_tree destination_tree root : path) (files : list string)
  : M unit :=
  for_each files (fun file_name =>
    let source := join root file_name in
    let destination := destination_tree ++ relpath source source_tree in
    modify (add_call (CallCopyFunction source destination)) ;;;
    copy_function source destination).

Definition link_or_copy_tree (fuel : nat) (source_tree destination_tree : path)
  (copy_function : path -> path -> M unit) : M unit :=
  w <- get ;;
  if negb (isdir w source_tree) then raise NotADirectoryError
  else if negb (isdir w destination_tree) && exists_ w destination_tree
  then raise NotADirectoryError
  else
    create_similar_directory source_tree destination_tree false ;;;
    os_walk fuel source_tree (fun root directories files =>
      files' <- tree_directories source_tree destination_tree root
                  directories files ;;
      tree_files copy_function source_tree destination_tree root files').

(** The default [copy_function]. *)
Definition default_copy_function (source destination : path) : M unit :=
  link_or_copy source destination false.

End OS.

(** ** Guards *)

(** [str.isspace] on one character (code points below 256). *)
Definition isspace (c : ascii) : bool :=
  let n := nat_of_ascii c in
  (Nat.leb 9 n && Nat.leb n 13) || (Nat.leb 28 n && Nat.leb n 32)
  || Nat.eqb n 133 || Nat.eqb n 160.

(** [s.split()]: the maximal runs of characters that are not white space;
    [word] is the run being read. *)
Fixpoint str_split_aux (s word : string) : list string :=
  match s with
  | EmptyString =>
      match word with EmptyString => [] | _ => [word] end
  | String c s' =>
      if isspace c then
        match word with
        | EmptyString => str_split_aux s' EmptyString
        | _ => word :: str_split_aux s' EmptyString
        end
      else str_split_aux s' (word ++ String c EmptyString)%string
  end.

Definition str_split (s : string) : list string := str_split_aux s EmptyString.

(** The values a caller can pass where a [str] is announced. *)
Inductive pyobj :=
  | PyNone
  | PyInt (n : Z)
  | PyStr (s : string)
  | PyBytes (s : string)
  | PyBool (b : bool).

(** How the operating system answers an attempt to run a command. *)
Inductive proc_outcome :=
  | NotFound                      (* ENOENT from exec *)
  | NotPermitted                  (* EACCES from exec *)
  | Exited (returncode : Z).

(** A generator function: the code before its first [yield], then the
    code between two yields, then the code after the last. *)
Definition generator := list (M unit).

(** [with g: region], for [g] built by [@contextmanager]. *)
Definition with_context (g : generator) (region : M unit) : M unit :=
  match g with
  | [] => raise RuntimeError
  | [enter] => enter ;;; raise RuntimeError
  | enter :: leave :: rest =>
      enter ;;; region ;;; leave ;;;
      match rest with [] => ret tt | _ => raise RuntimeError end
  end.

Section Guard.

Variable run : list string -> proc_outcome.

(** [subprocess.check_call(cmd_list, ...)]: [Popen] takes [args[0]] as the
    executable before it asks the operating system anything. *)
Definition subprocess_check_call (cmd_list : list string) : M unit :=
  match cmd_list with
  | [] => raise IndexError
  | _ =>
      match run cmd_list with
      | NotFound => raise FileNotFoundError
      | NotPermitted => raise PermissionError
      | Exited 0 => ret tt
      | Exited _ => raise CalledProcessError
      end
  end.

Definition is_FileNotFoundError (e : exn) : bool :=
  match e with FileNotFoundError => true | _ => false end.

Definition is_CalledProcessError (e : exn) : bool :=
  match e with CalledProcessError => true | _ => false end.

Definition requires_command_success (command : pyobj)
  (not_found_fmt failure_fmt : option string) : generator :=
  [ match command with
    | PyStr command =>
        let cmd_list := str_split command in
        try_except
          (try_except (subprocess_check_call cmd_list) is_FileNotFoundError
             (fun _ =>
                raise (RequiredCommandNotFound command cmd_list not_found_fmt)))
          is_CalledProcessError
          (fun _ => raise (RequiredCommandFailure command cmd_list failure_fmt))
    | _ => raise TypeError
    end;
    ret tt ].

End Guard.

Definition requires_path_exists (p : path) (error_fmt : option string)
  : generator :=
  [ w <- get ;;
    if negb (exists_ w p) then raise (RequiredPathDoesNotExist p error_fmt)
    else ret tt;
    ret tt ].

(** ** Hashing *)

(** What [getattr(hashlib, name)] finds: the public names of the module
    (Python 3.6, the version the imports of the module aim at). *)
Inductive hashlib_attr :=
  | HashConstructor               (* md5, sha256, sha3_384, ... *)
  | XofConstructor                (* shake_128, shake_256 *)
  | FunctionWithArguments         (* new, pbkdf2_hmac, scrypt *)
  | NotCallable.                  (* algorithms_guaranteed, ... *)

Definition hashlib_namespace : list (string * hashlib_attr) :=
  [ ("md5", HashConstructor); ("sha1", HashConstructor);
    ("sha224", HashConstructor); ("sha256", HashConstructor);
    ("sha384", HashConstructor); ("sha512", HashConstructor);
    ("blake2b", HashConstructor); ("blake2s", HashConstructor);
    ("sha3_224", HashConstructor); ("sha3_256", HashConstructor);
    ("sha3_384", HashConstructor); ("sha3_512", HashConstructor);
    ("shake_128", XofConstructor); ("shake_256", XofConstructor);
    ("new", FunctionWithArguments); ("pbkdf2_hmac", FunctionWithArguments);
    ("scrypt", FunctionWithArguments);
    ("algorithms_guaranteed", NotCallable);
    ("algorithms_available", NotCallable) ].

Fixpoint assoc {A} (k : string) (l : list (string * A)) : option A :=
  match l with
  | [] => None
  | (k', v) :: l' => if String.eqb k k' then Some v else assoc k l'
  end.

Definition hashlib_getattr (name : string) : option hashlib_attr :=
  assoc name hashlib_namespace.

(** [f.read(blocksize)] on what is left of the file. *)
Fixpoint read_block (blocksize : N) (rest : string) : string * string :=
  match rest with
  | EmptyString => (EmptyString, EmptyString)
  | String c rest' =>
      if N.eqb blocksize 0 then (EmptyString, rest)
      else let '(buf, rest'') := read_block (N.pred blocksize) rest' in
           (String c buf, rest'')
  end.

(** The loop [while True: buf = f.read(blocksize) ...]; the hasher is the
    data it has been fed.  Every turn but the last consumes a byte, so
    the length of the file bounds the turns. *)
Fixpoint update_loop (turns : nat) (blocksize : N) (rest hasher : string)
  : string :=
  match turns with
  | 0 => hasher
  | S turns' =>
      let '(buf, rest') := read_block blocksize rest in
      match buf with
      | EmptyString => hasher
      | _ => update_loop turns' blocksize rest' (hasher ++ buf)%string
      end
  end.

Section Hash.

(** [hexdigest_of name data]: the digest, in hexadecimal, that the
    algorithm [name] gives to [data]. *)
Variable hexdigest_of : string -> string -> string.

Definition calculate_hash (p : path) (algorithm : string) : M string :=
  match hashlib_getattr algorithm with
  | None => raise AttributeError
  | Some NotCallable | Some FunctionWithArguments => raise TypeError
  | Some kind =>
      let blocksize := (2 ^ 20)%N in
      content <- read_file p ;;
      let hasher :=
        update_loop (S (String.length content)) blocksize content EmptyString in
      match kind with
      | HashConstructor => ret (hexdigest_of algorithm hasher)
      | _ => raise TypeError      (* hexdigest() of a shake needs a length *)
      end
  end.

Definition calculate_sha3_384 (p : path) : M string :=
  calculate_hash p "sha3_384".

End Hash.

(** ** Concrete instances, for the examples *)

(** [re.compile(re.escape(needle)).sub(repl, s)]: every occurrence of
    [needle], leftmost first and without overlap; [skip] counts the
    characters of a match still to be passed over. *)
Fixpoint literal_sub_aux (needle repl : string) (skip : nat) (s : string)
  : string :=
  match s with
  | EmptyString =>
      match needle with EmptyString => repl | _ => EmptyString end
  | String c s' =>
      match skip with
      | S k => literal_sub_aux needle repl k s'
      | 0 =>
          match needle with
          | EmptyString =>
              (repl ++ String c (literal_sub_aux needle repl 0 s'))%string
          | _ =>
              if String.prefix needle s then
                (repl ++ literal_sub_aux needle repl
                           (String.length needle - 1) s')%string
              else String c (literal_sub_aux needle repl 0 s')
          end
      end
  end.

(** The pattern [re.compile(re.escape(needle))]. *)
Definition literal (needle : string) : Pattern :=
  mkPattern (String.prefix needle)
            (fun repl s => literal_sub_aux needle repl 0 s).

(** The ASCII codec. *)
Fixpoint is_ascii (s : string) : bool :=
  match s with
  | EmptyString => true
  | String c s' => Nat.ltb (nat_of_ascii c) 128 && is_ascii s'
  end.

Definition ascii_decode (s : string) : option string :=
  if is_ascii s then Some s else None.

(** A process that owns what it creates and is refused nothing. *)
Definition permissive : policy :=
  mkPolicy (fun _ _ => true) (fun _ => true) (fun _ => true)
           ascii_decode (fun s => s) 1000 1000 420 493.

(** The same process on a system where a hard link cannot be made. *)
Definition no_links : policy :=
  mkPolicy (fun _ _ => false) (fun _ => true) (fun _ => true)
           ascii_decode (fun s => s) 1000 1000 420 493.

(** The same process where [p] may not be opened for writing. *)
Definition read_only (p : path) : policy :=
  mkPolicy (fun _ _ => true) (fun _ => true)
           (fun q => bool_decide (q ≠ p))
           ascii_decode (fun s => s) 1000 1000 420 493.

Definition mkfs (entries : list (path * dentry)) (nodes : list (nat * inode))
  : world :=
  mkWorld (list_to_map entries) (list_to_map nodes) 10 [] [].

Definition root_meta : stat_result := mkStat 0 0 493 1 1.
Definition user_meta : stat_result := mkStat 1000 1000 420 5 5.

Definition empty_world : world := mkfs [([], EDir root_meta)] [].

(** ** Definitions used by the statements *)

(** A string of white space only (the empty string is one). *)
Fixpoint all_space (s : string) : bool :=
  match s with
  | EmptyString => true
  | String c s' => isspace c && all_space s'
  end.

(** The claim C9 as the specification words it: a command that is a
    string ends in RequiredCommandNotFound, in RequiredCommandFailure, or
    in the guarded region, entered once. *)
Definition guard_trichotomy_as_stated (run : list string -> proc_outcome)
  : Prop :=
  forall command nf ff region w,
    let r := with_context
               (requires_command_success run (PyStr command) nf ff) region w in
    (exists l, r = (w, Raise (RequiredCommandNotFound command l nf)))
    \/ (exists l, r = (w, Raise (RequiredCommandFailure command l ff)))
    \/ r = region w.

(** An operating system that knows three commands. *)
Definition three_commands (cmd_list : list string) : proc_outcome :=
  match cmd_list with
  | "true" :: _ => Exited 0
  | "false" :: _ => Exited 1
  | _ => NotFound
  end.

(** The specification's names for the failures of hashing. *)
Definition UnsupportedAlgorithm (e : exn) : Prop := e = AttributeError.
Definition IOFailure (e : exn) : Prop := is_OSError e = true.

(** A name is a recognized hash algorithm when hashlib has a constructor
    of hash objects under it. *)
Definition recognized (algorithm : string) : bool :=
  match hashlib_getattr algorithm with
  | Some HashConstructor | Some XofConstructor => true
  | _ => false
  end.

(** The file can be opened and read. *)
Definition readable (w : world) (p : path) : bool :=
  match read_file p w with (_, Ok _) => true | _ => false end.

(** The claim C8 as the specification words it. *)
Definition hash_errors_as_stated
  (hexdigest_of : string -> string -> string) : Prop :=
  (forall p algorithm w,
     recognized algorithm = false ->
     exists e, calculate_hash hexdigest_of p algorithm w = (w, Raise e)
               /\ UnsupportedAlgorithm e)
  /\ (forall p algorithm w,
        readable w p = false ->
        exists e, calculate_hash hexdigest_of p algorithm w = (w, Raise e)
                  /\ IOFailure e).

(** The text that [open(file_path, 'r+').read()] gives, when it gives
    one. *)
Definition text_of (pol : policy) (w : world) (file_path : path)
  : option string :=
  match resolve MAXSYMLINKS w file_path with
  | Some q =>
      match file_content w q with
      | Some c => decode pol c
      | None => None
      end
  | None => None
  end.

(** The claim C5 as the specification words it: a second application
    leaves the file system, times included, as the first left it. *)
Definition idempotence_as_stated (pol : policy) : Prop :=
  forall file_path search_pattern replacement w,
    let w1 := fst (search_and_replace_contents pol file_path search_pattern
                     replacement w) in
    let w2 := fst (search_and_replace_contents pol file_path search_pattern
                     replacement w1) in
    fs_of w2 = fs_of w1.

(** A file system with the one file /f, of content "a". *)
Definition one_file : world :=
  mkfs [([], EDir root_meta); (["f"], ENode 1)]
       [(1, mkInode (Reg "a") user_meta)].

(** A file system with the one file /f, of content "foo foo". *)
Definition foo_file : world :=
  mkfs [([], EDir root_meta); (["f"], ENode 1)]
       [(1, mkInode (Reg "foo foo") user_meta)].

(** What [open(file_path, 'r+')] opens when permissions allow: the name
    at the end of the links, its inode and its bytes. *)
Definition opens_as (w : world) (file_path : path)
  : option (path * nat * string) :=
  match resolve MAXSYMLINKS w file_path with
  | Some q =>
      match dents w !! q with
      | Some (ENode i) =>
          match inodes w !! i with
          | Some (mkInode (Reg c) _) => Some (q, i, c)
          | _ => None
          end
      | _ => None
      end
  | None => None
  end.

(** The file is there and its bytes are no text. *)
Definition undecodable (pol : policy) (w : world) (file_path : path) : bool :=
  match opens_as w file_path with
  | Some (_, _, c) =>
      match decode pol c with None => true | Some _ => false end
  | None => false
  end.

(** The file is there and may not be opened for writing. *)
Definition write_denied (pol : policy) (w : world) (file_path : path) : bool :=
  match opens_as w file_path with
  | Some (q, _, _) => negb (may_open_rw pol q)
  | None => false
  end.

(** A directory /t with a binary file, a text file and a link to the
    text file. *)
Definition mixed_tree : world :=
  mkfs [([], EDir root_meta); (["t"], EDir user_meta);
        (["t"; "a.bin"], ENode 1); (["t"; "b.txt"], ENode 2);
        (["t"; "c.txt"], ENode 3)]
       [(1, mkInode (Reg (String (ascii_of_nat 200) "foo")) user_meta);
        (2, mkInode (Reg "foo") user_meta);
        (3, mkInode (Lnk ["t"; "b.txt"]) user_meta)].

(** A source tree /s with a file and a link to a directory, next to a
    file /x and an empty directory /d. *)
Definition staging : world :=
  mkfs [([], EDir root_meta); (["s"], EDir user_meta);
        (["s"; "f"], ENode 1); (["s"; "l"], ENode 2);
        (["x"], ENode 3); (["d"], EDir root_meta);
        (["d"; "keep"], ENode 4)]
       [(1, mkInode (Reg "data") user_meta);
        (2, mkInode (Lnk ["s"]) user_meta);
        (3, mkInode (Reg "plain") user_meta);
        (4, mkInode (Reg "kept") user_meta)].

(** ** Invariants of computations *)

(** Every run of [m] from a world in [P] ends, normally or not, in a
    world in [P]. *)
Definition preserves {A} (P : world -> Prop) (m : M A) : Prop :=
  forall w w' r, P w -> m w = (w', r) -> P w'.

(** ** Definitions for the merge property of the tree copy *)

Definition is_dir_entry (e : option dentry) : bool :=
  match e with Some (EDir _) => true | _ => false end.

Definition is_node_entry (e : option dentry) : bool :=
  match e with Some (ENode _) => true | _ => false end.

(** What kind of entry a name has, whatever the metadata: none, a
    directory, or the inode of a file or link. *)
Definition shape (e : option dentry) : option (option nat) :=
  match e with
  | None => None
  | Some (EDir _) => Some None
  | Some (ENode i) => Some (Some i)
  end.

(** Every name of a file or link has its inode. *)
Definition no_dangling (w : world) : Prop :=
  forall p i, dents w !! p = Some (ENode i) -> is_Some (inodes w !! i).

(** The claim C3 as the specification words it. *)
Definition merge_as_stated (pol : policy) : Prop :=
  forall fuel source_tree destination_tree w w' rel c,
    link_or_copy_tree pol fuel source_tree destination_tree
      (default_copy_function pol) w = (w', Ok tt) ->
    file_content w (destination_tree ++ rel) = Some c ->
    dents w !! (source_tree ++ rel) = None ->
    file_content w' (destination_tree ++ rel) = Some c.

(** A source tree /s with the file y, and a destination /d where y is a
    directory that holds a file y of its own. *)
Definition clash : world :=
  mkfs [([], EDir root_meta); (["s"], EDir user_meta);
        (["s"; "y"], ENode 1); (["d"], EDir user_meta);
        (["d"; "y"], EDir user_meta); (["d"; "y"; "y"], ENode 2)]
       [(1, mkInode (Reg "new") user_meta);
        (2, mkInode (Reg "old") user_meta)].

(** A source tree /s that contains its destination /s/d. *)
Definition nested : world :=
  mkfs [([], EDir root_meta); (["s"], EDir user_meta);
        (["s"; "f"], ENode 1); (["s"; "d"], EDir user_meta);
        (["s"; "d"; "d"], EDir user_meta);
        (["s"; "d"; "d"; "f"], ENode 2)]
       [(1, mkInode (Reg "new") user_meta);
        (2, mkInode (Reg "old") user_meta)].

(** What the copy of the tree [src] into [dst] keeps true of the world,
    from the world [w0] it starts in on: the names of the source tree
    keep their shapes; a directory under the destination was there or
    stands where the source has no file; the protected name
    [dst ++ rel0] keeps its entry; the inodes of [w0] keep their bodies;
    and no name loses its inode. *)
Record merge_invariant (src dst : path) (w0 : world) (rel0 : path)
  (cur : world) : Prop := mkMergeInvariant {
  inv_src : forall q, src `prefix_of` q ->
              shape (dents cur !! q) = shape (dents w0 !! q);
  inv_dirs : forall rel, rel <> [] ->
               is_dir_entry (dents cur !! (dst ++ rel)) = true ->
               is_dir_entry (dents w0 !! (dst ++ rel)) = true
               \/ is_node_entry (dents w0 !! (src ++ rel)) = false;
  inv_prot : dents cur !! (dst ++ rel0) = dents w0 !! (dst ++ rel0);
  inv_body : forall i n, inodes w0 !! i = Some n ->
               exists n', inodes cur !! i = Some n' /\ i_body n' = i_body n;
  inv_nodangling : no_dangling cur
}.

(** A name where the copy may make a directory: outside the source tree,
    and under the destination only where the source has no file. *)
Definition may_mkdir (src dst : path) (w0 : world) (q : path) : Prop :=
  ~ src `prefix_of` q
  /\ forall rel, rel <> [] -> q = dst ++ rel ->
       is_node_entry (dents w0 !! (src ++ rel)) = false.

(** Every directory on the way from the source tree down to [src ++ r]
    was a directory in [w0]. *)
Definition known_dirs (src : path) (w0 : world) (r : path) : Prop :=
  forall rel, rel <> [] -> rel `prefix_of` r ->
    is_dir_entry (dents w0 !! (src ++ rel)) = true.

(** What the walk knows of the directory it is in. *)
Definition walk_root (src : path) (w0 : world) (root : path) : Prop :=
  exists r, root = src ++ r /\ known_dirs src w0 r.

(** What the walk knows of a name it lists as a directory: in [w0] it
    was a directory or a link. *)
Definition listed_dir (w0 : world) (root : path) (n : string) : Prop :=
  is_dir_entry (dents w0 !! join root n) = true
  \/ exists i t m, dents w0 !! join root n = Some (ENode i)
                   /\ inodes w0 !! i = Some (mkInode (Lnk t) m).

(** What the walk knows of a name it lists as a file. *)
Definition listed_file (w0 : world) (root : path) (n : string) : Prop :=
  is_node_entry (dents w0 !! join root n) = true.

(** A destination /d that contains its source tree /d/s. *)
Definition inside_out : world :=
  mkfs [([], EDir root_meta); (["d"], EDir user_meta);
        (["d"; "s"], EDir user_meta); (["d"; "s"; "s"], EDir user_meta);
        (["d"; "s"; "s"; "b"], EDir user_meta);
        (["d"; "s"; "s"; "b"; "f"], ENode 1);
        (["d"; "s"; "b"], EDir user_meta); (["d"; "b"], EDir user_meta);
        (["d"; "b"; "f"], ENode 2)]
       [(1, mkInode (Reg "new") user_meta);
        (2, mkInode (Reg "old") user_meta)].

(** [no_dangling], computed. *)
Definition no_dangling_b (w : world) : bool :=
  forallb (fun pe : path * dentry =>
             match pe.2 with
             | ENode i => bool_decide (is_Some (inodes w !! i))
             | EDir _ => true
             end)
          (map_to_list (dents w)).

(** [p] without its beginning [start]. *)
Fixpoint strip_prefix (start p : path) : option path :=
  match start, p with
  | [], _ => Some p
  | x :: start', y :: p' =>
      if String.eqb x y then strip_prefix start' p' else None
  | _ :: _, [] => None
  end.

(** No file or link of the source tree has a directory at its place in
    the destination; computed. *)
Definition no_file_onto_dir_b (src dst : path) (w : world) : bool :=
  forallb (fun pe : path * dentry =>
             match pe.2, strip_prefix src pe.1 with
             | ENode _, Some rel =>
                 negb (is_dir_entry (dents w !! (dst ++ rel)))
             | _, _ => true
             end)
          (map_to_list (dents w)).

(** ** Definitions for the contract of link_or_copy *)

#[global] Instance stat_result_eq_dec : EqDecision stat_result.
Proof. solve_decision. Defined.

#[global] Instance inode_body_eq_dec : EqDecision inode_body.
Proof. solve_decision. Defined.

(** The path whose data link_or_copy replicates. *)
Definition source_path (w : world) (follow_symlinks : bool) (source : path)
  : path :=
  if follow_symlinks then realpath w source else source.

(** What a copy must keep of an inode: content, permission bits and
    times. *)
Definition data_of (n : inode) : inode_body * nat * nat * nat :=
  (i_body n, st_mode (i_meta n), st_atime (i_meta n), st_mtime (i_meta n)).

Definition same_data (a b : inode) : bool :=
  bool_decide (data_of a = data_of b).

(** After the call, in [w'], the destination names an inode whose data
    are those of the inode that the source named in [w]: the same inode
    (a hard link) or another one (a copy). *)
Definition destination_replicates (w w' : world) (source destination : path)
  (follow_symlinks : bool) : Prop :=
  exists i n j n',
    dents w !! source_path w follow_symlinks source = Some (ENode i)
    /\ inodes w' !! i = Some n
    /\ dents w' !! destination = Some (ENode j)
    /\ inodes w' !! j = Some n'
    /\ same_data n n' = true.

(** The claim C1 as the specification words it. *)
Definition replication_as_stated (pol : policy) : Prop :=
  forall source destination follow_symlinks w w',
    link_or_copy pol source destination follow_symlinks w = (w', Ok tt) ->
    destination_replicates w w' source destination follow_symlinks.

(** What the attempt to link keeps true, from the world [w0] on, while it
    may make the directory [top] and the directories above it: a name
    keeps its shape or is such a new directory, and an inode keeps its
    body. *)
Record link_frame (w0 : world) (top : path) (cur : world) : Prop :=
  mkLinkFrame {
  lf_shape : forall q,
    shape (dents cur !! q) = shape (dents w0 !! q)
    \/ (q `prefix_of` top /\ q <> [] /\ dents w0 !! q = None
        /\ is_dir_entry (dents cur !! q) = true);
  lf_body : forall i, i_body <$> inodes cur !! i = i_body <$> inodes w0 !! i
}.

(** The pattern that matches every file name. *)
Definition any_name : Pattern := literal EmptyString.

(** The names among [directories] that are links in [w], and those that
    are not. *)
Definition linked_names (w : world) (root : path) (directories : list string)
  : list string :=
  List.filter (fun d => islink w (join root d)) directories.

Definition cloned_names (w : world) (root : path) (directories : list string)
  : list string :=
  List.filter (fun d => negb (islink w (join root d))) directories.

(** ** The rest of the module *)

(** The directories that [_command_path_in_root] tries, in its order. *)
Definition bin_directories : list path :=
  [ ["usr"; "local"; "sbin"]; ["usr"; "local"; "bin"]; ["usr"; "sbin"];
    ["usr"; "bin"]; ["sbin"]; ["bin"] ].

(** The loop of [_command_path_in_root] over the directories left to
    try; falling off the loop returns None. *)
Fixpoint command_path_among (directories : list path) (root : path)
  (command_name : string) (w : world) : option path :=
  match directories with
  | [] => None
  | bin_directory :: rest =>
      let p := root ++ bin_directory ++ [command_name] in
      if exists_ w p then Some p
      else command_path_among rest root command_name w
  end.

Definition _command_path_in_root (root : path) (command_name : string)
  (w : world) : option path :=
  command_path_among bin_directories root command_name w.

(** What [get_tool_path] returns: a path it found, or the name it was
    given. *)
Inductive tool_path :=
  | FoundAt (p : path)
  | Name (command_name : string).

(** The process environment that [get_tool_path] consults:
    [common.is_snap()], [common.is_docker_instance()] and
    [os.getenv('SNAP')]. *)
Record environment := mkEnvironment {
  is_snap : bool;
  is_docker_instance : bool;
  getenv_SNAP : option path
}.

(** [get_tool_path(command_name)].  [os.path.join(None, ...)] raises
    TypeError, which is what an unset SNAP comes to. *)
Definition get_tool_path (env : environment) (command_name : string)
  : M tool_path :=
  w <- get ;;
  p <- (if is_snap env then
          match getenv_SNAP env with
          | Some root => ret (_command_path_in_root root command_name w)
          | None => raise TypeError
          end
        else if is_docker_instance env then
          ret (_command_path_in_root ["snap"; "snapcraft"; "current"]
                 command_name w)
        else ret None) ;;
  match p with
  | Some found => ret (FoundAt found)
  | None => ret (Name command_name)
  end.

(** The root under which [get_tool_path] looks, when it looks. *)
Definition sandbox_root (env : environment) : option path :=
  if is_snap env then getenv_SNAP env
  else if is_docker_instance env then Some ["snap"; "snapcraft"; "current"]
  else None.

(** A file system with a link /dangling to nothing and a link /alias to
    the file /f. *)
Definition with_links : world :=
  mkfs [([], EDir root_meta); (["f"], ENode 1); (["alias"], ENode 2);
        (["dangling"], ENode 3)]
       [(1, mkInode (Reg "foo") user_meta);
        (2, mkInode (Lnk ["f"]) user_meta);
        (3, mkInode (Lnk ["gone"]) user_meta)].

(** A snap with the tool in usr/bin and in bin. *)
Definition snap_world : world :=
  mkfs [([], EDir root_meta); (["snap"], EDir root_meta);
        (["snap"; "usr"], EDir root_meta);
        (["snap"; "usr"; "bin"], EDir root_meta);
        (["snap"; "usr"; "bin"; "patchelf"], ENode 1);
        (["snap"; "bin"], EDir root_meta);
        (["snap"; "bin"; "patchelf"], ENode 2)]
       [(1, mkInode (Reg "elf") root_meta);
        (2, mkInode (Reg "elf") root_meta)].

Definition in_snap : environment := mkEnvironment true false (Some ["snap"]).

(** Two names, /f and /g, for one file, and a third file /h. *)
Definition two_names : world :=
  mkfs [([], EDir root_meta); (["f"], ENode 1); (["g"], ENode 1);
        (["h"], ENode 2)]
       [(1, mkInode (Reg "foo foo") user_meta);
        (2, mkInode (Reg "foo") user_meta)].

(** A world whose names and inodes are those of [w] with the new name
    [d] for a new inode [n]. *)
Definition copy_of (w : world) (d : path) (n : inode) (v : world) : Prop :=
  dents v = <[d := ENode (fresh_ino w)]> (dents w)
  /\ inodes v = <[fresh_ino w := n]> (inodes w).

(** Equal permission bits and times. *)
Definition same_mode_times (a b : stat_result) : Prop :=
  st_mode a = st_mode b /\ st_atime a = st_atime b
  /\ st_mtime a = st_mtime b.

(** A directory as [os.mkdir] makes it: owned by the process, with the
    mode of new directories. *)
Definition fresh_dir (pol : policy) (m : stat_result) : Prop :=
  st_uid m = proc_uid pol /\ st_gid m = proc_gid pol
  /\ st_mode m = new_dir_mode pol.

(** What [os.makedirs] leaves of a world [w]: every name is as it was or
    is a directory made where there was nothing, every inode and the log
    are as they were. *)
Definition keeps_entries (pol : policy) (w v : world) : Prop :=
  (forall p, dents v !! p = dents w !! p
             \/ (dents w !! p = None
                 /\ exists m, dents v !! p = Some (EDir m) /\ fresh_dir pol m))
  /\ inodes v = inodes w /\ logs v = logs w.

(** The inodes that a pass over [directory] may rewrite: those that have
    a name below the directory whose last component matches the file
    pattern. *)
Definition named_match (directory : path) (file_pattern : Pattern)
  (w : world) (i : nat) : Prop :=
  exists root file_name,
    directory `prefix_of` root
    /\ re_match file_pattern file_name = true
    /\ dents w !! join root file_name = Some (ENode i).

(** What a pass that rewrites files keeps of the world [w] it starts in:
    the names, the links, and an inode for every name. *)
Definition same_names (w v : world) : Prop :=
  dents v = dents w
  /\ (forall p, readlink v p = readlink w p)
  /\ no_dangling v.

(** Every name of the world has fewer than [n] components; computed. *)
Definition depth_below_b (w : world) (n : nat) : bool :=
  forallb (fun pe : path * dentry => Nat.ltb (length pe.1) n)
          (map_to_list (dents w)).

(** ** Definitions for the replication of a tree *)

(** Every inode of [v] is an inode of [v'], with the content, the
    permission bits and the times it had. *)
Definition keeps_data (v v' : world) : Prop :=
  forall j n, inodes v !! j = Some n ->
    exists n', inodes v' !! j = Some n' /\ data_of n' = data_of n.

(** What the copy of the tree [src] into [dst] keeps true of the world,
    from the world [w0] it starts in on: the names of the source tree
    keep their shapes; a directory under the destination was there or
    stands where the source has no file; the inodes of [w0] keep their
    data; and no name loses its inode. *)
Record copy_invariant (src dst : path) (w0 cur : world) : Prop :=
  mkCopyInvariant {
  ci_src : forall q, src `prefix_of` q ->
             shape (dents cur !! q) = shape (dents w0 !! q);
  ci_dirs : forall rel, rel <> [] ->
              is_dir_entry (dents cur !! (dst ++ rel)) = true ->
              is_dir_entry (dents w0 !! (dst ++ rel)) = true
              \/ is_node_entry (dents w0 !! (src ++ rel)) = false;
  ci_data : keeps_data w0 cur;
  ci_nodangling : no_dangling cur
}.

(** The file or link that [src ++ r] named in [w0] has its replica at
    [dst ++ r] in [cur]: an inode with the same content, permission bits
    and times. *)
Definition replicated (src dst : path) (w0 cur : world) (r : path) : Prop :=
  exists i n j n',
    dents w0 !! (src ++ r) = Some (ENode i)
    /\ inodes w0 !! i = Some n
    /\ dents cur !! (dst ++ r) = Some (ENode j)
    /\ inodes cur !! j = Some n'
    /\ same_data n n' = true.

(** Every replica that [v] has, [v'] has. *)
Definition keeps_replicas (src dst : path) (w0 v v' : world) : Prop :=
  forall r, replicated src dst w0 v r -> replicated src dst w0 v' r.

(** ** Definitions for the rewriting of a tree *)

(** The content that [search_and_replace_contents] leaves in a file of
    content [c] that it may write: the substituted text, encoded, when the
    content is text and the substitution changes it. *)
Definition rewritten (pol : policy) (search_pattern : Pattern)
  (replacement c : string) : string :=
  match decode pol c with
  | Some text =>
      let replaced := re_sub search_pattern replacement text in
      if bool_decide (replaced ≠ text) then encode pol replaced else c
  | None => c
  end.

(** What a pass over the tree keeps true of the world, from the world [w]
    on, while the regular file [i], of content [c] in [w], is rewritten or
    not yet: the names and the links are those of [w], and the content of
    [i] is [c] or what the pass makes of it. *)
Definition rewrite_invariant (pol : policy) (search_pattern : Pattern)
  (replacement : string) (w : world) (i : nat) (c : string) (v : world)
  : Prop :=
  dents v = dents w
  /\ (forall p, readlink v p = readlink w p)
  /\ exists c' m',
       inodes v !! i = Some (mkInode (Reg c') m')
       /\ (c' = c \/ c' = rewritten pol search_pattern replacement c).

(** The file [i] has the content the pass makes of [c]. *)
Definition rewritten_in (pol : policy) (search_pattern : Pattern)
  (replacement c : string) (i : nat) (v : world) : Prop :=
  exists m',
    inodes v !! i
    = Some (mkInode (Reg (rewritten pol search_pattern replacement c)) m').

(** * Properties *)

(** ** The monad *)

Lemma bind_ret_unit (m : M unit) (w : world) : (m ;;; ret tt) w = m w.
Proof.
  unfold bind, ret. destruct (m w) as [w' [[]|e]]; reflexivity.
Qed.

Lemma bind_ext {A B} (m : M A) (k k' : A -> M B) (w : world) :
  (forall a w', k a w' = k' a w') -> bind m k w = bind m k' w.
Proof.
  intros H. unfold bind. destruct (m w) as [w' [a|e]]; [apply H|reflexivity].
Qed.

(** ** Guards *)

Lemma str_split_all_space (s : string) :
  all_space s = true -> str_split_aux s EmptyString = [].
Proof.
  induction s as [|c s IH]; simpl; [reflexivity|].
  intros [Hc Hs]%andb_true_iff. rewrite Hc. exact (IH Hs).
Qed.

(** The guard on a word-less command never reaches the operating system. *)
Lemma guard_enter_no_words run command nf ff region w :
  str_split command = [] ->
  with_context (requires_command_success run (PyStr command) nf ff) region w
  = (w, Raise IndexError).
Proof.
  intros H. unfold with_context, requires_command_success.
  rewrite H. reflexivity.
Qed.

(** C10: for the empty string and for every string of white space only,
    the command splits into the empty argument list, and entering the
    guard fails with IndexError, which is neither of the two typed
    failures of the guard nor its TypeError. *)
Theorem empty_command_untyped_failure :
  forall run command nf ff region w,
    all_space command = true ->
    str_split command = []
    /\ exists e,
         with_context (requires_command_success run (PyStr command) nf ff)
           region w = (w, Raise e)
         /\ e = IndexError
         /\ e <> TypeError
         /\ (forall c l f, e <> RequiredCommandNotFound c l f)
         /\ (forall c l f, e <> RequiredCommandFailure c l f).
Proof.
  intros run command nf ff region w Hs.
  pose proof (str_split_all_space command Hs) as Hsplit.
  split; [exact Hsplit|].
  exists IndexError. split.
  - apply guard_enter_no_words. exact Hsplit.
  - repeat split; intros; discriminate.
Qed.

Lemma empty_command_untyped_failure_witness :
  all_space "   " = true
  /\ str_split "   " = []
  /\ exists e,
       with_context
         (requires_command_success (fun _ => Exited 0) (PyStr "   ") None None)
         (ret tt) empty_world = (empty_world, Raise e)
       /\ e = IndexError
       /\ e <> TypeError
       /\ (forall c l f, e <> RequiredCommandNotFound c l f)
       /\ (forall c l f, e <> RequiredCommandFailure c l f).
Proof.
  split; [reflexivity|].
  apply (empty_command_untyped_failure (fun _ => Exited 0) "   " None None
           (ret tt) empty_world).
  reflexivity.
Defined.

(** C9, counterexample: the empty command is a string; with it the guard
    raises IndexError, whatever the operating system would answer. *)
Lemma guard_trichotomy_as_stated_fails :
  ~ guard_trichotomy_as_stated (fun _ => Exited 0).
Proof.
  intros H.
  specialize (H EmptyString None None (ret tt) empty_world). cbv zeta in H.
  rewrite guard_enter_no_words in H by reflexivity.
  destruct H as [[l H]|[[l H]|H]]; discriminate H.
Qed.

(** C9, amended: a command that is not a string is refused with
    TypeError; a string command of at least one word raises
    RequiredCommandNotFound when the executable is not found and
    RequiredCommandFailure when it exits with a code other than zero, both
    with the command, its argument list and the caller's format; when it
    exits with zero the guarded region is entered exactly once. *)
Theorem guard_outcomes :
  forall run command nf ff region w,
    (forall v, (forall s, v <> PyStr s) ->
       with_context (requires_command_success run v nf ff) region w
       = (w, Raise TypeError))
    /\ (str_split command <> [] ->
        run (str_split command) = NotFound ->
        with_context (requires_command_success run (PyStr command) nf ff)
          region w
        = (w, Raise (RequiredCommandNotFound command (str_split command) nf)))
    /\ (str_split command <> [] ->
        forall code, code <> 0%Z ->
        run (str_split command) = Exited code ->
        with_context (requires_command_success run (PyStr command) nf ff)
          region w
        = (w, Raise (RequiredCommandFailure command (str_split command) ff)))
    /\ (str_split command <> [] ->
        run (str_split command) = Exited 0 ->
        with_context (requires_command_success run (PyStr command) nf ff)
          region w
        = region w).
Proof.
  intros run command nf ff region w. repeat split.
  - intros v Hv. destruct v; try reflexivity. exfalso. eapply Hv. reflexivity.
  - intros Hne Hrun. unfold with_context, requires_command_success.
    destruct (str_split command) as [|a l] eqn:E; [congruence|].
    unfold bind, try_except, subprocess_check_call. rewrite Hrun. reflexivity.
  - intros Hne code Hcode Hrun.
    unfold with_context, requires_command_success.
    destruct (str_split command) as [|a l] eqn:E; [congruence|].
    unfold bind, try_except, subprocess_check_call. rewrite Hrun.
    destruct code; [congruence| |]; reflexivity.
  - intros Hne Hrun. unfold with_context, requires_command_success.
    destruct (str_split command) as [|a l] eqn:E; [congruence|].
    unfold bind, try_except, subprocess_check_call, ret. rewrite Hrun.
    destruct (region w) as [w' [[]|e]]; reflexivity.
Qed.

Lemma guard_outcomes_witness :
  with_context (requires_command_success three_commands (PyInt 3) None None)
    (modify tick) empty_world = (empty_world, Raise TypeError)
  /\ with_context
       (requires_command_success three_commands
          (PyStr "nonexistent-binary-xyz -v") None None)
       (modify tick) empty_world
     = (empty_world,
        Raise (RequiredCommandNotFound "nonexistent-binary-xyz -v"
                 ["nonexistent-binary-xyz"; "-v"] None))
  /\ with_context
       (requires_command_success three_commands (PyStr "false") None
          (Some "failed"))
       (modify tick) empty_world
     = (empty_world,
        Raise (RequiredCommandFailure "false" ["false"] (Some "failed")))
  /\ with_context
       (requires_command_success three_commands (PyStr "true") None None)
       (modify tick) empty_world
     = (tick empty_world, Ok tt).
Proof.
  pose proof (guard_outcomes three_commands "nonexistent-binary-xyz -v"
                None None (modify tick) empty_world) as (H1 & H2 & _ & _).
  pose proof (guard_outcomes three_commands "false" None (Some "failed")
                (modify tick) empty_world) as (_ & _ & H3 & _).
  pose proof (guard_outcomes three_commands "true" None None
                (modify tick) empty_world) as (_ & _ & _ & H4).
  split; [apply H1; intros s; discriminate|].
  split; [apply H2; [discriminate|reflexivity]|].
  split; [apply (H3 ltac:(discriminate) 1%Z); [discriminate|reflexivity]|].
  apply H4; [discriminate|reflexivity].
Defined.

(** ** Hashing *)

Lemma read_file_raises (w : world) (p : path) :
  readable w p = false ->
  exists e, read_file p w = (w, Raise e) /\ is_OSError e = true.
Proof.
  unfold readable, read_file.
  destruct (resolve MAXSYMLINKS w p) as [q|]; [|intros _; eauto].
  destruct (dents w !! q) as [[m|i]|]; [intros _; eauto| |intros _; eauto].
  destruct (inodes w !! i) as [[[c|t] m]|]; [discriminate| |]; intros _; eauto.
Qed.

(** The attribute "new" of hashlib is no hash algorithm; calling it
    without arguments raises TypeError before the file is looked at. *)
Remark hash_of_new (hexdigest_of : string -> string -> string) p w :
  calculate_hash hexdigest_of p "new" w = (w, Raise TypeError).
Proof. reflexivity. Qed.




(** ** Rewriting the content of a file *)

Lemma readlink_same_fs (w w' : world) (p : path) :
  dents w' = dents w -> inodes w' = inodes w -> readlink w' p = readlink w p.
Proof. unfold readlink. intros -> ->. reflexivity. Qed.

Lemma resolve_ext (w w' : world) :
  (forall p, readlink w' p = readlink w p) ->
  forall n p, resolve n w' p = resolve n w p.
Proof.
  intros H n. induction n as [|n IH]; intros p; simpl; rewrite H;
    destruct (readlink w p); auto.
Qed.

Lemma resolve_same_fs (w w' : world) n p :
  dents w' = dents w -> inodes w' = inodes w -> resolve n w' p = resolve n w p.
Proof. intros Hd Hi. apply resolve_ext. intros q. now apply readlink_same_fs. Qed.

(** What one application does, case by case. *)
Lemma search_and_replace_contents_cases pol file_path pat repl w :
  search_and_replace_contents pol file_path pat repl w =
  let w0 := add_call (CallSearchAndReplace file_path) w in
  match resolve MAXSYMLINKS w file_path with
  | None => (w0, Raise OSError)
  | Some q =>
      match dents w !! q with
      | None => (w0, Raise FileNotFoundError)
      | Some (EDir _) => (w0, Raise IsADirectoryError)
      | Some (ENode i) =>
          if may_open_rw pol q then
            match inodes w !! i with
            | Some (mkInode (Reg c) _) =>
                match decode pol c with
                | None => (w0, Ok tt)
                | Some text =>
                    if bool_decide (re_sub pat repl text ≠ text)
                    then (rewrite_inode i (encode pol (re_sub pat repl text))
                            w0, Ok tt)
                    else (w0, Ok tt)
                end
            | _ => (w0, Raise OSError)
            end
          else (add_log WARNING file_path w0, Ok tt)
      end
  end.
Proof.
  unfold search_and_replace_contents, bind, try_except, modify, open_rw.
  cbv zeta.
  rewrite (resolve_same_fs w (add_call (CallSearchAndReplace file_path) w))
    by reflexivity.
  destruct (resolve MAXSYMLINKS w file_path) as [q|]; [|reflexivity].
  cbn [dents add_call].
  destruct (dents w !! q) as [[m|i]|]; [reflexivity| |reflexivity].
  destruct (may_open_rw pol q); [|reflexivity].
  unfold f_read, ret. cbn [inodes add_call].
  destruct (inodes w !! i) as [[[c|t] m]|]; [|reflexivity|reflexivity].
  destruct (decode pol c) as [text|]; [|reflexivity].
  cbn. destruct (bool_decide (re_sub pat repl text ≠ text)); reflexivity.
Qed.

Lemma rewrite_inode_reg i c c0 m w :
  inodes w !! i = Some (mkInode (Reg c0) m) ->
  rewrite_inode i c w
  = tick (set_inodes
            (insert i (mkInode (Reg c)
                         (mkStat (st_uid m) (st_gid m) (st_mode m)
                                 (st_atime m) (clock w)))) w).
Proof. unfold rewrite_inode. intros ->. reflexivity. Qed.

(** Writing into a regular file moves no name and no link. *)
Lemma readlink_rewrite_inode i c c0 m w p :
  inodes w !! i = Some (mkInode (Reg c0) m) ->
  readlink (rewrite_inode i c w) p = readlink w p.
Proof.
  intros Hi. rewrite (rewrite_inode_reg _ _ _ _ _ Hi).
  unfold readlink. cbn [dents inodes tick set_inodes].
  destruct (dents w !! p) as [[?|j]|]; try reflexivity.
  destruct (decide (j = i)) as [->|Hne].
  - rewrite lookup_insert_eq, Hi. reflexivity.
  - rewrite lookup_insert_ne by congruence. reflexivity.
Qed.

(** C5, counterexample: on the file /f of content "a", with the pattern
    a and the replacement "aa", the first application writes "aa" and the
    second writes "aaaa": the second application is a write. *)
Lemma idempotence_as_stated_fails :
  ~ idempotence_as_stated permissive.
Proof.
  intros H. specialize (H ["f"] (literal "a") "aa" one_file).
  cbv zeta in H. apply (f_equal snd) in H. vm_compute in H. discriminate H.
Qed.

(** C5, amended: the file is written only if the substituted text
    differs from the text read; and when substituting the substituted
    text changes nothing more (and the text written is the text read
    back), a second application writes nothing: it leaves the content and
    the times of the file system as the first application left them. *)
Theorem search_and_replace_idempotent :
  forall pol file_path search_pattern replacement w,
    (forall text, text_of pol w file_path = Some text ->
       let replaced := re_sub search_pattern replacement text in
       re_sub search_pattern replacement replaced = replaced
       /\ decode pol (encode pol replaced) = Some replaced) ->
    let w1 := fst (search_and_replace_contents pol file_path search_pattern
                     replacement w) in
    let w2 := fst (search_and_replace_contents pol file_path search_pattern
                     replacement w1) in
    fs_of w2 = fs_of w1
    /\ (forall text, text_of pol w file_path = Some text ->
          re_sub search_pattern replacement text = text ->
          fs_of w1 = fs_of w).
Proof.
  intros pol file_path pat repl w Hfix w1 w2. subst w1 w2.
  rewrite (search_and_replace_contents_cases pol file_path pat repl w).
  cbv zeta. unfold text_of, file_content in *.
  destruct (resolve MAXSYMLINKS w file_path) as [q|] eqn:Hq.
  2:{ split; [|intros; discriminate].
      rewrite search_and_replace_contents_cases. cbv zeta.
      rewrite (resolve_same_fs w), Hq by reflexivity. reflexivity. }
  destruct (dents w !! q) as [[m|i]|] eqn:Hd.
  1,3: split; [|intros; discriminate];
       rewrite search_and_replace_contents_cases; cbv zeta;
       rewrite (resolve_same_fs w), Hq by reflexivity;
       cbn [fst dents add_call]; rewrite Hd; reflexivity.
  destruct (may_open_rw pol q) eqn:Hrw.
  2:{ split; [|reflexivity].
      rewrite search_and_replace_contents_cases. cbv zeta.
      rewrite (resolve_same_fs w), Hq by reflexivity.
      cbn [fst dents add_call add_log]. rewrite Hd, Hrw. reflexivity. }
  destruct (inodes w !! i) as [[[c|t] m]|] eqn:Hi.
  2,3: split; [|intros; discriminate];
       rewrite search_and_replace_contents_cases; cbv zeta;
       rewrite (resolve_same_fs w), Hq by reflexivity;
       cbn [fst dents inodes add_call]; rewrite Hd, Hrw, Hi; reflexivity.
  destruct (decode pol c) as [text|] eqn:Hdec.
  2:{ split; [|intros; discriminate].
      rewrite search_and_replace_contents_cases. cbv zeta.
      rewrite (resolve_same_fs w), Hq by reflexivity.
      cbn [fst dents inodes add_call]. rewrite Hd, Hrw, Hi, Hdec.
      reflexivity. }
  destruct (Hfix text eq_refl) as [Hsub Hcodec].
  destruct (bool_decide (re_sub pat repl text ≠ text)) eqn:Hne.
  - split.
    2:{ intros text' [= <-] Heq. apply bool_decide_eq_true in Hne.
        contradiction. }
    set (w0 := add_call (CallSearchAndReplace file_path) w).
    assert (Hi0 : inodes w0 !! i = Some (mkInode (Reg c) m)) by exact Hi.
    rewrite search_and_replace_contents_cases. cbv zeta. cbn [fst].
    rewrite (resolve_ext w0) by
      (intros p; eapply readlink_rewrite_inode; exact Hi0).
    rewrite (resolve_same_fs w w0), Hq by reflexivity.
    rewrite (rewrite_inode_reg _ _ _ _ _ Hi0).
    cbn [dents inodes tick set_inodes w0 add_call].
    rewrite Hd, Hrw, lookup_insert_eq, Hcodec, Hsub.
    rewrite bool_decide_eq_false_2 by (intros Hc; apply Hc; reflexivity).
    reflexivity.
  - split; [|reflexivity].
    rewrite search_and_replace_contents_cases. cbv zeta.
    rewrite (resolve_same_fs w), Hq by reflexivity.
    cbn [fst dents inodes add_call]. rewrite Hd, Hrw, Hi, Hdec, Hne.
    reflexivity.
Qed.

Lemma search_and_replace_idempotent_witness :
  let w1 := fst (search_and_replace_contents permissive ["f"] (literal "foo")
                   "bar" foo_file) in
  let w2 := fst (search_and_replace_contents permissive ["f"] (literal "foo")
                   "bar" w1) in
  file_content w1 ["f"] = Some "bar bar" /\ fs_of w2 = fs_of w1.
Proof.
  split; [vm_compute; reflexivity|].
  apply (search_and_replace_idempotent permissive ["f"] (literal "foo") "bar"
           foo_file).
  intros text H. vm_compute in H. injection H as <-.
  vm_compute. split; reflexivity.
Defined.

Lemma degrades_on_one_file pol file_path pat repl w :
  undecodable pol w file_path = true \/ write_denied pol w file_path = true ->
  exists w',
    search_and_replace_contents pol file_path pat repl w = (w', Ok tt)
    /\ fs_of w' = fs_of w
    /\ (write_denied pol w file_path = true ->
        logs w' = logs w ++ [(WARNING, file_path)]).
Proof.
  unfold undecodable, write_denied, opens_as.
  rewrite search_and_replace_contents_cases. cbv zeta.
  destruct (resolve MAXSYMLINKS w file_path) as [q|];
    [|intros [H|H]; discriminate H].
  destruct (dents w !! q) as [[m|i]|];
    [intros [H|H]; discriminate H| |intros [H|H]; discriminate H].
  destruct (inodes w !! i) as [[[c|t] m]|];
    [|intros [H|H]; discriminate H|intros [H|H]; discriminate H].
  destruct (may_open_rw pol q).
  - destruct (decode pol c); intros [H|H]; try discriminate H.
    eexists. split; [reflexivity|]. split; [reflexivity|]. discriminate.
  - intros _. eexists. split; [reflexivity|]. split; reflexivity.
Qed.

(** C6: a file whose bytes are no text is left untouched and the call
    returns normally; a file that may not be opened for writing is left
    untouched, a warning is logged and the call returns normally; so the
    loop over the files of a directory goes on with the files that follow
    such a file. *)
Theorem search_and_replace_degrades :
  forall pol file_pattern search_pattern replacement root file_name rest w,
    let file_path := join root file_name in
    undecodable pol w file_path = true \/ write_denied pol w file_path = true ->
    (exists w',
       search_and_replace_contents pol file_path search_pattern replacement w
       = (w', Ok tt)
       /\ fs_of w' = fs_of w
       /\ (write_denied pol w file_path = true ->
           logs w' = logs w ++ [(WARNING, file_path)]))
    /\ (exists w',
          fs_of w' = fs_of w
          /\ replace_in_files pol file_pattern search_pattern replacement root
               (file_name :: rest) w
             = replace_in_files pol file_pattern search_pattern replacement
                 root rest w').
Proof.
  intros pol fpat spat repl root file_name rest w file_path H.
  destruct (degrades_on_one_file pol file_path spat repl w H)
    as (w' & Hrun & Hfs & Hlog).
  split; [exists w'; auto|].
  unfold replace_in_files. cbn [for_each]. unfold bind at 1.
  destruct (re_match fpat file_name); [|exists w; split; reflexivity].
  unfold bind at 1, get at 1.
  destruct (islink w (join root file_name)); cbn [negb];
    [exists w; split; reflexivity|].
  fold file_path. rewrite Hrun. exists w'. split; [exact Hfs|reflexivity].
Qed.

Lemma search_and_replace_degrades_witness :
  (undecodable permissive mixed_tree ["t"; "a.bin"] = true
   \/ write_denied permissive mixed_tree ["t"; "a.bin"] = true)
  /\ (exists w',
        search_and_replace_contents permissive ["t"; "a.bin"] (literal "foo")
          "bar" mixed_tree = (w', Ok tt)
        /\ fs_of w' = fs_of mixed_tree
        /\ (write_denied permissive mixed_tree ["t"; "a.bin"] = true ->
            logs w' = logs mixed_tree ++ [(WARNING, ["t"; "a.bin"])]))
  /\ (exists w',
        fs_of w' = fs_of mixed_tree
        /\ replace_in_files permissive any_name (literal "foo") "bar"
             ["t"] ["a.bin"; "b.txt"] mixed_tree
           = replace_in_files permissive any_name (literal "foo") "bar"
               ["t"] ["b.txt"] w').
Proof.
  split; [left; vm_compute; reflexivity|].
  apply (search_and_replace_degrades permissive any_name (literal "foo")
           "bar" ["t"] "a.bin" ["b.txt"] mixed_tree).
  left. vm_compute. reflexivity.
Defined.

Lemma search_and_replace_denied_example :
  let p := ["t"; "b.txt"] in
  let '(w', r) := search_and_replace_contents (read_only p) p (literal "foo")
                    "bar" mixed_tree in
  r = Ok tt /\ file_content w' p = Some "foo" /\ logs w' = [(WARNING, p)].
Proof. vm_compute. repeat split; reflexivity. Qed.

(** ** Copying a tree *)

(** C2: when the source tree is not a directory, and when the
    destination exists and is not a directory, the call raises
    NotADirectoryError and the world is the world it was called in. *)
Theorem link_or_copy_tree_not_a_directory :
  forall pol fuel source_tree destination_tree copy_function w,
    (isdir w source_tree = false ->
     link_or_copy_tree pol fuel source_tree destination_tree copy_function w
     = (w, Raise NotADirectoryError))
    /\ (exists_ w destination_tree = true ->
        isdir w destination_tree = false ->
        link_or_copy_tree pol fuel source_tree destination_tree
          copy_function w
        = (w, Raise NotADirectoryError)).
Proof.
  intros pol fuel src dst copy w. unfold link_or_copy_tree, bind, get, raise.
  split.
  - intros ->. reflexivity.
  - intros He Hd. rewrite He, Hd. destruct (isdir w src); reflexivity.
Qed.

Lemma link_or_copy_tree_not_a_directory_witness :
  link_or_copy_tree permissive 8 ["x"] ["d"]
    (default_copy_function permissive) staging
  = (staging, Raise NotADirectoryError)
  /\ link_or_copy_tree permissive 8 ["s"] ["x"]
       (default_copy_function permissive) staging
     = (staging, Raise NotADirectoryError).
Proof.
  pose proof (link_or_copy_tree_not_a_directory permissive 8 ["x"] ["d"]
                (default_copy_function permissive) staging) as [H1 _].
  pose proof (link_or_copy_tree_not_a_directory permissive 8 ["s"] ["x"]
                (default_copy_function permissive) staging) as [_ H2].
  split; [apply H1|apply H2]; reflexivity.
Defined.

(** ** Invariants along loops and walks *)

Section Preserves.

Variable P : world -> Prop.

Lemma preserves_ret {A} (a : A) : preserves P (ret a).
Proof. intros w w' r HP [= <- _]. exact HP. Qed.

Lemma preserves_raise {A} (e : exn) : preserves P (@raise A e).
Proof. intros w w' r HP [= <- _]. exact HP. Qed.

Lemma preserves_get : preserves P get.
Proof. intros w w' r HP [= <- _]. exact HP. Qed.

Lemma preserves_modify (f : world -> world) :
  (forall w, P w -> P (f w)) -> preserves P (modify f).
Proof. intros Hf w w' r HP [= <- _]. auto. Qed.

Lemma preserves_bind {A B} (m : M A) (k : A -> M B) :
  preserves P m -> (forall a, preserves P (k a)) -> preserves P (bind m k).
Proof.
  intros Hm Hk w w' r HP. unfold bind.
  destruct (m w) as [w1 [a|e]] eqn:E.
  - intros H. exact (Hk a w1 w' r (Hm _ _ _ HP E) H).
  - intros [= <- _]. exact (Hm _ _ _ HP E).
Qed.

Lemma preserves_try_except {A} (m : M A) handles (h : exn -> M A) :
  preserves P m -> (forall e, preserves P (h e)) ->
  preserves P (try_except m handles h).
Proof.
  intros Hm Hh w w' r HP. unfold try_except.
  destruct (m w) as [w1 [a|e]] eqn:E.
  - intros [= <- _]. exact (Hm _ _ _ HP E).
  - destruct (handles e).
    + intros H. exact (Hh e w1 w' r (Hm _ _ _ HP E) H).
    + intros [= <- _]. exact (Hm _ _ _ HP E).
Qed.

Lemma preserves_for_each {A} (l : list A) (body : A -> M unit) :
  (forall x, preserves P (body x)) -> preserves P (for_each l body).
Proof.
  intros Hb. induction l as [|x l IH]; cbn [for_each].
  - apply preserves_ret.
  - apply preserves_bind; auto.
Qed.

Lemma preserves_descend (walk : path -> M unit) top d :
  (forall p, preserves P (walk p)) -> preserves P (descend walk top d).
Proof.
  intros Hw w w' r HP. unfold descend, bind, get.
  destruct (islink w (join top d)).
  - intros [= <- _]. exact HP.
  - apply Hw. exact HP.
Qed.

Lemma preserves_os_walk fuel top body :
  (forall root dirs files, preserves P (body root dirs files)) ->
  preserves P (os_walk fuel top body).
Proof.
  intros Hb. revert top. induction fuel as [|fuel IH]; intros top.
  - apply preserves_raise.
  - cbn [os_walk]. intros w w' r HP. unfold bind at 1, get at 1.
    destruct (scandir w top) as [[dirs nondirs]|].
    + apply preserves_bind; [apply Hb| |exact HP].
      intros _. apply preserves_for_each. intros d.
      apply preserves_descend. exact IH.
    + intros [= <- _]. exact HP.
Qed.

End Preserves.

(** ** Rewriting the files of a tree *)

Lemma search_and_replace_contents_effect pol file_path pat repl w w' r :
  search_and_replace_contents pol file_path pat repl w = (w', r) ->
  (forall p, readlink w' p = readlink w p)
  /\ calls w' = calls w ++ [CallSearchAndReplace file_path].
Proof.
  rewrite search_and_replace_contents_cases. cbv zeta.
  set (w0 := add_call (CallSearchAndReplace file_path) w).
  assert (H0 : (forall p, readlink w0 p = readlink w p)
               /\ calls w0 = calls w ++ [CallSearchAndReplace file_path])
    by (split; reflexivity).
  destruct (resolve MAXSYMLINKS w file_path) as [q|];
    [|intros [= <- _]; exact H0].
  destruct (dents w !! q) as [[m|i]|]; try (intros [= <- _]; exact H0).
  destruct (may_open_rw pol q); [|intros [= <- _]; exact H0].
  destruct (inodes w !! i) as [[[c|t] m]|] eqn:Hi;
    try (intros [= <- _]; exact H0).
  destruct (decode pol c) as [text|]; [|intros [= <- _]; exact H0].
  destruct (bool_decide _); intros [= <- _]; [|exact H0].
  split.
  - intros p. erewrite readlink_rewrite_inode by exact Hi. reflexivity.
  - erewrite rewrite_inode_reg by exact Hi. reflexivity.
Qed.

(** C7: the pass over a tree never invokes search_and_replace_contents on
    a name that is a symbolic link: whatever the outcome of the pass, an
    invocation recorded for a link was recorded before the pass. *)
Theorem replace_in_file_skips_links :
  forall pol fuel directory file_pattern search_pattern replacement w w' r,
    replace_in_file pol fuel directory file_pattern search_pattern
      replacement w = (w', r) ->
    forall p, islink w p = true ->
      In (CallSearchAndReplace p) (calls w') ->
      In (CallSearchAndReplace p) (calls w).
Proof.
  intros pol fuel directory fpat spat repl w w' r Hrun.
  set (Inv := fun v : world =>
         (forall p, readlink v p = readlink w p)
         /\ (forall p, islink w p = true ->
               In (CallSearchAndReplace p) (calls v) ->
               In (CallSearchAndReplace p) (calls w))).
  assert (HI : Inv w') ; [|exact (proj2 HI)].
  eapply (preserves_os_walk Inv); [|split; [reflexivity|auto]|exact Hrun].
  intros root dirs files. apply preserves_for_each. intros file_name.
  intros v v' r' [Hl Hc]. destruct (re_match fpat file_name);
    [|intros [= <- _]; split; assumption].
  unfold bind, get.
  destruct (islink v (join root file_name)) eqn:Hlink; cbn [negb];
    [intros [= <- _]; split; assumption|].
  intros Hsar. apply search_and_replace_contents_effect in Hsar as [Hl' Hc'].
  split.
  - intros p. rewrite Hl'. apply Hl.
  - intros p Hp. rewrite Hc'. intros [Hin|[Heq|[]]]%in_app_or; [auto|].
    injection Heq as <-. unfold islink in Hlink, Hp.
    rewrite Hl in Hlink. rewrite Hlink in Hp. discriminate Hp.
Qed.

Lemma replace_in_file_skips_links_witness :
  islink mixed_tree ["t"; "c.txt"] = true
  /\ snd (replace_in_file permissive 8 ["t"] any_name (literal "foo")
            "bar" mixed_tree) = Ok tt
  /\ ~ In (CallSearchAndReplace ["t"; "c.txt"])
          (calls (fst (replace_in_file permissive 8 ["t"] any_name
                         (literal "foo") "bar" mixed_tree))).
Proof.
  split; [reflexivity|]. split; [vm_compute; reflexivity|].
  intros Hin.
  apply (replace_in_file_skips_links permissive 8 ["t"] any_name
           (literal "foo") "bar" mixed_tree _ _ (surjective_pairing _)
           ["t"; "c.txt"] eq_refl) in Hin.
  exact Hin.
Defined.

Lemma for_each_app {A} (l1 l2 : list A) (body : A -> M unit) (w : world) :
  for_each (l1 ++ l2) body w = (for_each l1 body ;;; for_each l2 body) w.
Proof.
  revert w. induction l1 as [|x l1 IH]; intros w; cbn [for_each app].
  - reflexivity.
  - unfold bind. destruct (body x w) as [w1 [[]|e]]; [|reflexivity].
    rewrite IH. reflexivity.
Qed.


(** ** Paths and listings *)

Lemma relpath_app (start r : path) : relpath (start ++ r) start = r.
Proof.
  induction start as [|x start IH]; cbn [relpath app].
  - destruct r; reflexivity.
  - rewrite String.eqb_refl. exact IH.
Qed.

Lemma dirname_join (p : path) (n : string) : dirname (join p n) = p.
Proof. unfold dirname, join. apply removelast_last. Qed.

Lemma basename_join (p : path) (n : string) : basename (join p n) = n.
Proof. unfold basename, join. apply last_last. Qed.

Lemma join_dirname_basename (q : path) :
  q <> [] -> q = join (dirname q) (basename q).
Proof. intros H. unfold join, dirname, basename. now apply app_removelast_last. Qed.

Lemma children_lexists (w : world) (top : path) (n : string) :
  n ∈ children w top -> lexists w (join top n) = true.
Proof.
  unfold children. intros (q & Hq & Hf)%list_elem_of_omap.
  destruct (bool_decide_reflect (q ≠ [] ∧ dirname q = top)) as [[Hne Hd]|];
    [|discriminate].
  injection Hf as <-. subst top.
  rewrite <- (join_dirname_basename q Hne).
  apply list_elem_of_fmap in Hq as ([q' e] & -> & He).
  apply elem_of_map_to_list in He. unfold lexists. cbn [fst].
  rewrite He. reflexivity.
Qed.

Lemma scandir_Some (w : world) (top : path) dirs nondirs :
  scandir w top = Some (dirs, nondirs) ->
  isdir w top = true
  /\ Forall (fun n => lexists w (join top n) = true
                      /\ isdir w (join top n) = true) dirs
  /\ Forall (fun n => lexists w (join top n) = true
                      /\ isdir w (join top n) = false) nondirs.
Proof.
  unfold scandir. destruct (isdir w top); [|discriminate].
  intros [= <- <-]. split; [reflexivity|].
  split; apply List.Forall_forall; intros n Hn;
    apply list_elem_of_In, list_elem_of_filter in Hn as [Hn Hc];
    (split; [now apply children_lexists|exact Hn]).
Qed.

(** An invariant along a walk, when the body may rely on what the walk
    knows of the directory it is in ([G]) and of the names it lists
    ([Ld], [Lf]). *)
Lemma os_walk_invariant (Inv : world -> Prop) (G : path -> Prop)
  (Ld Lf : path -> string -> Prop)
  (body : path -> list string -> list string -> M unit) :
  (forall root dirs files,
     G root -> Forall (Ld root) dirs -> Forall (Lf root) files ->
     preserves Inv (body root dirs files)) ->
  (forall top d cur,
     G top -> Inv cur -> islink cur (join top d) = false ->
     isdir cur (join top d) = true -> G (join top d)) ->
  (forall cur root n,
     G root -> Inv cur -> lexists cur (join root n) = true ->
     isdir cur (join root n) = true -> Ld root n) ->
  (forall cur root n,
     G root -> Inv cur -> lexists cur (join root n) = true ->
     isdir cur (join root n) = false -> Lf root n) ->
  forall fuel top w w' r,
    Inv w -> (isdir w top = true -> G top) ->
    os_walk fuel top body w = (w', r) -> Inv w'.
Proof.
  intros Hbody Hdesc Hd Hf fuel.
  induction fuel as [|fuel IH]; intros top w w' r HI HG.
  - intros [= <- _]. exact HI.
  - cbn [os_walk]. unfold bind at 1, get at 1.
    destruct (scandir w top) as [[dirs nondirs]|] eqn:Hscan;
      [|intros [= <- _]; exact HI].
    apply scandir_Some in Hscan as (Htop & Hdirs & Hnondirs).
    specialize (HG Htop).
    apply (preserves_bind Inv); [| |exact HI].
    + apply Hbody; [exact HG| |].
      * eapply Forall_impl; [exact Hdirs|]. intros n [? ?]. eapply Hd; eauto.
      * eapply Forall_impl; [exact Hnondirs|]. intros n [? ?]. eapply Hf; eauto.
    + intros _. apply preserves_for_each. intros d cur cur' r' HIc.
      unfold descend, bind, get.
      destruct (islink cur (join top d)) eqn:Hl; [intros [= <- _]; exact HIc|].
      apply IH; [exact HIc|]. intros Hdir. eapply Hdesc; eauto.
Qed.

(** ** The tree copy is a merge *)

Section Merge.

Variables (pol : policy) (src dst : path) (w0 : world) (rel0 : path).

Hypothesis Hsd : ~ src `prefix_of` dst.
Hypothesis Hds : ~ dst `prefix_of` src.
Hypothesis Hnodir : forall rel,
  is_node_entry (dents w0 !! (src ++ rel)) = true ->
  is_dir_entry (dents w0 !! (dst ++ rel)) = false.
Hypothesis Hprot_src : dents w0 !! (src ++ rel0) = None.
Hypothesis Hprot_dst : is_node_entry (dents w0 !! (dst ++ rel0)) = true.

Local Abbreviation Inv := (merge_invariant src dst w0 rel0).
Local Abbreviation side := (may_mkdir src dst w0).

Lemma outside_source (r q : path) :
  q `prefix_of` dst ++ r -> ~ src `prefix_of` q.
Proof using Hsd Hds.
  intros Hq Hs.
  assert (H1 : src `prefix_of` dst ++ r) by (etrans; eassumption).
  assert (H2 : dst `prefix_of` dst ++ r) by (by apply prefix_app_r).
  destruct (prefix_weak_total _ _ _ H1 H2); contradiction.
Qed.

Lemma Inv_same_fs (cur cur' : world) :
  dents cur' = dents cur -> inodes cur' = inodes cur -> Inv cur -> Inv cur'.
Proof.
  intros Hd Hi [H1 H2 H3 H4 H5].
  split; unfold no_dangling; rewrite ?Hd, ?Hi; assumption.
Qed.

Lemma Inv_protected_present (cur : world) :
  Inv cur -> exists i, dents cur !! (dst ++ rel0) = Some (ENode i).
Proof using Hprot_dst.
  intros H. rewrite (inv_prot _ _ _ _ _ H).
  destruct (dents w0 !! (dst ++ rel0)) as [[?|i]|]; try discriminate; eauto.
Qed.

(** A new directory. *)
Lemma Inv_insert_dir (cur : world) (q : path) (m : stat_result) :
  Inv cur -> dents cur !! q = None -> side q ->
  Inv (set_dents (insert q (EDir m)) cur).
Proof using Hprot_dst.
  intros HI Hq [Hout Hrel]. pose proof (Inv_protected_present cur HI) as Hp.
  destruct HI as [H1 H2 H3 H4 H5]. split; unfold no_dangling; cbn [dents inodes set_dents].
  - intros q' Hq'. rewrite lookup_insert_ne by (intros ->; contradiction).
    auto.
  - intros rel Hne. destruct (decide (q = dst ++ rel)) as [->|Hn].
    + intros _. right. apply Hrel; auto.
    + rewrite lookup_insert_ne by exact Hn. auto.
  - rewrite lookup_insert_ne; [exact H3|].
    intros ->. rewrite Hq in Hp. destruct Hp as [? [=]].
  - exact H4.
  - intros p i. destruct (decide (q = p)) as [->|Hn].
    + rewrite lookup_insert_eq. discriminate.
    + rewrite lookup_insert_ne by exact Hn. apply H5.
Qed.

(** A new name for an inode that is there. *)
Lemma Inv_insert_node (cur : world) (d : path) (i : nat) :
  Inv cur -> dents cur !! d = None -> ~ src `prefix_of` d ->
  is_Some (inodes cur !! i) ->
  Inv (set_dents (insert d (ENode i)) cur).
Proof using Hprot_dst.
  intros HI Hd Hout Hi. pose proof (Inv_protected_present cur HI) as Hp.
  destruct HI as [H1 H2 H3 H4 H5]. split; unfold no_dangling; cbn [dents inodes set_dents].
  - intros q' Hq'. rewrite lookup_insert_ne by (intros ->; contradiction).
    auto.
  - intros rel Hne. destruct (decide (d = dst ++ rel)) as [->|Hn].
    + rewrite lookup_insert_eq. discriminate.
    + rewrite lookup_insert_ne by exact Hn. auto.
  - rewrite lookup_insert_ne; [exact H3|].
    intros ->. rewrite Hd in Hp. destruct Hp as [? [=]].
  - exact H4.
  - intros p j. destruct (decide (d = p)) as [->|Hn].
    + rewrite lookup_insert_eq. intros [= <-]. exact Hi.
    + rewrite lookup_insert_ne by exact Hn. apply H5.
Qed.

(** A name removed. *)
Lemma Inv_delete (cur : world) (d : path) :
  Inv cur -> ~ src `prefix_of` d -> d <> dst ++ rel0 ->
  Inv (set_dents (delete d) cur).
Proof.
  intros [H1 H2 H3 H4 H5] Hout Hne. split; unfold no_dangling; cbn [dents inodes set_dents].
  - intros q' Hq'. rewrite lookup_delete_ne by (intros ->; contradiction).
    auto.
  - intros rel Hrel. destruct (decide (d = dst ++ rel)) as [->|Hn].
    + rewrite lookup_delete_eq. discriminate.
    + rewrite lookup_delete_ne by exact Hn. auto.
  - rewrite lookup_delete_ne by exact Hne. exact H3.
  - exact H4.
  - intros p j. destruct (decide (d = p)) as [->|Hn].
    + rewrite lookup_delete_eq. discriminate.
    + rewrite lookup_delete_ne by exact Hn. apply H5.
Qed.

(** A new inode. *)
Lemma Inv_insert_inode (cur : world) (n : inode) :
  Inv cur -> Inv (set_inodes (insert (fresh_ino cur) n) cur).
Proof.
  intros [H1 H2 H3 H4 H5]. split; unfold no_dangling; cbn [dents inodes set_inodes]; auto.
  - intros i n0 Hi. destruct (H4 i n0 Hi) as (n' & Hn' & Hb).
    exists n'. split; [|exact Hb].
    rewrite lookup_insert_ne; [exact Hn'|].
    intros <-. unfold fresh_ino in Hn'.
    apply (is_fresh (dom (inodes cur))). apply elem_of_dom. eauto.
  - intros p j Hp. apply lookup_insert_is_Some'. right. eapply H5; eauto.
Qed.

(** Metadata changed. *)
Lemma Inv_update_meta (f : stat_result -> stat_result) (q : path)
  (cur cur' : world) :
  update_meta f q cur = Some cur' -> Inv cur -> Inv cur'.
Proof using Hprot_dst.
  unfold update_meta. intros Hu HI.
  pose proof (Inv_protected_present cur HI) as [ip Hp].
  destruct HI as [H1 H2 H3 H4 H5].
  destruct (dents cur !! q) as [[m|i]|] eqn:Hq; [| |discriminate].
  - injection Hu as <-.
    split; unfold no_dangling; cbn [dents inodes set_dents]; auto.
    + intros q' Hq'. rewrite <- H1 by exact Hq'.
      destruct (decide (q = q')) as [->|Hn].
      * rewrite lookup_insert_eq, Hq. reflexivity.
      * rewrite lookup_insert_ne by exact Hn. reflexivity.
    + intros rel Hne. destruct (decide (q = dst ++ rel)) as [->|Hn].
      * intros _. apply H2; [exact Hne|]. rewrite Hq. reflexivity.
      * rewrite lookup_insert_ne by exact Hn. auto.
    + rewrite lookup_insert_ne; [exact H3|]. intros ->. congruence.
    + intros p j. destruct (decide (q = p)) as [->|Hn].
      * rewrite lookup_insert_eq. discriminate.
      * rewrite lookup_insert_ne by exact Hn. apply H5.
  - destruct (inodes cur !! i) as [[b m]|] eqn:Hi; [|discriminate].
    injection Hu as <-.
    split; unfold no_dangling; cbn [dents inodes set_inodes]; auto.
    + intros j n Hj. destruct (H4 j n Hj) as (n' & Hn' & Hb).
      destruct (decide (i = j)) as [->|Hn].
      * rewrite lookup_insert_eq. eexists. split; [reflexivity|].
        rewrite Hi in Hn'. injection Hn' as <-. exact Hb.
      * rewrite lookup_insert_ne by exact Hn. eauto.
    + intros p j Hj. apply lookup_insert_is_Some'. right. eapply H5; eauto.
Qed.

Lemma Inv_tick (cur : world) : Inv cur -> Inv (tick cur).
Proof. apply Inv_same_fs; reflexivity. Qed.

Lemma Inv_add_call (c : call) (cur : world) : Inv cur -> Inv (add_call c cur).
Proof. apply Inv_same_fs; reflexivity. Qed.

Lemma Inv_add_log (l : level) (p : path) (cur : world) :
  Inv cur -> Inv (add_log l p cur).
Proof. apply Inv_same_fs; reflexivity. Qed.

Lemma os_stat_state (p : path) (follow : bool) (w w' : world) r :
  os_stat p follow w = (w', r) -> w' = w.
Proof.
  unfold os_stat. destruct (target_of follow w p) as [q|]; [|congruence].
  destruct (dents w !! q ≫= meta_of w); congruence.
Qed.

Lemma os_stat_Inv (p : path) (follow : bool) :
  preserves Inv (os_stat p follow).
Proof. intros w w' r HI H. apply os_stat_state in H as ->. exact HI. Qed.

Lemma os_mkdir_Inv (q : path) : side q -> preserves Inv (os_mkdir pol q).
Proof using Hprot_dst.
  intros Hside w w' r HI. unfold os_mkdir.
  destruct (dents w !! q) eqn:Hq; [intros [= <- _]; exact HI|].
  destruct (parent_error w q); intros [= <- _]; [exact HI|].
  apply Inv_tick, Inv_insert_dir; assumption.
Qed.

Lemma makedirs_rev_Inv (rname : list string) :
  (forall q, q `prefix_of` rev rname -> side q) ->
  preserves Inv (makedirs_rev pol rname).
Proof using Hprot_dst.
  induction rname as [|a rhead IH]; intros Hside; cbn [makedirs_rev].
  - apply preserves_bind; [apply preserves_ret|]. intros _.
    apply preserves_try_except; [apply os_mkdir_Inv, Hside; reflexivity|].
    intros e. apply preserves_bind; [apply preserves_get|]. intros w.
    destruct (isdir w _); [apply preserves_ret|apply preserves_raise].
  - apply preserves_bind.
    + apply preserves_bind; [apply preserves_get|]. intros w.
      destruct (exists_ w (rev rhead)); [apply preserves_ret|].
      apply preserves_try_except; [|intros; apply preserves_ret].
      apply IH. intros q Hq. apply Hside. cbn [rev].
      by apply prefix_app_r.
    + intros _.
      apply preserves_try_except; [apply os_mkdir_Inv, Hside; reflexivity|].
      intros e. apply preserves_bind; [apply preserves_get|]. intros w.
      destruct (isdir w _); [apply preserves_ret|apply preserves_raise].
Qed.

Lemma os_makedirs_Inv (name : path) :
  (forall q, q `prefix_of` name -> side q) ->
  preserves Inv (os_makedirs pol name).
Proof using Hprot_dst.
  intros H. apply makedirs_rev_Inv. rewrite rev_involutive. exact H.
Qed.

Lemma os_chown_Inv (p : path) (uid gid : nat) (follow : bool) :
  preserves Inv (os_chown pol p uid gid follow).
Proof using Hprot_dst.
  intros w w' r HI. unfold os_chown.
  destruct (target_of follow w p) as [q|]; [|intros [= <- _]; exact HI].
  destruct (dents w !! q); [|intros [= <- _]; exact HI].
  destruct (may_chown pol q); [|intros [= <- _]; exact HI].
  destruct (update_meta _ q w) as [w1|] eqn:Hu; intros [= <- _];
    [eapply Inv_update_meta; eassumption|exact HI].
Qed.

Lemma shutil_copystat_Inv (s d : path) (follow : bool) :
  preserves Inv (shutil_copystat s d follow).
Proof using Hprot_dst.
  unfold shutil_copystat.
  apply preserves_bind; [apply preserves_get|]. intros w.
  apply preserves_bind; [apply os_stat_Inv|]. intros st.
  intros cur cur' r HI.
  destruct (target_of _ cur d) as [q|]; [|intros [= <- _]; exact HI].
  destruct (update_meta _ q cur) as [w1|] eqn:Hu; intros [= <- _];
    [eapply Inv_update_meta; eassumption|exact HI].
Qed.

Lemma chown_best_effort_Inv (d : path) (uid gid : nat) (follow : bool) :
  preserves Inv
    (try_except (os_chown pol d uid gid follow) is_PermissionError
       (fun _ => modify (add_log DEBUG d))).
Proof using Hprot_dst.
  apply preserves_try_except; [apply os_chown_Inv|].
  intros _. apply preserves_modify. intros w. apply Inv_add_log.
Qed.

Lemma create_similar_directory_Inv (s d : path) (follow : bool) :
  (forall q, q `prefix_of` d -> side q) ->
  preserves Inv (create_similar_directory pol s d follow).
Proof using Hprot_dst.
  intros Hside. unfold create_similar_directory.
  apply preserves_bind;
    [apply preserves_modify; intros w; apply Inv_add_call|]. intros _.
  apply preserves_bind; [apply os_stat_Inv|]. intros st.
  apply preserves_bind; [apply os_makedirs_Inv, Hside|]. intros _.
  apply preserves_bind; [apply chown_best_effort_Inv|]. intros _.
  apply shutil_copystat_Inv.
Qed.

Lemma resolve_no_link (n : nat) (w : world) (p : path) :
  readlink w p = None -> resolve n w p = Some p.
Proof. intros H. destruct n; cbn [resolve]; rewrite H; reflexivity. Qed.

Lemma readlink_absent (w : world) (p : path) :
  dents w !! p = None -> readlink w p = None.
Proof. unfold readlink. intros ->. reflexivity. Qed.

Lemma isdir_absent (w : world) (p : path) :
  dents w !! p = None -> isdir w p = false.
Proof.
  intros H. unfold isdir, stat_entry.
  rewrite resolve_no_link by (now apply readlink_absent). rewrite H.
  reflexivity.
Qed.

Lemma read_file_state (p : path) (w w' : world) r :
  read_file p w = (w', r) -> w' = w.
Proof.
  unfold read_file. destruct (resolve MAXSYMLINKS w p) as [q|]; [|congruence].
  destruct (dents w !! q) as [[m|i]|]; try congruence.
  destruct (inodes w !! i) as [[[c|t] m]|]; congruence.
Qed.

Lemma os_link_Inv (a d : path) :
  ~ src `prefix_of` d -> preserves Inv (os_link pol a d).
Proof using Hprot_dst.
  intros Hout w w' r HI. unfold os_link.
  destruct (dents w !! a) as [[m|i]|] eqn:Ha; try (intros [= <- _]; exact HI).
  destruct (dents w !! d) eqn:Hd; [intros [= <- _]; exact HI|].
  destruct (parent_error w d); [intros [= <- _]; exact HI|].
  destruct (may_link pol a d); intros [= <- _]; [|exact HI].
  apply Inv_insert_node; auto.
  eapply inv_nodangling; eassumption.
Qed.

Lemma create_node_Inv (q : path) (b : inode_body) (w w' : world) r :
  Inv w -> dents w !! q = None -> ~ src `prefix_of` q ->
  create_node pol q b w = (w', r) -> Inv w'.
Proof using Hprot_dst.
  intros HI Hq Hout. unfold create_node.
  destruct (parent_error w q); intros [= <- _]; [exact HI|].
  apply Inv_tick, Inv_insert_node; [apply Inv_insert_inode, HI|exact Hq
                                   |exact Hout|].
  cbn [inodes set_inodes]. rewrite lookup_insert_eq. eauto.
Qed.

Lemma os_symlink_Inv (t d : path) :
  ~ src `prefix_of` d -> preserves Inv (os_symlink pol t d).
Proof using Hprot_dst.
  intros Hout w w' r HI. unfold os_symlink.
  destruct (dents w !! d) eqn:Hd; [intros [= <- _]; exact HI|].
  eapply create_node_Inv; eassumption.
Qed.

Lemma write_file_new_Inv (d : path) (c : string) (w w' : world) r :
  Inv w -> dents w !! d = None -> ~ src `prefix_of` d ->
  write_file pol d c w = (w', r) -> Inv w'.
Proof using Hprot_dst.
  intros HI Hd Hout. unfold write_file.
  rewrite resolve_no_link by (now apply readlink_absent). rewrite Hd.
  eapply create_node_Inv; eassumption.
Qed.

Lemma shutil_copyfile_new_Inv (s d : path) (follow : bool) (w w' : world) r :
  Inv w -> dents w !! d = None -> ~ src `prefix_of` d ->
  shutil_copyfile pol s d follow w = (w', r) -> Inv w'.
Proof using Hprot_dst.
  intros HI Hd Hout. unfold shutil_copyfile, bind at 1, get at 1.
  destruct (samefile w s d); [intros [= <- _]; exact HI|].
  destruct (negb follow && islink w s).
  - destruct (readlink w s) as [t|]; [|intros [= <- _]; exact HI].
    apply os_symlink_Inv; assumption.
  - unfold bind. destruct (read_file s w) as [w1 [c|e]] eqn:Hr;
      apply read_file_state in Hr as ->; [|intros [= <- _]; exact HI].
    eapply write_file_new_Inv; eassumption.
Qed.

Lemma shutil_copy2_new_Inv (s d : path) (follow : bool) (w w' : world) r :
  Inv w -> dents w !! d = None -> ~ src `prefix_of` d ->
  shutil_copy2 pol s d follow w = (w', r) -> Inv w'.
Proof using Hprot_dst.
  intros HI Hd Hout. unfold shutil_copy2, bind at 1, get at 1.
  rewrite (isdir_absent w d Hd). unfold bind.
  destruct (shutil_copyfile pol s d follow w) as [w1 [[]|e]] eqn:Hc.
  - apply shutil_copystat_Inv. eapply shutil_copyfile_new_Inv; eassumption.
  - intros [= <- _]. eapply shutil_copyfile_new_Inv; eassumption.
Qed.

(** Under the invariant, the destination of a source file is no
    directory. *)
Lemma destination_not_dir (cur : world) (r : path) :
  Inv cur -> r <> [] ->
  is_node_entry (dents w0 !! (src ++ r)) = true ->
  is_dir_entry (dents cur !! (dst ++ r)) = false.
Proof using Hnodir.
  intros HI Hne Hnode.
  destruct (is_dir_entry (dents cur !! (dst ++ r))) eqn:E; [|reflexivity].
  destruct (inv_dirs _ _ _ _ _ HI r Hne E) as [H|H].
  - rewrite (Hnodir r Hnode) in H. discriminate.
  - congruence.
Qed.

Lemma link_or_copy_Inv (s : path) (r : path) :
  r <> [] ->
  is_node_entry (dents w0 !! (src ++ r)) = true ->
  (forall q, q `prefix_of` dirname (dst ++ r) -> side q) ->
  preserves Inv (link_or_copy pol s (dst ++ r) false).
Proof using Hsd Hds Hnodir Hprot_src Hprot_dst.
  intros Hne Hnode Hside.
  assert (Hout : ~ src `prefix_of` dst ++ r)
    by (eapply outside_source; reflexivity).
  assert (Hp : dst ++ r <> dst ++ rel0).
  { intros ->%app_inv_head. rewrite Hprot_src in Hnode. discriminate. }
  unfold link_or_copy. apply preserves_try_except.
  - apply preserves_bind; [apply preserves_get|]. intros w.
    apply preserves_bind; [|intros _; apply os_link_Inv, Hout].
    destruct (negb (exists_ w (dirname (dst ++ r)))); [|apply preserves_ret].
    apply create_similar_directory_Inv, Hside.
  - intros _ cur cur' res HI. unfold bind at 1.
    destruct (try_except (os_unlink (dst ++ r)) is_OSError (fun _ => ret tt)
                cur) as [cur1 [[]|e]] eqn:Hu.
    + assert (HI1 : Inv cur1 /\ dents cur1 !! (dst ++ r) = None).
      { revert Hu. unfold try_except, os_unlink.
        pose proof (destination_not_dir cur r HI Hne Hnode) as Hnd.
        destruct (dents cur !! (dst ++ r)) as [[m|i]|] eqn:Hd;
          cbn [is_OSError ret]; intros [= <-].
        - discriminate Hnd.
        - split; [apply Inv_delete; assumption|].
          cbn [dents set_dents]. apply lookup_delete_eq.
        - split; assumption. }
      destruct HI1 as [HI1 Hd1]. unfold bind at 1.
      destruct (shutil_copy2 pol s (dst ++ r) false cur1) as [cur2 [[]|e]]
        eqn:Hc; [|intros [= <- _]; eapply shutil_copy2_new_Inv; eassumption].
      assert (HI2 : Inv cur2) by (eapply shutil_copy2_new_Inv; eassumption).
      intros Hrest.
      eapply (preserves_bind Inv (os_stat s false));
        [apply os_stat_Inv| |exact HI2|exact Hrest].
      intros st1.
      apply preserves_bind; [apply os_stat_Inv|]. intros st2.
      apply chown_best_effort_Inv.
    + revert Hu. unfold try_except, os_unlink.
      destruct (dents cur !! (dst ++ r)) as [[m|i]|]; cbn [is_OSError ret];
        discriminate.
Qed.

Hypothesis Hnd0 : no_dangling w0.

Lemma Inv_initial : Inv w0.
Proof using Hnd0.
  split; auto. intros i n Hi. eauto.
Qed.

Lemma prefix_snoc_inv (rel r : path) (n : string) :
  rel `prefix_of` r ++ [n] -> rel `prefix_of` r \/ rel = r ++ [n].
Proof.
  intros [k Hk]. destruct (decide (k = [])) as [->|Hne].
  - right. rewrite app_nil_r in Hk. congruence.
  - left. destruct (exists_last Hne) as (k' & x & ->).
    rewrite app_assoc in Hk. apply app_inj_tail in Hk as [-> _].
    by apply prefix_app_r.
Qed.

Lemma known_dirs_nil : known_dirs src w0 [].
Proof. intros rel Hne ->%prefix_nil_inv. contradiction. Qed.

Lemma known_dirs_snoc (r : path) (n : string) :
  known_dirs src w0 r ->
  is_dir_entry (dents w0 !! (src ++ r ++ [n])) = true ->
  known_dirs src w0 (r ++ [n]).
Proof.
  intros Hk Hd rel Hne [H| ->]%prefix_snoc_inv; [apply Hk; assumption|exact Hd].
Qed.

Lemma dir_not_node (e : option dentry) :
  is_dir_entry e = true -> is_node_entry e = false.
Proof. destruct e as [[|]|]; cbn; congruence. Qed.

Lemma side_of_known (r q : path) :
  known_dirs src w0 r -> q `prefix_of` dst ++ r -> side q.
Proof using Hsd Hds.
  intros Hk Hq. split; [eapply outside_source; eassumption|].
  intros rel Hne ->. apply prefix_app_inv in Hq.
  apply dir_not_node, Hk; assumption.
Qed.

Lemma shape_dir (e e' : option dentry) :
  shape e = shape e' -> is_dir_entry e = is_dir_entry e'.
Proof. destruct e as [[|]|], e' as [[|]|]; cbn; congruence. Qed.

Lemma shape_node (e e' : option dentry) (i : nat) :
  shape e = shape e' -> e = Some (ENode i) -> e' = Some (ENode i).
Proof. destruct e as [[|]|], e' as [[|]|]; cbn; congruence. Qed.

Lemma isdir_no_link (w : world) (p : path) :
  readlink w p = None -> isdir w p = is_dir_entry (dents w !! p).
Proof.
  intros H. unfold isdir, stat_entry. rewrite resolve_no_link by exact H.
  reflexivity.
Qed.

Lemma islink_inv (w : world) (p : path) :
  islink w p = true ->
  exists i t m, dents w !! p = Some (ENode i)
                /\ inodes w !! i = Some (mkInode (Lnk t) m).
Proof.
  unfold islink, readlink.
  destruct (dents w !! p) as [[m|i]|]; try discriminate.
  destruct (inodes w !! i) as [[[c|t] m]|] eqn:Hi; try discriminate.
  intros _. exists i, t, m. split; [reflexivity|exact Hi].
Qed.

Lemma islink_intro (w : world) (p : path) i t m :
  dents w !! p = Some (ENode i) -> inodes w !! i = Some (mkInode (Lnk t) m) ->
  islink w p = true.
Proof. unfold islink, readlink. intros -> ->. reflexivity. Qed.

(** A link of [w0] in the source tree is a link still. *)
Lemma source_link_stays (cur : world) (q : path) i t m :
  Inv cur -> src `prefix_of` q ->
  dents w0 !! q = Some (ENode i) -> inodes w0 !! i = Some (mkInode (Lnk t) m) ->
  islink cur q = true.
Proof.
  intros HI Hq Hd Hi.
  pose proof (inv_src _ _ _ _ _ HI q Hq) as Hs.
  destruct (inv_body _ _ _ _ _ HI i _ Hi) as ([b m'] & Hi' & Hb).
  cbn in Hb. subst b.
  eapply islink_intro; [|exact Hi'].
  eapply shape_node; [symmetry; exact Hs|exact Hd].
Qed.

(** A name of the source tree that is a file or link now was one in
    [w0]. *)
Lemma source_node_was (cur : world) (q : path) :
  Inv cur -> src `prefix_of` q ->
  is_node_entry (dents cur !! q) = true ->
  is_node_entry (dents w0 !! q) = true.
Proof.
  intros HI Hq. pose proof (inv_src _ _ _ _ _ HI q Hq) as Hs.
  destruct (dents cur !! q) as [[|]|], (dents w0 !! q) as [[|]|];
    cbn in *; congruence.
Qed.

Lemma tree_directories_Inv (r : path) (directories : list string) :
  known_dirs src w0 r ->
  Forall (listed_dir w0 (src ++ r)) directories ->
  forall files w w' res,
    Forall (listed_file w0 (src ++ r)) files ->
    Inv w ->
    tree_directories pol src dst (src ++ r) directories files w = (w', res) ->
    Inv w'
    /\ forall files', res = Ok files' ->
         Forall (listed_file w0 (src ++ r)) files'.
Proof using Hsd Hds Hprot_dst.
  intros Hk. induction directories as [|n rest IH]; intros Hld files w w' res Hlf HI.
  - cbn [tree_directories]. intros [= <- <-]. split; [exact HI|].
    intros files' [= <-]. exact Hlf.
  - apply Forall_cons in Hld as [Hn Hrest]. cbn [tree_directories].
    unfold bind at 1, get at 1.
    assert (Hpre : src `prefix_of` join (src ++ r) n).
    { unfold join. rewrite <- app_assoc. by apply prefix_app_r. }
    destruct (islink w (join (src ++ r) n)) eqn:Hl.
    + apply IH; [exact Hrest| |exact HI].
      apply Forall_app. split; [exact Hlf|]. apply Forall_cons. split; [|constructor].
      apply islink_inv in Hl as (i & t & m & Hd & _).
      unfold listed_file. eapply source_node_was; [exact HI|exact Hpre|].
      rewrite Hd. reflexivity.
    + assert (Hdir : is_dir_entry (dents w0 !! (src ++ r ++ [n])) = true).
      { destruct Hn as [Hn|(i & t & m & Hd & Hi)].
        - unfold join in Hn. rewrite <- app_assoc in Hn. exact Hn.
        - rewrite (source_link_stays w _ i t m HI Hpre Hd Hi) in Hl.
          discriminate. }
      unfold bind at 1.
      destruct (create_similar_directory pol _ _ false w) as [w1 [[]|e]] eqn:Hc.
      * apply IH; [exact Hrest|exact Hlf|].
        eapply create_similar_directory_Inv; [|exact HI|exact Hc].
        intros q Hq. unfold join in Hq. rewrite <- app_assoc, relpath_app in Hq.
        eapply side_of_known; [|exact Hq]. apply known_dirs_snoc; assumption.
      * intros [= <- <-]. split; [|discriminate].
        eapply create_similar_directory_Inv; [|exact HI|exact Hc].
        intros q Hq. unfold join in Hq. rewrite <- app_assoc, relpath_app in Hq.
        eapply side_of_known; [|exact Hq]. apply known_dirs_snoc; assumption.
Qed.

Lemma tree_files_Inv (r : path) (files : list string) :
  known_dirs src w0 r ->
  Forall (listed_file w0 (src ++ r)) files ->
  preserves Inv
    (tree_files (default_copy_function pol) src dst (src ++ r) files).
Proof using Hsd Hds Hnodir Hprot_src Hprot_dst.
  intros Hk. unfold tree_files.
  induction files as [|n files IH]; intros Hlf; cbn [for_each].
  - apply preserves_ret.
  - apply Forall_cons in Hlf as [Hn Hrest].
    apply preserves_bind; [|intros _; apply IH, Hrest].
    apply preserves_bind;
      [apply preserves_modify; intros w; apply Inv_add_call|]. intros _.
    unfold default_copy_function, join. rewrite <- app_assoc, relpath_app.
    apply link_or_copy_Inv.
    + intros H. apply app_eq_nil in H as [_ [=]].
    + unfold listed_file, join in Hn. rewrite <- app_assoc in Hn. exact Hn.
    + intros q Hq. rewrite app_assoc in Hq.
      change ((dst ++ r) ++ [n]) with (join (dst ++ r) n) in Hq.
      rewrite dirname_join in Hq.
      eapply side_of_known; eassumption.
Qed.

Lemma walk_root_prefix (root : path) (n : string) :
  walk_root src w0 root -> src `prefix_of` join root n.
Proof.
  intros (r & -> & _). unfold join. rewrite <- app_assoc. by apply prefix_app_r.
Qed.

Lemma link_or_copy_tree_Inv (fuel : nat) :
  preserves Inv
    (link_or_copy_tree pol fuel src dst (default_copy_function pol)).
Proof using Hsd Hds Hnodir Hprot_src Hprot_dst Hnd0.
  unfold link_or_copy_tree.
  apply preserves_bind; [apply preserves_get|]. intros w.
  destruct (negb (isdir w src)); [apply preserves_raise|].
  destruct (negb (isdir w dst) && exists_ w dst); [apply preserves_raise|].
  apply preserves_bind.
  { apply create_similar_directory_Inv. intros q Hq.
    eapply side_of_known; [apply known_dirs_nil|]. by apply prefix_app_r. }
  intros _ cur cur' res HI.
  apply (os_walk_invariant Inv (walk_root src w0) (listed_dir w0)
           (listed_file w0)); [| | | |exact HI|].
  - intros root dirs files (r & -> & Hk) Hld Hlf v v' res' HIv.
    unfold bind.
    destruct (tree_directories pol src dst (src ++ r) dirs files v)
      as [v1 [files'|e]] eqn:Hd;
      destruct (tree_directories_Inv r dirs Hk Hld files v v1 _ Hlf HIv Hd)
        as [HI1 Hfiles].
    + apply tree_files_Inv; [exact Hk|apply Hfiles; reflexivity|exact HI1].
    + intros [= <- _]. exact HI1.
  - intros top d v HG HIv Hl Hdir.
    pose proof (walk_root_prefix top d HG) as Hpre.
    destruct HG as (r & -> & Hk).
    exists (r ++ [d]). split; [unfold join; by rewrite app_assoc|].
    apply known_dirs_snoc; [exact Hk|].
    unfold islink in Hl. destruct (readlink v _) eqn:Hrl; [discriminate|].
    rewrite (isdir_no_link _ _ Hrl) in Hdir.
    unfold join in Hpre, Hdir. rewrite <- app_assoc in Hpre, Hdir.
    rewrite <- (shape_dir _ _ (inv_src _ _ _ _ _ HIv _ Hpre)). exact Hdir.
  - intros v root n HG HIv Hex Hdir.
    pose proof (walk_root_prefix root n HG) as Hpre.
    pose proof (inv_src _ _ _ _ _ HIv _ Hpre) as Hs.
    unfold listed_dir.
    destruct (dents v !! join root n) as [[m|i]|] eqn:Hd.
    + left. rewrite <- (shape_dir _ _ Hs). reflexivity.
    + right. destruct (readlink v (join root n)) as [t|] eqn:Hrl.
      * unfold readlink in Hrl. rewrite Hd in Hrl.
        destruct (inodes v !! i) as [[[c|t'] m]|] eqn:Hi; try discriminate.
        pose proof (shape_node _ _ i Hs eq_refl) as Hd0.
        destruct (Hnd0 _ _ Hd0) as [[b0 m0] Hi0].
        destruct (inv_body _ _ _ _ _ HIv i _ Hi0) as (n' & Hn' & Hb).
        rewrite Hi in Hn'. injection Hn' as <-. cbn in Hb. subst b0.
        exists i, t', m0. split; assumption.
      * rewrite (isdir_no_link _ _ Hrl), Hd in Hdir. discriminate.
    + unfold lexists in Hex. rewrite Hd in Hex. discriminate.
  - intros v root n HG HIv Hex Hdir.
    pose proof (walk_root_prefix root n HG) as Hpre.
    unfold listed_file. eapply source_node_was; [exact HIv|exact Hpre|].
    unfold lexists in Hex.
    destruct (dents v !! join root n) as [[m|i]|] eqn:Hd;
      [|reflexivity|discriminate].
    rewrite isdir_no_link, Hd in Hdir; [discriminate|].
    unfold readlink. rewrite Hd. reflexivity.
  - intros _. exists []. split; [by rewrite app_nil_r|apply known_dirs_nil].
Qed.

Lemma protected_file_kept (fuel : nat) (w' : world) res (c : string) :
  link_or_copy_tree pol fuel src dst (default_copy_function pol) w0
  = (w', res) ->
  file_content w0 (dst ++ rel0) = Some c ->
  file_content w' (dst ++ rel0) = Some c.
Proof using Hsd Hds Hnodir Hprot_src Hprot_dst Hnd0.
  intros Hrun Hc.
  pose proof (link_or_copy_tree_Inv fuel w0 w' res Inv_initial Hrun) as HI.
  unfold file_content in *. rewrite (inv_prot _ _ _ _ _ HI).
  destruct (dents w0 !! (dst ++ rel0)) as [[m|i]|]; try discriminate.
  destruct (inodes w0 !! i) as [[[c0|t] m]|] eqn:Hi; try discriminate.
  destruct (inv_body _ _ _ _ _ HI i _ Hi) as ([b m'] & -> & Hb).
  cbn in Hb. subst b. exact Hc.
Qed.

End Merge.



Lemma no_dangling_b_sound (w : world) :
  no_dangling_b w = true -> no_dangling w.
Proof.
  unfold no_dangling_b. rewrite forallb_forall. intros H p i Hp.
  specialize (H (p, ENode i)). cbn in H.
  eapply bool_decide_eq_true_1, H, list_elem_of_In, elem_of_map_to_list, Hp.
Qed.

Lemma strip_prefix_app (start r : path) : strip_prefix start (start ++ r) = Some r.
Proof.
  induction start as [|x start IH]; cbn; [reflexivity|].
  rewrite String.eqb_refl. exact IH.
Qed.

Lemma no_file_onto_dir_b_sound (src dst : path) (w : world) :
  no_file_onto_dir_b src dst w = true ->
  forall rel,
    is_node_entry (dents w !! (src ++ rel)) = true ->
    is_dir_entry (dents w !! (dst ++ rel)) = false.
Proof.
  unfold no_file_onto_dir_b. rewrite forallb_forall. intros H rel Hn.
  destruct (dents w !! (src ++ rel)) as [[m|i]|] eqn:Hp; try discriminate.
  specialize (H (src ++ rel, ENode i)). cbn in H.
  rewrite strip_prefix_app in H. apply negb_true_iff, H.
  apply list_elem_of_In, elem_of_map_to_list, Hp.
Qed.


(** Trees that overlap: the source tree /d/s lies in the destination /d.
    The walk copies /d/s/s/b/f to /d/s/b/f, finds it there when it comes
    to /d/s/b, and copies it over /d/b/f, for which the source tree had no
    entry when the copy began. *)
Example link_or_copy_tree_overlap :
  let '(w', r) := link_or_copy_tree permissive 8 ["d"; "s"] ["d"]
                    (default_copy_function permissive) inside_out in
  r = Ok tt
  /\ dents inside_out !! ["d"; "s"; "b"; "f"] = None
  /\ file_content inside_out ["d"; "b"; "f"] = Some "old"
  /\ file_content w' ["d"; "b"; "f"] = Some "new".
Proof. vm_compute. repeat split; reflexivity. Qed.

(** ** The contract of link_or_copy *)


(** *** realpath and the kernel agree where the kernel succeeds *)

Lemma resolve_exact (w : world) (n : nat) (p q : path) :
  resolve n w p = Some q ->
  exists n0, resolve n0 w p = Some q
             /\ forall k, k < n0 -> resolve k w p = None.
Proof.
  revert p. induction n as [|n IH]; intros p; cbn [resolve].
  - destruct (readlink w p) eqn:Hr; [discriminate|]. intros [= <-].
    exists 0. split; [cbn; rewrite Hr; reflexivity|]. intros k Hk. lia.
  - destruct (readlink w p) as [t|] eqn:Hr.
    + intros H. destruct (IH t H) as (n0 & Hn0 & Hmin).
      exists (S n0). split; [cbn; rewrite Hr; exact Hn0|].
      intros [|k] Hk; cbn [resolve]; rewrite Hr; [reflexivity|].
      apply Hmin. lia.
    + intros [= <-]. exists 0. split; [cbn; rewrite Hr; reflexivity|].
      intros k Hk. lia.
Qed.

Lemma resolve_None_pred (w : world) (n : nat) (p : path) :
  resolve (S n) w p = None -> resolve n w p = None.
Proof.
  revert p. induction n as [|n IH]; intros p; cbn [resolve];
    destruct (readlink w p) as [t|]; try congruence.
  intros H. apply IH. exact H.
Qed.

Lemma links_bounded (w : world) (l : list path) :
  NoDup l -> (forall x, x ∈ l -> is_Some (dents w !! x)) ->
  length l <= size (dents w).
Proof.
  intros Hnd Hin. rewrite <- size_dom.
  rewrite <- (size_list_to_set (C := gset path) l Hnd).
  apply subseteq_size. intros x Hx%elem_of_list_to_set.
  apply elem_of_dom, Hin, Hx.
Qed.

Lemma readlink_is_Some (w : world) (p t : path) :
  readlink w p = Some t -> is_Some (dents w !! p).
Proof. unfold readlink. destruct (dents w !! p); [eauto|discriminate]. Qed.

Lemma realpath_aux_exact (w : world) (q : path) (n : nat) :
  forall p seen m,
    resolve n w p = Some q ->
    (forall k, k < n -> resolve k w p = None) ->
    (forall x, x ∈ seen -> resolve n w x = None) ->
    NoDup seen ->
    (forall x, x ∈ seen -> is_Some (dents w !! x)) ->
    size (dents w) < length seen + m ->
    realpath_aux m w seen p = q.
Proof.
  induction n as [|n IH]; intros p seen m Hres Hmin Hseen Hnd Hdom Hm.
  - cbn [resolve] in Hres. destruct (readlink w p) eqn:Hr; [discriminate|].
    injection Hres as <-. destruct m; cbn [realpath_aux]; rewrite Hr; reflexivity.
  - destruct (readlink w p) as [t|] eqn:Hr.
    2:{ specialize (Hmin 0 ltac:(lia)). cbn in Hmin. rewrite Hr in Hmin.
        discriminate. }
    assert (Hp : p ∉ seen).
    { intros Hin. rewrite (Hseen p Hin) in Hres. discriminate. }
    assert (Hlen : length (p :: seen) <= size (dents w)).
    { apply links_bounded; [constructor; assumption|].
      intros x [->|Hx]%elem_of_cons; [eapply readlink_is_Some; eassumption|auto]. }
    cbn [length] in Hlen.
    destruct m as [|m]; [lia|]. cbn [realpath_aux]. rewrite Hr.
    rewrite bool_decide_eq_false_2 by exact Hp.
    cbn [resolve] in Hres. rewrite Hr in Hres.
    apply IH; [exact Hres| | |constructor; assumption| |cbn [length]; lia].
    + intros k Hk. specialize (Hmin (S k) ltac:(lia)). cbn [resolve] in Hmin.
      rewrite Hr in Hmin. exact Hmin.
    + intros x [->|Hx]%elem_of_cons.
      * destruct n as [|n']; [cbn; rewrite Hr; reflexivity|].
        apply (Hmin (S n')). lia.
      * apply resolve_None_pred, Hseen, Hx.
    + intros x [->|Hx]%elem_of_cons; [eapply readlink_is_Some; eassumption|auto].
Qed.

Lemma realpath_resolve (w : world) (n : nat) (p q : path) :
  resolve n w p = Some q -> realpath w p = q.
Proof.
  intros H. destruct (resolve_exact w n p q H) as (n0 & Hn0 & Hmin).
  unfold realpath. eapply realpath_aux_exact; try eassumption.
  - intros x Hx. inversion Hx.
  - constructor.
  - intros x Hx. inversion Hx.
  - cbn. lia.
Qed.

(** *** What the attempt to link leaves as it was *)

Section LinkFrame.

Variables (pol : policy) (w0 : world) (top : path).

Local Abbreviation Frame := (link_frame w0 top).

Lemma Frame_initial : Frame w0.
Proof. split; auto. Qed.

Lemma Frame_same_fs (cur cur' : world) :
  dents cur' = dents cur -> inodes cur' = inodes cur -> Frame cur -> Frame cur'.
Proof. intros Hd Hi [H1 H2]. split; rewrite ?Hd, ?Hi; assumption. Qed.

Lemma Frame_insert_dir (cur : world) (q : path) (m : stat_result) :
  Frame cur -> dents cur !! q = None -> q `prefix_of` top -> q <> [] ->
  Frame (set_dents (insert q (EDir m)) cur).
Proof.
  intros [H1 H2] Hq Hpre Hne. split; cbn [dents inodes set_dents]; [|exact H2].
  intros q'. destruct (decide (q = q')) as [<-|Hn].
  - rewrite lookup_insert_eq. right. repeat split; auto.
    destruct (H1 q) as [Hs|(_ & _ & _ & Hd)].
    + rewrite Hq in Hs. destruct (dents w0 !! q) as [[|]|]; cbn in Hs; congruence.
    + rewrite Hq in Hd. discriminate.
  - rewrite lookup_insert_ne by exact Hn. apply H1.
Qed.

Lemma Frame_update_meta (f : stat_result -> stat_result) (q : path)
  (cur cur' : world) :
  update_meta f q cur = Some cur' -> Frame cur -> Frame cur'.
Proof.
  unfold update_meta. intros Hu [H1 H2].
  destruct (dents cur !! q) as [[m|i]|] eqn:Hq; [| |discriminate].
  - injection Hu as <-. split; cbn [dents inodes set_dents]; [|exact H2].
    intros q'. destruct (decide (q = q')) as [<-|Hn].
    + rewrite lookup_insert_eq. specialize (H1 q). rewrite Hq in H1.
      exact H1.
    + rewrite lookup_insert_ne by exact Hn. apply H1.
  - destruct (inodes cur !! i) as [[b m]|] eqn:Hi; [|discriminate].
    injection Hu as <-. split; cbn [dents inodes set_inodes]; [exact H1|].
    intros j. destruct (decide (i = j)) as [<-|Hn].
    + rewrite lookup_insert_eq, <- H2, Hi. reflexivity.
    + rewrite lookup_insert_ne by exact Hn. apply H2.
Qed.

Lemma os_mkdir_Frame (q : path) :
  q `prefix_of` top -> preserves Frame (os_mkdir pol q).
Proof.
  intros Hpre w w' r HF. unfold os_mkdir.
  destruct (dents w !! q) eqn:Hq; [intros [= <- _]; exact HF|].
  destruct (parent_error w q) eqn:Hpe; intros [= <- _]; [exact HF|].
  apply (Frame_same_fs (set_dents (insert q (EDir (new_dir_meta pol w))) w));
    [reflexivity|reflexivity|].
  apply Frame_insert_dir; auto.
  intros ->. discriminate Hpe.
Qed.

Lemma makedirs_rev_Frame (rname : list string) :
  rev rname `prefix_of` top -> preserves Frame (makedirs_rev pol rname).
Proof.
  induction rname as [|a rhead IH]; intros Hpre; cbn [makedirs_rev].
  - apply preserves_bind; [apply preserves_ret|]. intros _.
    apply preserves_try_except; [apply os_mkdir_Frame, Hpre|].
    intros e. apply preserves_bind; [apply preserves_get|]. intros w.
    destruct (isdir w _); [apply preserves_ret|apply preserves_raise].
  - apply preserves_bind.
    + apply preserves_bind; [apply preserves_get|]. intros w.
      destruct (exists_ w (rev rhead)); [apply preserves_ret|].
      apply preserves_try_except; [|intros; apply preserves_ret].
      apply IH. cbn [rev] in Hpre. eapply prefix_app_l, Hpre.
    + intros _.
      apply preserves_try_except; [apply os_mkdir_Frame, Hpre|].
      intros e. apply preserves_bind; [apply preserves_get|]. intros w.
      destruct (isdir w _); [apply preserves_ret|apply preserves_raise].
Qed.

Lemma os_chown_Frame (p : path) (uid gid : nat) (follow : bool) :
  preserves Frame (os_chown pol p uid gid follow).
Proof.
  intros w w' r HF. unfold os_chown.
  destruct (target_of follow w p) as [q|]; [|intros [= <- _]; exact HF].
  destruct (dents w !! q); [|intros [= <- _]; exact HF].
  destruct (may_chown pol q); [|intros [= <- _]; exact HF].
  destruct (update_meta _ q w) as [w1|] eqn:Hu; intros [= <- _];
    [eapply Frame_update_meta; eassumption|exact HF].
Qed.

Lemma shutil_copystat_Frame (s d : path) (follow : bool) :
  preserves Frame (shutil_copystat s d follow).
Proof.
  unfold shutil_copystat.
  apply preserves_bind; [apply preserves_get|]. intros w.
  apply preserves_bind.
  { intros v v' r HF H. apply os_stat_state in H as ->. exact HF. }
  intros st cur cur' r HF.
  destruct (target_of _ cur d) as [q|]; [|intros [= <- _]; exact HF].
  destruct (update_meta _ q cur) as [w1|] eqn:Hu; intros [= <- _];
    [eapply Frame_update_meta; eassumption|exact HF].
Qed.

Lemma create_similar_directory_Frame (s : path) (follow : bool) :
  preserves Frame (create_similar_directory pol s top follow).
Proof.
  unfold create_similar_directory.
  apply preserves_bind.
  { apply preserves_modify. intros w. apply Frame_same_fs; reflexivity. }
  intros _. apply preserves_bind.
  { intros v v' r HF H. apply os_stat_state in H as ->. exact HF. }
  intros st. apply preserves_bind.
  { apply makedirs_rev_Frame. rewrite rev_involutive. reflexivity. }
  intros _. apply preserves_bind.
  { apply preserves_try_except; [apply os_chown_Frame|].
    intros _. apply preserves_modify. intros w.
    apply Frame_same_fs; reflexivity. }
  intros _. apply shutil_copystat_Frame.
Qed.

(** Consequences of the frame. *)

Lemma Frame_node (cur : world) (q : path) (i : nat) :
  Frame cur ->
  dents cur !! q = Some (ENode i) <-> dents w0 !! q = Some (ENode i).
Proof.
  intros [H1 _]. destruct (H1 q) as [Hs|(_ & _ & Hn & Hd)].
  - destruct (dents cur !! q) as [[|]|], (dents w0 !! q) as [[|]|];
      cbn in Hs; split; congruence.
  - rewrite Hn. destruct (dents cur !! q) as [[|]|]; cbn in Hd;
      split; congruence.
Qed.

Lemma Frame_readlink (cur : world) (q : path) :
  Frame cur -> readlink cur q = readlink w0 q.
Proof.
  intros HF. unfold readlink.
  destruct (dents cur !! q) as [[m|i]|] eqn:Hc.
  - destruct (dents w0 !! q) as [[m'|i']|] eqn:H0; try reflexivity.
    apply (Frame_node cur q i' HF) in H0. congruence.
  - apply (Frame_node cur q i HF) in Hc as ->.
    pose proof (lf_body _ _ _ HF i) as Hb.
    destruct (inodes cur !! i) as [[b m]|], (inodes w0 !! i) as [[b' m']|];
      cbn in Hb; try congruence.
    injection Hb as ->. reflexivity.
  - destruct (dents w0 !! q) as [[m'|i']|] eqn:H0; try reflexivity.
    apply (Frame_node cur q i' HF) in H0. congruence.
Qed.

Lemma Frame_not_dir (cur : world) (d : path) :
  Frame cur -> ~ (d `prefix_of` top /\ d <> []) ->
  is_dir_entry (dents cur !! d) = is_dir_entry (dents w0 !! d).
Proof.
  intros [H1 _] Hd. destruct (H1 d) as [Hs|(? & ? & _)].
  - apply shape_dir, Hs.
  - exfalso. apply Hd. split; assumption.
Qed.

Lemma Frame_no_dangling (cur : world) :
  Frame cur -> no_dangling w0 -> no_dangling cur.
Proof.
  intros HF Hnd p i Hp. apply (Frame_node cur p i HF) in Hp.
  destruct (Hnd p i Hp) as [n Hn].
  pose proof (lf_body _ _ _ HF i) as Hb. rewrite Hn in Hb.
  destruct (inodes cur !! i); [eauto|discriminate].
Qed.

End LinkFrame.

(** *** The steps of link_or_copy *)

Lemma os_link_raise (pol : policy) (a d : path) (w w' : world) (e : exn) :
  os_link pol a d w = (w', Raise e) -> w' = w.
Proof.
  unfold os_link.
  destruct (dents w !! a) as [[m|i]|]; try congruence.
  destruct (dents w !! d); try congruence.
  destruct (parent_error w d); try congruence.
  destruct (may_link pol a d); congruence.
Qed.

Lemma os_link_ok (pol : policy) (a d : path) (w w' : world) :
  os_link pol a d w = (w', Ok tt) ->
  exists i, dents w !! a = Some (ENode i)
            /\ w' = set_dents (insert d (ENode i)) w.
Proof.
  unfold os_link.
  destruct (dents w !! a) as [[m|i]|]; try discriminate.
  destruct (dents w !! d); try discriminate.
  destruct (parent_error w d); try discriminate.
  destruct (may_link pol a d); [|discriminate].
  intros [= <-]. eauto.
Qed.

(** The attempt to link: whatever it did before the link itself left the
    frame intact. *)
Lemma link_attempt_inv (pol : policy) (sp s' d : path) (w w1 : world)
  (r : result unit) :
  ((if negb (exists_ w (dirname d)) then
      create_similar_directory pol s' (dirname d) false
    else ret tt) ;;;
   os_link pol sp d) w = (w1, r) ->
  exists wa, link_frame w (dirname d) wa
             /\ ((exists e, r = Raise e /\ w1 = wa)
                 \/ (r = Ok tt /\ os_link pol sp d wa = (w1, Ok tt))).
Proof.
  unfold bind.
  destruct ((if negb (exists_ w (dirname d))
             then create_similar_directory pol s' (dirname d) false
             else ret tt) w) as [wa [[]|e]] eqn:Hpre.
  - assert (HF : link_frame w (dirname d) wa).
    { destruct (negb (exists_ w (dirname d))).
      - eapply create_similar_directory_Frame; [|exact Hpre].
        apply Frame_initial.
      - injection Hpre as <-. apply Frame_initial. }
    intros Hl. exists wa. split; [exact HF|].
    destruct r as [[]|e]; [right; auto|left].
    apply os_link_raise in Hl as ->. eauto.
  - intros [= <- <-]. exists wa. split; [|left; eauto].
    destruct (negb (exists_ w (dirname d))).
    + eapply create_similar_directory_Frame; [|exact Hpre].
      apply Frame_initial.
    + discriminate Hpre.
Qed.

Lemma not_prefix_dirname (d : path) :
  ~ (d `prefix_of` dirname d /\ d <> []).
Proof.
  intros [Hp Hne]. apply prefix_length in Hp.
  rewrite (join_dirname_basename d Hne) in Hp at 1.
  unfold join in Hp. rewrite length_app in Hp. cbn in Hp. lia.
Qed.

(** The unlink that may fail, on a name that is no directory. *)
Lemma unlink_attempt (d : path) (w w2 : world) (r : result unit) :
  is_dir_entry (dents w !! d) = false ->
  try_except (os_unlink d) is_OSError (fun _ => ret tt) w = (w2, r) ->
  r = Ok tt /\ inodes w2 = inodes w /\ dents w2 = delete d (dents w).
Proof.
  unfold try_except, os_unlink.
  destruct (dents w !! d) as [[m|i]|] eqn:Hd; cbn [is_OSError ret];
    [discriminate| |]; intros _ [= <- <-]; repeat split.
  symmetry. apply delete_id. exact Hd.
Qed.

Lemma readlink_delete (d : path) (w w2 : world) (p : path) :
  dents w2 = delete d (dents w) -> inodes w2 = inodes w ->
  readlink w2 p = if decide (p = d) then None else readlink w p.
Proof.
  intros Hd Hi. unfold readlink. rewrite Hd, Hi.
  destruct (decide (p = d)) as [->|Hne].
  - rewrite lookup_delete_eq. reflexivity.
  - rewrite lookup_delete_ne by congruence. reflexivity.
Qed.

Lemma resolve_delete (d : path) (w w2 : world) (n : nat) (p q : path) :
  dents w2 = delete d (dents w) -> inodes w2 = inodes w ->
  resolve n w2 p = Some q -> is_Some (dents w2 !! q) ->
  resolve n w p = Some q.
Proof.
  intros Hd Hi. revert p.
  assert (Habs : forall n', resolve n' w2 d = Some q ->
                            is_Some (dents w2 !! q) -> False).
  { intros n' Hr Hs. rewrite resolve_no_link in Hr.
    - injection Hr as <-. rewrite Hd, lookup_delete_eq in Hs.
      destruct Hs as [? [=]].
    - rewrite (readlink_delete d w w2 d Hd Hi).
      destruct (decide (d = d)); congruence. }
  induction n as [|n IH]; intros p Hr Hs;
    (destruct (decide (p = d)) as [->|Hne]; [exfalso; eauto|]);
    cbn [resolve] in *; rewrite (readlink_delete d w w2 p Hd Hi) in Hr;
    destruct (decide (p = d)); try contradiction;
    destruct (readlink w p); auto.
Qed.

(** The chown that may be refused keeps shapes and data. *)
Lemma chown_attempt_data (pol : policy) (d : path) (uid gid : nat)
  (follow : bool) (w w' : world) (r : result unit) :
  try_except (os_chown pol d uid gid follow) is_PermissionError
    (fun _ => modify (add_log DEBUG d)) w = (w', r) ->
  (forall q, shape (dents w' !! q) = shape (dents w !! q))
  /\ (forall i, data_of <$> inodes w' !! i = data_of <$> inodes w !! i).
Proof.
  unfold try_except, os_chown, modify.
  assert (H0 : (forall q, shape (dents w !! q) = shape (dents w !! q))
               /\ (forall i, data_of <$> inodes w !! i
                             = data_of <$> inodes w !! i)) by auto.
  destruct (target_of follow w d) as [q|]; [|intros [= <- _]; exact H0].
  destruct (dents w !! q) as [e|] eqn:Hq; [|intros [= <- _]; exact H0].
  destruct (may_chown pol q); [|cbn; intros [= <- _]; exact H0].
  unfold update_meta. rewrite Hq.
  destruct e as [m|i].
  - intros [= <- _]. cbn [dents inodes set_dents]. split; [|auto].
    intros q'. destruct (decide (q = q')) as [<-|Hn].
    + rewrite lookup_insert_eq, Hq. reflexivity.
    + rewrite lookup_insert_ne by exact Hn. reflexivity.
  - destruct (inodes w !! i) as [[b m]|] eqn:Hi; intros [= <- _];
      [|exact H0].
    cbn [dents inodes set_inodes]. split; [auto|].
    intros j. destruct (decide (i = j)) as [<-|Hn].
    + rewrite lookup_insert_eq, Hi. reflexivity.
    + rewrite lookup_insert_ne by exact Hn. reflexivity.
Qed.

Lemma fresh_ino_absent (w : world) : inodes w !! fresh_ino w = None.
Proof.
  apply not_elem_of_dom. unfold fresh_ino. apply is_fresh.
Qed.

Section NewNode.

Variables (pol : policy) (d : path) (b : inode_body) (w : world).

Hypothesis Hd : dents w !! d = None.
Hypothesis Hnd : no_dangling w.

Local Abbreviation w_new := (with_new_node pol d b w).

Lemma new_node_dents (p : path) :
  dents w_new !! p
  = if decide (d = p) then Some (ENode (fresh_ino w)) else dents w !! p.
Proof.
  unfold with_new_node. cbn [dents tick set_dents set_inodes].
  destruct (decide (d = p)) as [<-|Hne].
  - apply lookup_insert_eq.
  - apply lookup_insert_ne. exact Hne.
Qed.

Lemma new_node_old_inode (i : nat) (n : inode) :
  inodes w !! i = Some n -> inodes w_new !! i = Some n.
Proof.
  intros Hi. unfold with_new_node. cbn [inodes tick set_dents set_inodes].
  rewrite lookup_insert_ne; [exact Hi|].
  intros <-. rewrite fresh_ino_absent in Hi. discriminate.
Qed.

Lemma new_node_new_inode :
  inodes w_new !! fresh_ino w = Some (mkInode b (new_file_meta pol w)).
Proof.
  unfold with_new_node. cbn [inodes tick set_dents set_inodes].
  apply lookup_insert_eq.
Qed.

Lemma new_node_readlink_other (p : path) :
  p <> d -> readlink w_new p = readlink w p.
Proof using Hnd.
  intros Hne. unfold readlink. rewrite new_node_dents.
  destruct (decide (d = p)); [congruence|].
  destruct (dents w !! p) as [[m|i]|] eqn:Hp; try reflexivity.
  destruct (Hnd p i Hp) as [node Hnode].
  rewrite (new_node_old_inode i node Hnode), Hnode. reflexivity.
Qed.

Lemma new_node_readlink_new :
  readlink w_new d = match b with Lnk t => Some t | Reg _ => None end.
Proof.
  unfold readlink. rewrite new_node_dents.
  destruct (decide (d = d)); [|congruence].
  rewrite new_node_new_inode. destruct b; reflexivity.
Qed.

(** After the copy of the content, copystat gives the new inode the
    mode and the times of the inode [i] the content came from: the link
    [s] itself, or the file at the end of the links. *)
Lemma copystat_after_create (s q : path) (follow : bool) (i : nat)
  (m : stat_result) (w3 : world) :
  dents w !! q = Some (ENode i) ->
  inodes w !! i = Some (mkInode b m) ->
  (follow = false /\ q = s /\ exists t, b = Lnk t)
  \/ ((exists c, b = Reg c) /\ resolve MAXSYMLINKS w s = Some q) ->
  shutil_copystat s d follow w_new = (w3, Ok tt) ->
  exists m',
    dents w3 = dents w_new
    /\ inodes w3 = <[fresh_ino w := mkInode b m']> (inodes w)
    /\ st_mode m' = st_mode m /\ st_atime m' = st_atime m
    /\ st_mtime m' = st_mtime m.
Proof using Hd Hnd.
  intros Hq Hi Hcase.
  assert (Hqd : q <> d) by congruence.
  assert (Hstat : forall f, target_of f w_new s = Some q ->
            os_stat s f w_new = (w_new, Ok m)).
  { intros f Ht. unfold os_stat. rewrite Ht, new_node_dents.
    destruct (decide (d = q)); [congruence|]. rewrite Hq.
    cbn [mbind option_bind meta_of].
    rewrite (new_node_old_inode i _ Hi). reflexivity. }
  assert (Hupd : forall f, target_of f w_new d = Some d ->
            forall st w',
              (fun v => match target_of f v d with
                        | None => (v, Raise OSError)
                        | Some q0 =>
                            match update_meta
                                    (fun m0 => mkStat (st_uid m0) (st_gid m0)
                                                 (st_mode st) (st_atime st)
                                                 (st_mtime st)) q0 v with
                            | Some v' => (v', Ok tt)
                            | None => (v, Raise FileNotFoundError)
                            end
                        end) w_new = (w', Ok tt) ->
              dents w' = dents w_new
              /\ inodes w' =
                 <[fresh_ino w :=
                     mkInode b (mkStat (proc_uid pol) (proc_gid pol)
                                  (st_mode st) (st_atime st) (st_mtime st))]>
                   (inodes w)).
  { intros f Ht st w'. cbv beta. rewrite Ht. unfold update_meta.
    rewrite new_node_dents. destruct (decide (d = d)); [|congruence].
    rewrite new_node_new_inode. intros [= <-].
    split; [reflexivity|].
    unfold with_new_node. cbn [inodes tick set_dents set_inodes new_file_meta
                                st_uid st_gid].
    apply insert_insert_eq. }
  unfold shutil_copystat, bind at 1, get at 1. unfold bind.
  destruct Hcase as [(-> & -> & t & Hb)|[[c Hb] Hres]].
  - assert (Hls : islink w_new s = true).
    { unfold islink. rewrite new_node_readlink_other by exact Hqd.
      unfold readlink. rewrite Hq, Hi, Hb. reflexivity. }
    assert (Hld : islink w_new d = true).
    { unfold islink. rewrite new_node_readlink_new, Hb. reflexivity. }
    rewrite Hls, Hld. cbn [negb andb orb].
    rewrite (Hstat false eq_refl). intros Hu.
    apply (Hupd false eq_refl) in Hu as [Hu1 Hu2].
    eexists. split; [exact Hu1|]. split; [exact Hu2|]. cbn. auto.
  - assert (Hld : islink w_new d = false).
    { unfold islink. rewrite new_node_readlink_new, Hb. reflexivity. }
    rewrite Hld, andb_false_r. cbn [negb]. rewrite orb_true_r.
    assert (Hrs : resolve MAXSYMLINKS w_new s = Some q).
    { rewrite <- Hres. apply resolve_ext. intros p.
      destruct (decide (p = d)) as [Heq|Hne].
      - rewrite Heq, new_node_readlink_new, Hb. symmetry.
        now apply readlink_absent.
      - now apply new_node_readlink_other. }
    rewrite (Hstat true Hrs). intros Hu.
    assert (Hrd : target_of true w_new d = Some d).
    { cbn [target_of]. apply resolve_no_link.
      rewrite new_node_readlink_new, Hb. reflexivity. }
    apply (Hupd true Hrd) in Hu as [Hu1 Hu2].
    eexists. split; [exact Hu1|]. split; [exact Hu2|]. cbn. auto.
Qed.

End NewNode.

Lemma read_file_ok (s : path) (w w' : world) (c : string) :
  read_file s w = (w', Ok c) ->
  exists q i m, resolve MAXSYMLINKS w s = Some q
                /\ dents w !! q = Some (ENode i)
                /\ inodes w !! i = Some (mkInode (Reg c) m).
Proof.
  unfold read_file. destruct (resolve MAXSYMLINKS w s) as [q|]; [|discriminate].
  destruct (dents w !! q) as [[m|i]|] eqn:Hq; try discriminate.
  destruct (inodes w !! i) as [[[c'|t] m]|] eqn:Hi; try discriminate.
  intros [= _ <-]. eauto 10.
Qed.

Lemma create_node_ok (pol : policy) (q : path) (b : inode_body)
  (w w' : world) :
  create_node pol q b w = (w', Ok tt) -> w' = with_new_node pol q b w.
Proof.
  unfold create_node. destruct (parent_error w q); [discriminate|]. congruence.
Qed.

(** A successful copy2 onto a name that is not there. *)
Lemma shutil_copy2_new_ok (pol : policy) (s d : path) (follow : bool)
  (w w3 : world) :
  dents w !! d = None -> no_dangling w ->
  shutil_copy2 pol s d follow w = (w3, Ok tt) ->
  exists q i b m m',
    (if follow then resolve MAXSYMLINKS w s = Some q else q = s)
    /\ dents w !! q = Some (ENode i)
    /\ inodes w !! i = Some (mkInode b m)
    /\ dents w3 !! d = Some (ENode (fresh_ino w))
    /\ inodes w3 = <[fresh_ino w := mkInode b m']> (inodes w)
    /\ st_mode m' = st_mode m /\ st_atime m' = st_atime m
    /\ st_mtime m' = st_mtime m.
Proof.
  intros Hd Hnd. unfold shutil_copy2, bind at 1, get at 1.
  rewrite (isdir_absent w d Hd). unfold bind at 1.
  destruct (shutil_copyfile pol s d follow w) as [wa [[]|e]] eqn:Hcf;
    [|discriminate].
  intros Hcs. revert Hcf. unfold shutil_copyfile, bind at 1, get at 1.
  destruct (samefile w s d); [discriminate|].
  destruct (negb follow && islink w s) eqn:Hbr.
  - apply andb_true_iff in Hbr as [Hf Hl]. apply negb_true_iff in Hf. subst follow.
    destruct (islink_inv w s Hl) as (i & t & m & Hs & Hi).
    unfold readlink. rewrite Hs, Hi. unfold os_symlink. rewrite Hd.
    intros ->%create_node_ok.
    destruct (copystat_after_create pol d (Lnk t) w Hd Hnd s s false i m w3
                Hs Hi) as (m' & H1 & H2 & H3); [left; eauto|exact Hcs|].
    exists s, i, (Lnk t), m, m'. repeat split; try tauto.
    rewrite H1, new_node_dents. destruct (decide (d = d)); congruence.
  - unfold bind. destruct (read_file s w) as [w_ [c|e]] eqn:Hr; [|discriminate].
    pose proof (read_file_state _ _ _ _ Hr) as ->.
    apply read_file_ok in Hr as (q & i & m & Hres & Hq & Hi).
    unfold write_file. rewrite resolve_no_link by (now apply readlink_absent).
    rewrite Hd. intros ->%create_node_ok.
    destruct (copystat_after_create pol d (Reg c) w Hd Hnd s q follow i m w3
                Hq Hi) as (m' & H1 & H2 & H3); [right; eauto|exact Hcs|].
    exists q, i, (Reg c), m, m'. repeat split; try tauto.
    + destruct follow; [exact Hres|]. cbn in Hbr.
      unfold islink in Hbr. destruct (readlink w s) eqn:Hrl; [discriminate|].
      rewrite resolve_no_link in Hres by exact Hrl. congruence.
    + rewrite H1, new_node_dents. destruct (decide (d = d)); congruence.
Qed.

Lemma try_except_ok {A} (m : M A) handles (h : exn -> M A) (w w' : world)
  (a : A) :
  try_except m handles h w = (w', Ok a) ->
  m w = (w', Ok a)
  \/ exists w1 e, m w = (w1, Raise e) /\ handles e = true
                  /\ h e w1 = (w', Ok a).
Proof.
  unfold try_except. destruct (m w) as [w1 [a'|e]]; [auto|].
  destruct (handles e) eqn:He; [|discriminate]. intros H. right. eauto.
Qed.

Lemma same_data_intro (n n' : inode) :
  data_of n = data_of n' -> same_data n n' = true.
Proof. intros H. unfold same_data. now apply bool_decide_eq_true. Qed.



(** With follow_symlinks, the destination of the link /s/l is a copy of
    nothing: /s/l leads to the directory /s, which cannot be linked or
    copied, and the call fails. *)
Example link_or_copy_follow_directory :
  snd (link_or_copy permissive ["s"; "l"] ["d"; "l"] true staging)
  = Raise IsADirectoryError.
Proof. vm_compute. reflexivity. Qed.

(** Trees that overlap the other way: the destination /s/d lies in the
    source tree.  Every level of the walk makes the directory the next
    level lists, the file /s/d/d/f is copied over on the way, and the
    walk only ends with the recursion depth. *)
Example link_or_copy_tree_nested :
  let '(w', r) := link_or_copy_tree permissive 8 ["s"] ["s"; "d"]
                    (default_copy_function permissive) nested in
  r = Raise RecursionError
  /\ dents nested !! ["s"; "d"; "f"] = None
  /\ file_content nested ["s"; "d"; "d"; "f"] = Some "old"
  /\ file_content w' ["s"; "d"; "d"; "f"] = Some "new".
Proof. vm_compute. repeat split; reflexivity. Qed.

(** ** Links among the subdirectories, along the whole loop *)

Lemma update_meta_calls (f : stat_result -> stat_result) (q : path)
  (w w' : world) :
  update_meta f q w = Some w' -> calls w' = calls w.
Proof.
  unfold update_meta. destruct (dents w !! q) as [[m|i]|]; try discriminate.
  - intros [= <-]. reflexivity.
  - destruct (inodes w !! i) as [[b m]|]; [|discriminate].
    intros [= <-]. reflexivity.
Qed.

Section KeepsCalls.

Variables (pol : policy) (c : list call).

Local Abbreviation Same := (fun v : world => calls v = c).

Lemma os_mkdir_calls (q : path) : preserves Same (os_mkdir pol q).
Proof.
  intros w w' r Hc. unfold os_mkdir.
  destruct (dents w !! q); [intros [= <- _]; exact Hc|].
  destruct (parent_error w q); intros [= <- _]; exact Hc.
Qed.

Lemma makedirs_rev_calls (rname : list string) :
  preserves Same (makedirs_rev pol rname).
Proof.
  induction rname as [|a rhead IH]; cbn [makedirs_rev].
  - apply preserves_bind; [apply preserves_ret|]. intros _.
    apply preserves_try_except; [apply os_mkdir_calls|].
    intros e. apply preserves_bind; [apply preserves_get|]. intros w.
    destruct (isdir w _); [apply preserves_ret|apply preserves_raise].
  - apply preserves_bind.
    + apply preserves_bind; [apply preserves_get|]. intros w.
      destruct (exists_ w (rev rhead)); [apply preserves_ret|].
      apply preserves_try_except; [exact IH|intros; apply preserves_ret].
    + intros _.
      apply preserves_try_except; [apply os_mkdir_calls|].
      intros e. apply preserves_bind; [apply preserves_get|]. intros w.
      destruct (isdir w _); [apply preserves_ret|apply preserves_raise].
Qed.

Lemma os_chown_calls (p : path) (uid gid : nat) (follow : bool) :
  preserves Same (os_chown pol p uid gid follow).
Proof.
  intros w w' r Hc. unfold os_chown.
  destruct (target_of follow w p) as [q|]; [|intros [= <- _]; exact Hc].
  destruct (dents w !! q); [|intros [= <- _]; exact Hc].
  destruct (may_chown pol q); [|intros [= <- _]; exact Hc].
  destruct (update_meta _ q w) as [w1|] eqn:Hu; intros [= <- _]; [|exact Hc].
  rewrite (update_meta_calls _ _ _ _ Hu). exact Hc.
Qed.

Lemma shutil_copystat_calls (s d : path) (follow : bool) :
  preserves Same (shutil_copystat s d follow).
Proof.
  unfold shutil_copystat.
  apply preserves_bind; [apply preserves_get|]. intros w.
  apply preserves_bind.
  { intros v v' r Hc H. apply os_stat_state in H as ->. exact Hc. }
  intros st cur cur' r Hc.
  destruct (target_of _ cur d) as [q|]; [|intros [= <- _]; exact Hc].
  destruct (update_meta _ q cur) as [w1|] eqn:Hu; intros [= <- _]; [|exact Hc].
  rewrite (update_meta_calls _ _ _ _ Hu). exact Hc.
Qed.

End KeepsCalls.

(** A call of create_similar_directory is recorded once, and it turns no
    name into a link and no link into something else. *)
Lemma create_similar_directory_effect (pol : policy) (s d : path)
  (follow : bool) (w w' : world) (r : result unit) :
  create_similar_directory pol s d follow w = (w', r) ->
  calls w' = calls w ++ [CallCreateSimilarDirectory s d]
  /\ forall q, readlink w' q = readlink w q.
Proof.
  intros Hrun. split.
  - revert Hrun. unfold create_similar_directory, bind at 1, modify at 1.
    set (w1 := add_call (CallCreateSimilarDirectory s d) w).
    change (calls w ++ [CallCreateSimilarDirectory s d]) with (calls w1).
    generalize w1. clear w1. intros w1 Hrun.
    eapply (preserves_bind (fun v => calls v = calls w1) (os_stat s follow));
      [| |reflexivity|exact Hrun].
    { intros v v' r' Hc H. apply os_stat_state in H as ->. exact Hc. }
    intros st. apply preserves_bind; [apply makedirs_rev_calls|]. intros _.
    apply preserves_bind; [|intros _; apply shutil_copystat_calls].
    apply preserves_try_except; [apply os_chown_calls|].
    intros _. apply preserves_modify. intros v Hv. exact Hv.
  - intros q. apply (Frame_readlink w d).
    eapply create_similar_directory_Frame; [apply Frame_initial|exact Hrun].
Qed.

Lemma islink_readlink (w w' : world) :
  (forall q, readlink w' q = readlink w q) ->
  forall q, islink w' q = islink w q.
Proof. intros H q. unfold islink. rewrite H. reflexivity. Qed.

(** The loop over the directories, as a whole: the links go to the
    files, the others are cloned, and a link stays a link on the way. *)
Lemma tree_directories_whole (pol : policy) (src dst root : path)
  (directories : list string) :
  forall files w w' files',
    tree_directories pol src dst root directories files w = (w', Ok files') ->
    (forall q, readlink w' q = readlink w q)
    /\ files' = files ++ linked_names w root directories
    /\ calls w'
       = calls w
         ++ List.map (fun d => CallCreateSimilarDirectory (join root d)
                                 (dst ++ relpath (join root d) src))
              (cloned_names w root directories).
Proof.
  induction directories as [|d rest IH]; intros files w w' files';
    cbn [tree_directories].
  - intros [= <- <-]. cbn. rewrite !app_nil_r. auto.
  - unfold bind at 1, get at 1. unfold linked_names, cloned_names.
    cbn [List.filter]. destruct (islink w (join root d)) eqn:Hl; cbn [negb].
    + intros H. apply IH in H as (H1 & -> & H3).
      split; [exact H1|]. split; [|exact H3].
      rewrite <- app_assoc. reflexivity.
    + unfold bind at 1.
      destruct (create_similar_directory pol _ _ false w) as [w1 [[]|e]]
        eqn:Hc; [|discriminate].
      apply create_similar_directory_effect in Hc as [Hc Hr].
      intros H. apply IH in H as (H1 & -> & H3).
      pose proof (islink_readlink w w1 Hr) as Hi.
      split; [intros q; rewrite H1; apply Hr|].
      split.
      * f_equal. apply List.filter_ext. intros a. apply Hi.
      * rewrite H3, Hc, <- app_assoc. cbn [List.map app]. do 3 f_equal.
        apply List.filter_ext. intros a. rewrite Hi. reflexivity.
Qed.



(** The whole copy of a tree with a link to a directory that loops back:
    the link is copied as a file and the walk ends. *)
Example link_or_copy_tree_with_loop :
  let '(w', r) := link_or_copy_tree permissive 8 ["s"] ["d"]
                    (default_copy_function permissive) staging in
  r = Ok tt
  /\ calls w' = [CallCreateSimilarDirectory ["s"] ["d"];
                 CallCopyFunction ["s"; "f"] ["d"; "f"];
                 CallCopyFunction ["s"; "l"] ["d"; "l"]]
  /\ readlink w' ["d"; "l"] = Some ["s"]
  /\ file_content w' ["d"; "keep"] = Some "kept".
Proof. vm_compute. repeat split; reflexivity. Qed.

(** * Further properties of the module *)

(** ** Hashing *)

Lemma read_block_split (blocksize : N) (rest : string) :
  forall buf rest',
    read_block blocksize rest = (buf, rest') ->
    rest = (buf ++ rest')%string
    /\ (blocksize <> 0%N -> rest <> EmptyString -> buf <> EmptyString).
Proof.
  revert blocksize. induction rest as [|c rest IH]; intros blocksize buf rest';
    cbn [read_block].
  - intros [= <- <-]. split; [reflexivity|congruence].
  - destruct (N.eqb_spec blocksize 0) as [->|Hne].
    + intros [= <- <-]. split; [reflexivity|congruence].
    + destruct (read_block (N.pred blocksize) rest) as [buf0 rest0] eqn:Hb.
      intros [= <- <-]. destruct (IH _ _ _ Hb) as [-> _].
      split; [reflexivity|discriminate].
Qed.

Lemma string_app_cons (x : ascii) (a b : string) :
  (String x a ++ b)%string = String x (a ++ b)%string.
Proof. reflexivity. Qed.

Lemma string_app_assoc (a b c : string) :
  ((a ++ b) ++ c = a ++ (b ++ c))%string.
Proof.
  induction a as [|x a IH]; [reflexivity|].
  rewrite !string_app_cons. cbn [String.length]. congruence.
Qed.

Lemma string_app_nil_r (a : string) : (a ++ EmptyString)%string = a.
Proof.
  induction a as [|x a IH]; [reflexivity|].
  rewrite !string_app_cons. cbn [String.length]. congruence.
Qed.

Lemma string_length_app (a b : string) :
  String.length (a ++ b)%string = String.length a + String.length b.
Proof.
  induction a as [|x a IH]; [reflexivity|].
  rewrite string_app_cons. cbn [String.length]. rewrite IH. reflexivity.
Qed.

(** The loop over the blocks feeds the hasher the whole file. *)
Lemma update_loop_all (blocksize : N) :
  blocksize <> 0%N ->
  forall turns rest hasher,
    String.length rest < turns ->
    update_loop turns blocksize rest hasher = (hasher ++ rest)%string.
Proof.
  intros Hbs. induction turns as [|turns IH]; intros rest hasher Hlen; [lia|].
  cbn [update_loop].
  destruct (read_block blocksize rest) as [buf rest'] eqn:Hb.
  destruct (read_block_split _ _ _ _ Hb) as [-> Hbuf].
  destruct buf as [|c buf].
  - destruct rest' as [|c' rest'']; [now rewrite string_app_nil_r|].
    exfalso. apply (Hbuf Hbs); [discriminate|reflexivity].
  - rewrite IH; [now rewrite string_app_assoc|].
    rewrite string_length_app in Hlen. cbn in Hlen. lia.
Qed.

(** X1: for every name of a hash constructor and every file that can be
    read, calculate_hash returns the digest of the whole content of the
    file, however many blocks of 2^20 bytes the content takes, and it
    leaves the world as it is. *)
Theorem calculate_hash_whole_content :
  forall hexdigest_of p algorithm w content,
    hashlib_getattr algorithm = Some HashConstructor ->
    read_file p w = (w, Ok content) ->
    calculate_hash hexdigest_of p algorithm w
    = (w, Ok (hexdigest_of algorithm content)).
Proof.
  intros hd p alg w content Halg Hread.
  unfold calculate_hash. rewrite Halg. unfold bind. rewrite Hread.
  rewrite update_loop_all by (cbn; lia || discriminate). reflexivity.
Qed.

Lemma calculate_hash_whole_content_witness :
  calculate_hash (fun name data => (name ++ ":" ++ data)%string) ["f"]
    "sha3_384" foo_file
  = (foo_file, Ok "sha3_384:foo foo").
Proof.
  apply (calculate_hash_whole_content
           (fun name data => (name ++ ":" ++ data)%string) ["f"] "sha3_384"
           foo_file "foo foo"); reflexivity.
Defined.

(** ** Guards *)

Lemma resolve_step (w : world) (n : nat) (p t : path) :
  readlink w p = Some t -> resolve (S n) w p = resolve n w t.
Proof. intros H. cbn [resolve]. rewrite H. reflexivity. Qed.

(** X2: the guard on a path lets the region run, once and in an
    unchanged world, exactly when os.path.exists holds of the path;
    otherwise it raises RequiredPathDoesNotExist with the path and the
    caller's format, and the region does not run.  A symbolic link to
    nothing is a name that is there and yet is refused. *)
Theorem requires_path_exists_guard :
  forall p error_fmt region w,
    (exists_ w p = true ->
     with_context (requires_path_exists p error_fmt) region w = region w)
    /\ (exists_ w p = false ->
        with_context (requires_path_exists p error_fmt) region w
        = (w, Raise (RequiredPathDoesNotExist p error_fmt)))
    /\ (forall target,
          readlink w p = Some target -> dents w !! target = None ->
          lexists w p = true
          /\ with_context (requires_path_exists p error_fmt) region w
             = (w, Raise (RequiredPathDoesNotExist p error_fmt))).
Proof.
  intros p fmt region w.
  assert (Hno : exists_ w p = false ->
                with_context (requires_path_exists p fmt) region w
                = (w, Raise (RequiredPathDoesNotExist p fmt))).
  { intros H. unfold with_context, requires_path_exists, bind, get.
    rewrite H. reflexivity. }
  split; [|split; [exact Hno|]].
  - intros H. unfold with_context, requires_path_exists, bind, get, ret.
    rewrite H. cbn [negb]. destruct (region w) as [w' [[]|e]]; reflexivity.
  - intros target Hl Habs. split.
    + unfold lexists. destruct (readlink_is_Some w p target Hl) as [e ->].
      reflexivity.
    + apply Hno. unfold exists_, stat_entry.
      change MAXSYMLINKS with (S 39). rewrite (resolve_step w 39 p target Hl).
      rewrite resolve_no_link by (now apply readlink_absent).
      rewrite Habs. reflexivity.
Qed.

Lemma requires_path_exists_guard_witness :
  with_context (requires_path_exists ["alias"] None) (modify tick) with_links
  = (tick with_links, Ok tt)
  /\ with_context (requires_path_exists ["gone"] (Some "no {path}"))
       (modify tick) with_links
     = (with_links, Raise (RequiredPathDoesNotExist ["gone"]
                             (Some "no {path}")))
  /\ (lexists with_links ["dangling"] = true
      /\ with_context (requires_path_exists ["dangling"] None) (modify tick)
           with_links
         = (with_links, Raise (RequiredPathDoesNotExist ["dangling"] None))).
Proof.
  pose proof (requires_path_exists_guard ["alias"] None (modify tick)
                with_links) as (H1 & _ & _).
  pose proof (requires_path_exists_guard ["gone"] (Some "no {path}")
                (modify tick) with_links) as (_ & H2 & _).
  pose proof (requires_path_exists_guard ["dangling"] None (modify tick)
                with_links) as (_ & _ & H3).
  split; [apply H1; reflexivity|]. split; [apply H2; reflexivity|].
  apply (H3 ["gone"]); reflexivity.
Defined.

(** ** The path of a tool *)

Lemma command_path_among_Some (directories : list path) (root : path)
  (command_name : string) (w : world) (p : path) :
  command_path_among directories root command_name w = Some p ->
  exists before bin_directory after,
    directories = before ++ bin_directory :: after
    /\ p = root ++ bin_directory ++ [command_name]
    /\ exists_ w p = true
    /\ Forall (fun d => exists_ w (root ++ d ++ [command_name]) = false)
         before.
Proof.
  induction directories as [|d rest IH]; cbn [command_path_among];
    [discriminate|].
  destruct (exists_ w (root ++ d ++ [command_name])) eqn:He.
  - intros [= <-]. exists [], d, rest. repeat split; auto.
  - intros H. destruct (IH H) as (before & b & after & -> & -> & Hp & Hb).
    exists (d :: before), b, after. repeat split; auto.
Qed.

Lemma command_path_among_None (directories : list path) (root : path)
  (command_name : string) (w : world) :
  command_path_among directories root command_name w = None <->
  Forall (fun d => exists_ w (root ++ d ++ [command_name]) = false)
    directories.
Proof.
  induction directories as [|d rest IH]; cbn [command_path_among].
  - split; auto.
  - destruct (exists_ w (root ++ d ++ [command_name])) eqn:He.
    + split; [discriminate|]. intros H. inversion H. congruence.
    + rewrite IH. split; [intros H; constructor; assumption|].
      intros H. inversion H. assumption.
Qed.



(** X4: get_tool_path returns the name of the command as it was given
    when the process is neither a snap nor in a container, and when the
    command is in none of the six directories under the root; it finds
    the command whenever one of the six has it; and in a snap whose SNAP
    variable is not set it raises TypeError.  The snap comes before the
    container: in a snap the container's root is not looked at. *)
Theorem get_tool_path_fallback :
  forall env command_name w,
    (sandbox_root env = None -> is_snap env = false ->
     get_tool_path env command_name w = (w, Ok (Name command_name)))
    /\ (forall root,
          sandbox_root env = Some root ->
          Forall (fun d => exists_ w (root ++ d ++ [command_name]) = false)
            bin_directories ->
          get_tool_path env command_name w = (w, Ok (Name command_name)))
    /\ (forall root bin_directory,
          sandbox_root env = Some root ->
          In bin_directory bin_directories ->
          exists_ w (root ++ bin_directory ++ [command_name]) = true ->
          exists p, get_tool_path env command_name w = (w, Ok (FoundAt p)))
    /\ (is_snap env = true -> getenv_SNAP env = None ->
        get_tool_path env command_name w = (w, Raise TypeError)).
Proof.
  intros env cmd w. unfold get_tool_path, sandbox_root, bind, get, ret.
  repeat split.
  - intros Hroot Hsnap. rewrite Hsnap in *.
    destruct (is_docker_instance env); [discriminate Hroot|]. reflexivity.
  - intros root Hroot Hnone.
    apply command_path_among_None in Hnone.
    destruct (is_snap env).
    + rewrite Hroot. unfold _command_path_in_root. rewrite Hnone. reflexivity.
    + destruct (is_docker_instance env); [|discriminate].
      injection Hroot as <-. unfold _command_path_in_root.
      rewrite Hnone. reflexivity.
  - intros root d Hroot Hin Hex.
    assert (Hsome : exists p, _command_path_in_root root cmd w = Some p).
    { destruct (_command_path_in_root root cmd w) as [p|] eqn:Hp; [eauto|].
      apply command_path_among_None in Hp.
      rewrite List.Forall_forall in Hp. rewrite (Hp d Hin) in Hex.
      discriminate. }
    destruct Hsome as [p Hp]. exists p.
    destruct (is_snap env).
    + rewrite Hroot, Hp. reflexivity.
    + destruct (is_docker_instance env); [|discriminate].
      injection Hroot as <-. rewrite Hp. reflexivity.
  - intros -> ->. reflexivity.
Qed.

Lemma get_tool_path_fallback_witness :
  get_tool_path (mkEnvironment false false (Some ["snap"])) "patchelf"
    snap_world = (snap_world, Ok (Name "patchelf"))
  /\ get_tool_path in_snap "strip" snap_world = (snap_world, Ok (Name "strip"))
  /\ (exists p, get_tool_path in_snap "patchelf" snap_world
                = (snap_world, Ok (FoundAt p)))
  /\ get_tool_path (mkEnvironment true true None) "patchelf" snap_world
     = (snap_world, Raise TypeError).
Proof.
  pose proof (get_tool_path_fallback
                (mkEnvironment false false (Some ["snap"])) "patchelf"
                snap_world) as (H1 & _).
  pose proof (get_tool_path_fallback in_snap "strip" snap_world)
    as (_ & H2 & _).
  pose proof (get_tool_path_fallback in_snap "patchelf" snap_world)
    as (_ & _ & H3 & _).
  pose proof (get_tool_path_fallback (mkEnvironment true true None)
                "patchelf" snap_world) as (_ & _ & _ & H4).
  split; [apply H1; reflexivity|].
  split; [apply (H2 ["snap"]); [reflexivity|]|].
  { repeat constructor. }
  split; [apply (H3 ["snap"] ["bin"]); [reflexivity| |reflexivity]|].
  { cbn. tauto. }
  apply H4; reflexivity.
Defined.

(** ** Rewriting in place *)





(** ** Linking or copying one file *)

Lemma exists_dir (w : world) (p : path) (m : stat_result) :
  dents w !! p = Some (EDir m) -> exists_ w p = true.
Proof.
  intros H. unfold exists_, stat_entry.
  rewrite resolve_no_link by (unfold readlink; now rewrite H).
  rewrite H. reflexivity.
Qed.



Lemma parent_error_dir (w : world) (d : path) (md : stat_result) :
  dents w !! d = None -> dents w !! dirname d = Some (EDir md) ->
  parent_error w d = None.
Proof.
  intros Hd Hdir. unfold parent_error. destruct d as [|x d'].
  - cbn in Hdir. congruence.
  - rewrite Hdir. reflexivity.
Qed.

Lemma opens_as_regular (w : world) (s : path) i c m :
  dents w !! s = Some (ENode i) -> inodes w !! i = Some (mkInode (Reg c) m) ->
  opens_as w s = Some (s, i, c).
Proof.
  intros Hs Hi. unfold opens_as.
  rewrite resolve_no_link by (unfold readlink; now rewrite Hs, Hi).
  rewrite Hs, Hi. reflexivity.
Qed.



(** The fallback on a regular file, a free name and a refused link, step
    by step. *)
Section Fallback.

Variables (pol : policy) (s d : path) (follow : bool) (w : world).
Variables (i : nat) (c : string) (m md : stat_result).

Hypothesis Hs : dents w !! s = Some (ENode i).
Hypothesis Hi : inodes w !! i = Some (mkInode (Reg c) m).
Hypothesis Hd : dents w !! d = None.
Hypothesis Hdir : dents w !! dirname d = Some (EDir md).

Local Abbreviation j := (fresh_ino w).
Local Abbreviation w_new := (with_new_node pol d (Reg c) w).

Lemma fallback_ij : i <> j.
Proof using Hi. intros H. rewrite H, fresh_ino_absent in Hi. discriminate. Qed.

Lemma fallback_sd : s <> d.
Proof using Hs Hd. congruence. Qed.

Local Abbreviation copied := (copy_of w d).

Lemma copied_source (n : inode) (v : world) :
  copied n v ->
  dents v !! s = Some (ENode i) /\ inodes v !! i = Some (mkInode (Reg c) m).
Proof using Hs Hi Hd.
  intros [Hdv Hiv]. rewrite Hdv, Hiv. split.
  - rewrite lookup_insert_ne by (apply not_eq_sym, fallback_sd). exact Hs.
  - rewrite lookup_insert_ne by (apply not_eq_sym, fallback_ij). exact Hi.
Qed.

Lemma copied_destination (n : inode) (v : world) :
  copied n v -> dents v !! d = Some (ENode j) /\ inodes v !! j = Some n.
Proof.
  intros [Hdv Hiv]. rewrite Hdv, Hiv. split; apply lookup_insert_eq.
Qed.

Lemma copied_stat (n : inode) (v : world) (f : bool) :
  copied n v -> os_stat s f v = (v, Ok m).
Proof using Hs Hi Hd.
  intros Hc. destruct (copied_source n v Hc) as [Hsv Hiv].
  unfold os_stat.
  assert (Ht : target_of f v s = Some s).
  { destruct f; [|reflexivity]. cbn [target_of]. apply resolve_no_link.
    unfold readlink. now rewrite Hsv, Hiv. }
  rewrite Ht, Hsv. cbn [mbind option_bind meta_of]. rewrite Hiv. reflexivity.
Qed.

Lemma copied_target (b : inode_body) (mn : stat_result) (v : world) (f : bool) :
  (forall t, b <> Lnk t) ->
  copied (mkInode b mn) v -> target_of f v d = Some d.
Proof.
  intros Hb Hc. destruct (copied_destination _ v Hc) as [Hdv Hiv].
  destruct f; [|reflexivity]. cbn [target_of]. apply resolve_no_link.
  unfold readlink. rewrite Hdv, Hiv. destruct b; [reflexivity|].
  exfalso. eapply Hb. reflexivity.
Qed.

Lemma copied_update (mn : stat_result) (v : world)
  (g : stat_result -> stat_result) :
  copied (mkInode (Reg c) mn) v ->
  exists v', update_meta g d v = Some v'
             /\ copied (mkInode (Reg c) (g mn)) v'
             /\ clock v' = clock v /\ logs v' = logs v.
Proof.
  intros Hc. destruct (copied_destination _ v Hc) as [Hdv Hiv].
  unfold update_meta. rewrite Hdv, Hiv. eexists. split; [reflexivity|].
  destruct Hc as [Hc1 Hc2]. split; [|split; reflexivity].
  split; cbn [dents inodes set_inodes]; [exact Hc1|].
  rewrite Hc2. apply insert_insert_eq.
Qed.

Lemma copied_new : copied (mkInode (Reg c) (new_file_meta pol w)) w_new.
Proof. split; reflexivity. Qed.

Lemma fallback_copy2 :
  exists v mn,
    shutil_copy2 pol s d follow w = (v, Ok tt)
    /\ copied (mkInode (Reg c) mn) v /\ same_mode_times mn m
    /\ logs v = logs w.
Proof using Hs Hi Hd Hdir.
  assert (Hrs : readlink w s = None) by (unfold readlink; now rewrite Hs, Hi).
  assert (Hrd : readlink w d = None) by (now apply readlink_absent).
  destruct (copied_update (new_file_meta pol w) w_new
              (fun m0 => mkStat (st_uid m0) (st_gid m0) (st_mode m)
                           (st_atime m) (st_mtime m)) copied_new)
    as (v & Hup & Hcv & _ & Hlog).
  exists v. eexists. split; [|split; [exact Hcv|split; [|exact Hlog]]].
  2:{ repeat split. }
  unfold shutil_copy2, bind at 1, get at 1. rewrite (isdir_absent w d Hd).
  assert (Hcf : shutil_copyfile pol s d follow w = (w_new, Ok tt)).
  { unfold shutil_copyfile, bind at 1, get at 1.
    unfold samefile. rewrite (resolve_no_link _ w s Hrs).
    rewrite (resolve_no_link _ w d Hrd), Hs, Hd.
    unfold islink. rewrite Hrs, andb_false_r.
    unfold bind, read_file. rewrite (resolve_no_link _ w s Hrs), Hs, Hi.
    unfold write_file. rewrite (resolve_no_link _ w d Hrd), Hd.
    unfold create_node. rewrite (parent_error_dir w d md Hd Hdir).
    reflexivity. }
  unfold bind at 1. rewrite Hcf.
  unfold shutil_copystat, bind at 1, get at 1.
  assert (Hls : islink w_new s = false).
  { destruct (copied_source _ _ copied_new) as [H1 H2].
    unfold islink, readlink. now rewrite H1, H2. }
  rewrite Hls. cbn [andb negb]. rewrite orb_true_r.
  unfold bind. rewrite (copied_stat _ w_new true copied_new).
  rewrite (copied_target (Reg c) _ w_new true ltac:(discriminate) copied_new).
  rewrite Hup. reflexivity.
Qed.

Lemma fallback_chown (mn : stat_result) (v : world) (uid gid : nat) :
  copied (mkInode (Reg c) mn) v ->
  exists v' mn',
    try_except (os_chown pol d uid gid follow) is_PermissionError
      (fun _ => modify (add_log DEBUG d)) v = (v', Ok tt)
    /\ copied (mkInode (Reg c) mn') v' /\ same_mode_times mn' mn
    /\ (if may_chown pol d
        then st_uid mn' = uid /\ st_gid mn' = gid /\ logs v' = logs v
        else logs v' = logs v ++ [(DEBUG, d)]).
Proof.
  intros Hc. destruct (copied_destination _ v Hc) as [Hdv Hiv].
  unfold try_except, os_chown.
  rewrite (copied_target (Reg c) mn v follow ltac:(discriminate) Hc), Hdv.
  destruct (may_chown pol d).
  - destruct (copied_update mn v
                (fun m0 => mkStat uid gid (st_mode m0) (st_atime m0)
                             (st_mtime m0)) Hc) as (v' & Hup & Hcv & _ & Hlog).
    rewrite Hup. exists v'. eexists. split; [reflexivity|].
    split; [exact Hcv|]. repeat split. exact Hlog.
  - cbn [is_PermissionError modify]. exists (add_log DEBUG d v), mn.
    split; [reflexivity|]. split; [exact Hc|]. repeat split.
Qed.

(** The whole fallback. *)
Lemma link_or_copy_falls_back :
  may_link pol s d = false ->
  exists w1 mn,
    link_or_copy pol s d follow w = (w1, Ok tt)
    /\ copied (mkInode (Reg c) mn) w1 /\ same_mode_times mn m
    /\ (if may_chown pol d
        then st_uid mn = st_uid m /\ st_gid mn = st_gid m
             /\ logs w1 = logs w
        else logs w1 = logs w ++ [(DEBUG, d)]).
Proof using Hs Hi Hd Hdir.
  intros Hlink.
  assert (Hrl : readlink w s = None) by (unfold readlink; now rewrite Hs, Hi).
  assert (Hsp : (if follow then realpath w s else s) = s).
  { destruct follow; [|reflexivity].
    apply (realpath_resolve w 0). cbn. now rewrite Hrl. }
  destruct fallback_copy2 as (v & mn & Hcp & Hcv & Hmt & Hlogv).
  destruct (fallback_chown mn v (st_uid m) (st_gid m) Hcv)
    as (v' & mn' & Hch & Hcv' & Hmt' & Hown).
  exists v', mn'. split; [|split; [exact Hcv'|split]].
  - unfold link_or_copy, try_except at 1. unfold bind at 1, get at 1. cbv zeta.
    rewrite Hsp, (exists_dir w _ md Hdir). cbn [negb].
    unfold bind at 1, ret at 1. unfold os_link at 1. rewrite Hs, Hd.
    rewrite (parent_error_dir w d md Hd Hdir), Hlink. cbn [is_OSError].
    unfold bind at 1. unfold try_except at 1, os_unlink. rewrite Hd.
    cbn [is_OSError ret]. unfold bind at 1. rewrite Hcp.
    unfold bind at 1. rewrite (copied_stat _ v follow Hcv).
    unfold bind at 1. rewrite (copied_stat _ v follow Hcv).
    exact Hch.
  - destruct Hmt as (? & ? & ?), Hmt' as (? & ? & ?).
    repeat split; congruence.
  - destruct (may_chown pol d); [|rewrite <- Hlogv; exact Hown].
    rewrite <- Hlogv. exact Hown.
Qed.

End Fallback.



(** ** Cloning a directory *)



Lemma os_mkdir_keeps (pol : policy) (w : world) (q : path) :
  preserves (keeps_entries pol w) (os_mkdir pol q).
Proof.
  intros v v' r (H1 & H2 & H3). unfold os_mkdir.
  destruct (dents v !! q) eqn:Hq; [intros [= <- _]; repeat split; auto|].
  destruct (parent_error v q); intros [= <- _]; repeat split; auto.
  intros p. cbn [dents tick set_dents].
  destruct (decide (p = q)) as [->|Hne].
  - rewrite lookup_insert_eq. right. split.
    + destruct (H1 q) as [<-|[? _]]; auto.
    + eexists. split; [reflexivity|]. repeat split.
  - rewrite lookup_insert_ne by congruence. apply H1.
Qed.

Lemma makedirs_rev_keeps (pol : policy) (w : world) (rname : list string) :
  preserves (keeps_entries pol w) (makedirs_rev pol rname).
Proof.
  induction rname as [|a rhead IH]; cbn [makedirs_rev].
  - apply preserves_bind; [apply preserves_ret|]. intros _.
    apply preserves_try_except; [apply os_mkdir_keeps|].
    intros e. apply preserves_bind; [apply preserves_get|]. intros v.
    destruct (isdir v _); [apply preserves_ret|apply preserves_raise].
  - apply preserves_bind.
    + apply preserves_bind; [apply preserves_get|]. intros v.
      destruct (exists_ v (rev rhead)); [apply preserves_ret|].
      apply preserves_try_except; [exact IH|intros; apply preserves_ret].
    + intros _.
      apply preserves_try_except; [apply os_mkdir_keeps|].
      intros e. apply preserves_bind; [apply preserves_get|]. intros v.
      destruct (isdir v _); [apply preserves_ret|apply preserves_raise].
Qed.

Lemma isdir_dir (w : world) (p : path) (m : stat_result) :
  dents w !! p = Some (EDir m) -> isdir w p = true.
Proof.
  intros H. rewrite isdir_no_link by (unfold readlink; now rewrite H).
  rewrite H. reflexivity.
Qed.

Lemma mkdir_attempt_post (pol : policy) (name : path) (w w1 : world) :
  try_except (os_mkdir pol name) is_OSError
    (fun e => v <- get ;; if isdir v name then ret tt else raise e) w
  = (w1, Ok tt) ->
  isdir w1 name = true.
Proof.
  unfold try_except, os_mkdir.
  destruct (dents w !! name) eqn:Hn.
  - cbn [is_OSError]. unfold bind, get.
    destruct (isdir w name) eqn:Hd; [|discriminate].
    intros [= <-]. exact Hd.
  - destruct (parent_error w name) as [e|] eqn:Hp.
    + assert (He : is_OSError e = true).
      { unfold parent_error in Hp. destruct name; [injection Hp as <-; reflexivity|].
        destruct (dents w !! dirname (s :: name)) as [[|]|];
          try discriminate; injection Hp as <-; reflexivity. }
      rewrite He. unfold bind, get.
      destruct (isdir w name) eqn:Hd; [|discriminate].
      intros [= <-]. exact Hd.
    + intros [= <-]. eapply isdir_dir. cbn [dents tick set_dents].
      apply lookup_insert_eq.
Qed.

Lemma makedirs_rev_post (pol : policy) (rname : list string) (w w1 : world) :
  makedirs_rev pol rname w = (w1, Ok tt) -> isdir w1 (rev rname) = true.
Proof.
  destruct rname as [|a rhead]; cbn [makedirs_rev]; unfold bind at 1.
  - cbn [ret]. apply mkdir_attempt_post.
  - destruct ((v <- get ;; _) w) as [w0 [[]|e]]; [|discriminate].
    apply mkdir_attempt_post.
Qed.

Lemma keeps_entries_refl (pol : policy) (w : world) : keeps_entries pol w w.
Proof. repeat split. auto. Qed.



Lemma shutil_copystat_at (s d : path) (follow : bool)
  (v v' : world) (m : stat_result) (r : result unit) :
  dents v !! d = Some (EDir m) ->
  shutil_copystat s d follow v = (v', r) ->
  inodes v' = inodes v /\ forall p, p <> d -> dents v' !! p = dents v !! p.
Proof.
  intros Hd. unfold shutil_copystat, bind, get.
  destruct (os_stat s _ v) as [v1 [st|e]] eqn:Hst;
    apply os_stat_state in Hst; subst v1; [|intros [= <- _]; auto].
  assert (Ht : forall b, target_of b v d = Some d).
  { intros [|]; cbn [target_of]; [|reflexivity].
    apply resolve_no_link. unfold readlink. now rewrite Hd. }
  rewrite Ht. unfold update_meta. rewrite Hd. intros [= <- _].
  split; [reflexivity|]. intros p Hp. cbn [dents set_dents].
  now rewrite lookup_insert_ne by congruence.
Qed.



(** X13: [create_similar_directory] looks at the source before it makes
    anything: when the source cannot be examined, the call raises the
    error of [os.stat], an OSError, and the file system is as it was; no
    directory has been made. *)
Theorem create_similar_directory_source_first :
  forall pol source destination follow_symlinks w w' r,
    (target_of follow_symlinks w source
       ≫= fun q => dents w !! q ≫= meta_of w) = None ->
    create_similar_directory pol source destination follow_symlinks w
    = (w', r) ->
    fs_of w' = fs_of w
    /\ exists e, r = Raise e /\ is_OSError e = true.
Proof.
  intros pol s d follow w w' r Hnone.
  unfold create_similar_directory.
  unfold bind at 1. cbn [modify].
  set (w0 := add_call _ w).
  unfold bind at 1. unfold os_stat.
  assert (Ht : target_of follow w0 s = target_of follow w s).
  { destruct follow; cbn [target_of]; [|reflexivity].
    now apply resolve_same_fs. }
  rewrite Ht.
  destruct (target_of follow w s) as [q|]; cbn [mbind option_bind] in Hnone.
  - change (dents w0 !! q ≫= meta_of w0) with (dents w !! q ≫= meta_of w).
    rewrite Hnone. intros [= <- <-]. split; [reflexivity|]. eauto.
  - intros [= <- <-]. split; [reflexivity|]. eauto.
Qed.

Lemma create_similar_directory_source_first_witness :
  let run := create_similar_directory permissive ["nowhere"] ["d"; "a"] false
               staging in
  fs_of (fst run) = fs_of staging
  /\ exists e, snd run = Raise e /\ is_OSError e = true.
Proof.
  apply (create_similar_directory_source_first permissive ["nowhere"]
           ["d"; "a"] false staging); [reflexivity|].
  apply surjective_pairing.
Defined.

(** ** Rewriting the files of a tree, as a whole *)

(** X14: A pass of [replace_in_file], whatever its outcome, makes,
    removes and renames nothing; it leaves every inode as it was that has
    no name below the directory matching the file pattern; and it leaves
    every symbolic link as it was. *)
Theorem replace_in_file_frame :
  forall pol fuel directory file_pattern search_pattern replacement w w' r,
    replace_in_file pol fuel directory file_pattern search_pattern
      replacement w = (w', r) ->
    dents w' = dents w
    /\ (forall i, ~ named_match directory file_pattern w i ->
          inodes w' !! i = inodes w !! i)
    /\ (forall i t m, inodes w !! i = Some (mkInode (Lnk t) m) ->
          inodes w' !! i = Some (mkInode (Lnk t) m)).
Proof.
  intros pol fuel directory fpat spat repl w w' r Hrun.
  set (Inv := fun v : world =>
         dents v = dents w
         /\ (forall i, ~ named_match directory fpat w i ->
               inodes v !! i = inodes w !! i)
         /\ (forall i t m, inodes w !! i = Some (mkInode (Lnk t) m) ->
               inodes v !! i = Some (mkInode (Lnk t) m))).
  assert (Hsame : forall v v' : world,
             dents v' = dents v -> inodes v' = inodes v -> Inv v -> Inv v').
  { intros v v' Hd Hi (H1 & H2 & H3). unfold Inv. rewrite Hd, Hi. auto. }
  change (Inv w').
  eapply (os_walk_invariant Inv (fun root => directory `prefix_of` root)
            (fun _ _ => True) (fun _ _ => True));
    [| | | | |intros _; reflexivity|exact Hrun]; auto.
  - intros root dirs files Hroot _ _. apply preserves_for_each.
    intros file_name v v' r' HI.
    destruct (re_match fpat file_name) eqn:Hmatch;
      [|intros [= <- _]; exact HI].
    unfold bind, get.
    destruct (islink v (join root file_name)) eqn:Hlink; cbn [negb];
      [intros [= <- _]; exact HI|].
    rewrite search_and_replace_contents_cases. cbv zeta.
    set (v0 := add_call _ v).
    assert (HI0 : Inv v0) by (apply (Hsame v); auto).
    rewrite resolve_no_link
      by (unfold islink in Hlink; destruct (readlink v _); congruence).
    destruct (dents v !! join root file_name) as [[m|i]|] eqn:Hi;
      try (intros [= <- _]; exact HI0).
    destruct (may_open_rw pol _);
      [|intros [= <- _]; apply (Hsame v0); auto].
    destruct (inodes v !! i) as [[[c|t] m]|] eqn:Hn;
      try (intros [= <- _]; exact HI0).
    destruct (decode pol c) as [text|]; [|intros [= <- _]; exact HI0].
    destruct (bool_decide _); intros [= <- _]; [|exact HI0].
    rewrite (rewrite_inode_reg _ _ c m) by exact Hn.
    destruct HI as (H1 & H2 & H3). unfold Inv.
    cbn [dents inodes tick set_inodes add_call v0].
    split; [exact H1|]. split.
    + intros j Hj. rewrite lookup_insert_ne; [auto|].
      intros <-. apply Hj. exists root, file_name. rewrite <- H1. auto.
    + intros j t mt Hj. rewrite lookup_insert_ne; [eauto|].
      intros <-. rewrite (H3 _ _ _ Hj) in Hn. discriminate.
  - intros top d _ Htop _ _ _. unfold join. now apply prefix_app_r.
  - repeat split; auto.
Qed.

Lemma replace_in_file_frame_witness :
  let w' := fst (replace_in_file permissive 5 ["t"] (literal "b")
                   (literal "foo") "bar" mixed_tree) in
  dents w' = dents mixed_tree
  /\ (forall i, ~ named_match ["t"] (literal "b") mixed_tree i ->
        inodes w' !! i = inodes mixed_tree !! i)
  /\ (forall i t m, inodes mixed_tree !! i = Some (mkInode (Lnk t) m) ->
        inodes w' !! i = Some (mkInode (Lnk t) m)).
Proof.
  apply (replace_in_file_frame permissive 5 ["t"] (literal "b")
           (literal "foo") "bar" mixed_tree _
           (snd (replace_in_file permissive 5 ["t"] (literal "b")
                   (literal "foo") "bar" mixed_tree))).
  apply surjective_pairing.
Defined.

Lemma for_each_completes {A} (Q : world -> Prop) (l : list A)
  (body : A -> M unit) :
  (forall x, x ∈ l -> forall v, Q v ->
     exists v', body x v = (v', Ok tt) /\ Q v') ->
  forall v, Q v -> exists v', for_each l body v = (v', Ok tt) /\ Q v'.
Proof.
  induction l as [|x l IH]; intros Hb v HQ; cbn [for_each].
  - exists v. split; [reflexivity|exact HQ].
  - destruct (Hb x (list_elem_of_here _ _) v HQ) as (v1 & E1 & HQ1).
    unfold bind. rewrite E1. apply IH; [|exact HQ1].
    intros y Hy. apply Hb. now apply list_elem_of_further.
Qed.

Lemma same_names_same_fs (w v v' : world) :
  dents v' = dents v -> inodes v' = inodes v ->
  same_names w v -> same_names w v'.
Proof.
  intros Hd Hi (H1 & H2 & H3). split; [congruence|]. split.
  - intros p. rewrite <- H2. now apply readlink_same_fs.
  - unfold no_dangling. rewrite Hd, Hi. exact H3.
Qed.

(** One file of the pass: on a name that is there, and that is a link or
    no directory, nothing is raised. *)
Lemma replace_in_files_completes (pol : policy) (fpat spat : Pattern)
  (repl : string) (root : path) (w : world) (files : list string) :
  Forall (fun n => lexists w (join root n) = true
                   /\ isdir w (join root n) = false) files ->
  forall v, same_names w v ->
    exists v', replace_in_files pol fpat spat repl root files v = (v', Ok tt)
               /\ same_names w v'.
Proof.
  intros Hfiles. unfold replace_in_files.
  apply for_each_completes. intros file_name Hin v HS.
  apply List.Forall_forall with (x := file_name) in Hfiles;
    [|now apply list_elem_of_In].
  destruct Hfiles as [Hex Hnd].
  destruct (re_match fpat file_name); [|exists v; split; [reflexivity|exact HS]].
  unfold bind, get.
  destruct (islink v (join root file_name)) eqn:Hlink; cbn [negb];
    [exists v; split; [reflexivity|exact HS]|].
  assert (Hrl : readlink v (join root file_name) = None).
  { unfold islink in Hlink. destruct (readlink v _); congruence. }
  rewrite search_and_replace_contents_cases. cbv zeta.
  set (v0 := add_call _ v).
  assert (HS0 : same_names w v0) by (apply (same_names_same_fs w v); auto).
  rewrite (resolve_no_link _ _ _ Hrl).
  destruct HS as (H1 & H2 & H3).
  rewrite H2 in Hrl. rewrite (isdir_no_link _ _ Hrl) in Hnd.
  unfold lexists in Hex. rewrite H1.
  destruct (dents w !! join root file_name) as [[m|i]|] eqn:Hi;
    try discriminate.
  destruct (may_open_rw pol _);
    [|eexists; split; [reflexivity|apply (same_names_same_fs w v0); auto]].
  destruct (H3 (join root file_name) i) as [[b m] Hn]; [congruence|].
  rewrite Hn. destruct b as [c|t].
  2:{ rewrite <- H2 in Hrl. unfold readlink in Hrl.
      rewrite H1, Hi, Hn in Hrl. discriminate. }
  destruct (decode pol c) as [text|]; [|eauto].
  destruct (bool_decide _); [|eauto].
  eexists. split; [reflexivity|].
  split; [|split].
  - rewrite (rewrite_inode_reg _ _ c m) by exact Hn. exact H1.
  - intros p. rewrite (readlink_rewrite_inode _ _ c m) by exact Hn.
    apply HS0.
  - rewrite (rewrite_inode_reg _ _ c m) by exact Hn.
    intros p j Hp. cbn [dents inodes tick set_inodes add_call v0] in *.
    destruct (decide (j = i)) as [->|Hne].
    + rewrite lookup_insert_eq. eauto.
    + rewrite lookup_insert_ne by congruence. eapply H3. exact Hp.
Qed.

Lemma isdir_same_names (w v : world) (p : path) :
  same_names w v -> isdir v p = isdir w p.
Proof.
  intros (H1 & H2 & _). unfold isdir, stat_entry.
  rewrite (resolve_ext w v H2), H1. reflexivity.
Qed.

Lemma os_walk_completes (pol : policy) (fpat spat : Pattern) (repl : string)
  (w : world) :
  forall fuel top v,
    same_names w v -> 0 < fuel ->
    (forall p, is_Some (dents w !! p) -> length p < length top + fuel) ->
    exists v',
      os_walk fuel top
        (fun root _ files => replace_in_files pol fpat spat repl root files) v
      = (v', Ok tt)
      /\ same_names w v'.
Proof.
  induction fuel as [|fuel IH]; intros top v HS Hpos Hdepth; [lia|].
  cbn [os_walk]. unfold bind at 1, get at 1.
  destruct (scandir v top) as [[dirs files]|] eqn:Hscan;
    [|exists v; split; [reflexivity|exact HS]].
  apply scandir_Some in Hscan as (_ & Hdirs & Hfiles).
  destruct (replace_in_files_completes pol fpat spat repl top w files)
    with (v := v) as (v1 & E1 & HS1); [|exact HS|].
  { eapply Forall_impl; [exact Hfiles|]. cbv beta. intros n [Hex Hnd].
    rewrite (isdir_same_names w v) in Hnd by exact HS.
    unfold lexists in *. destruct HS as (H1 & _). rewrite H1 in Hex. auto. }
  unfold bind. rewrite E1.
  apply for_each_completes; [|exact HS1].
  intros d Hd u HSu. unfold descend, bind, get.
  destruct (islink u (join top d)) eqn:Hlink;
    [exists u; split; [reflexivity|exact HSu]|].
  apply List.Forall_forall with (x := d) in Hdirs;
    [|now apply list_elem_of_In].
  destruct Hdirs as [_ Hdir].
  rewrite (isdir_same_names w v) in Hdir by exact HS.
  assert (Hrl : readlink w (join top d) = None).
  { destruct HSu as (_ & H2 & _). rewrite <- H2.
    unfold islink in Hlink. destruct (readlink u _); congruence. }
  rewrite (isdir_no_link _ _ Hrl) in Hdir.
  assert (Hlen : length (join top d) < length top + S fuel).
  { apply Hdepth. destruct (dents w !! join top d); [eauto|discriminate]. }
  unfold join in Hlen. rewrite length_app in Hlen. cbn [length] in Hlen.
  apply IH; [exact HSu|lia|].
  intros p Hp. apply Hdepth in Hp. unfold join. rewrite length_app.
  cbn [length]. lia.
Qed.


Lemma depth_below_b_sound (w : world) (n : nat) :
  depth_below_b w n = true ->
  forall p, is_Some (dents w !! p) -> length p < n.
Proof.
  unfold depth_below_b. rewrite forallb_forall. intros H p [e Hp].
  specialize (H (p, e)). cbn in H. apply Nat.ltb_lt, H.
  apply list_elem_of_In, elem_of_map_to_list. exact Hp.
Qed.


(** ** The copy of a tree replicates its files *)

Lemma keeps_data_refl (v : world) : keeps_data v v.
Proof. intros j n Hj. eauto. Qed.

Lemma keeps_data_trans (u v w : world) :
  keeps_data u v -> keeps_data v w -> keeps_data u w.
Proof.
  intros H1 H2 j n Hj. destruct (H1 j n Hj) as (n1 & Hn1 & E1).
  destruct (H2 j n1 Hn1) as (n2 & Hn2 & E2). exists n2. split; congruence.
Qed.

Lemma keeps_data_inodes (v v' : world) :
  inodes v' = inodes v -> keeps_data v v'.
Proof. intros H j n Hj. rewrite H. eauto. Qed.

Lemma keeps_data_fmap (v v' : world) :
  (forall i, data_of <$> inodes v' !! i = data_of <$> inodes v !! i) ->
  keeps_data v v'.
Proof.
  intros H j n Hj. specialize (H j). rewrite Hj in H.
  destruct (inodes v' !! j) as [n'|]; [|discriminate].
  exists n'. split; [reflexivity|]. cbn in H. congruence.
Qed.

Lemma readlink_shape_data (v v' : world) :
  (forall q, shape (dents v' !! q) = shape (dents v !! q)) ->
  (forall i, data_of <$> inodes v' !! i = data_of <$> inodes v !! i) ->
  forall p, readlink v' p = readlink v p.
Proof.
  intros Hs Hd p. unfold readlink. specialize (Hs p).
  destruct (dents v' !! p) as [[m|i]|], (dents v !! p) as [[m'|i']|];
    cbn in Hs; try congruence.
  injection Hs as ->. specialize (Hd i').
  destruct (inodes v' !! i') as [[b1 m1]|], (inodes v !! i') as [[b2 m2]|];
    cbn in Hd; try congruence.
  unfold data_of in Hd. cbn in Hd. injection Hd as -> _ _ _. reflexivity.
Qed.

Lemma isdir_ext (v v' : world) (p : path) :
  (forall q, shape (dents v' !! q) = shape (dents v !! q)) ->
  (forall q, readlink v' q = readlink v q) ->
  isdir v' p = isdir v p.
Proof.
  intros Hs Hr. unfold isdir, stat_entry. rewrite (resolve_ext v v' Hr).
  destruct (resolve MAXSYMLINKS v p) as [q|]; [|reflexivity].
  specialize (Hs q).
  destruct (dents v' !! q) as [[|]|], (dents v !! q) as [[|]|];
    cbn in Hs; congruence.
Qed.

Lemma readlink_keeps_entries (pol : policy) (v v' : world) (p : path) :
  keeps_entries pol v v' -> readlink v' p = readlink v p.
Proof.
  intros (K1 & K2 & _). unfold readlink. rewrite K2.
  destruct (K1 p) as [->|(-> & m & -> & _)]; reflexivity.
Qed.

Lemma isdir_inv (v : world) (p : path) :
  isdir v p = true ->
  exists q m, resolve MAXSYMLINKS v p = Some q /\ dents v !! q = Some (EDir m).
Proof.
  unfold isdir, stat_entry.
  destruct (resolve MAXSYMLINKS v p) as [q|]; [|discriminate].
  destruct (dents v !! q) as [[m|]|] eqn:Hq; try discriminate. eauto.
Qed.

(** Cloning a directory that is no link changes the data of no inode. *)
Lemma create_similar_directory_keeps_data (pol : policy) (s d : path)
  (v v' : world) (r : result unit) :
  islink v s = false ->
  create_similar_directory pol s d false v = (v', r) ->
  keeps_data v v'.
Proof.
  intros Hs. unfold create_similar_directory.
  unfold bind at 1. cbn [modify].
  set (w0 := add_call _ v).
  unfold bind at 1.
  destruct (os_stat s false w0) as [u [st|e]] eqn:Hst;
    apply os_stat_state in Hst; subst u;
    [|intros [= <- _]; apply keeps_data_inodes; reflexivity].
  unfold bind at 1.
  destruct (os_makedirs pol d w0) as [w1 [[]|e]] eqn:Hmk;
    pose proof (makedirs_rev_keeps pol w0 (rev d) w0 w1 _
                  (keeps_entries_refl pol w0) Hmk) as HK;
    assert (HK2 : inodes w1 = inodes v) by apply HK;
    [|intros [= <- _]; apply keeps_data_inodes, HK2].
  apply makedirs_rev_post in Hmk. rewrite rev_involutive in Hmk.
  unfold bind at 1.
  destruct (try_except _ _ _ w1) as [w2 [[]|e]] eqn:Hch;
    apply chown_attempt_data in Hch as [Hshape Hdata].
  2:{ intros [= <- _]. apply (keeps_data_trans _ w1).
      - apply keeps_data_inodes, HK2.
      - apply keeps_data_fmap, Hdata. }
  pose proof (readlink_shape_data w1 w2 Hshape Hdata) as Hrl.
  intros Hcp. apply (keeps_data_trans _ w1);
    [apply keeps_data_inodes, HK2|].
  apply (keeps_data_trans _ w2); [apply keeps_data_fmap, Hdata|].
  apply keeps_data_inodes.
  revert Hcp. unfold shutil_copystat, bind, get.
  assert (Hl2 : islink w2 s = false).
  { unfold islink. rewrite Hrl, (readlink_keeps_entries pol w0 w1 s HK).
    exact Hs. }
  rewrite Hl2. cbn [andb negb orb].
  destruct (os_stat s true w2) as [u [st2|e]] eqn:Hst2;
    apply os_stat_state in Hst2; subst u; [|intros [= <- _]; reflexivity].
  cbn [target_of].
  rewrite <- (isdir_ext w1 w2 d Hshape Hrl) in Hmk.
  apply isdir_inv in Hmk as (q & m & -> & Hq).
  unfold update_meta. rewrite Hq. intros [= <- _]. reflexivity.
Qed.

Lemma os_link_ok_absent (pol : policy) (a d : path) (w w' : world) :
  os_link pol a d w = (w', Ok tt) ->
  exists i, dents w !! a = Some (ENode i) /\ dents w !! d = None
            /\ w' = set_dents (insert d (ENode i)) w.
Proof.
  unfold os_link.
  destruct (dents w !! a) as [[m|i]|]; try discriminate.
  destruct (dents w !! d); try discriminate.
  destruct (parent_error w d); try discriminate.
  destruct (may_link pol a d); [|discriminate].
  intros [= <-]. eauto.
Qed.

(** The attempt to link, from a directory that is no link: the frame,
    and the data of every inode. *)
Lemma link_attempt_summary (pol : policy) (sp s' d : path) (w w1 : world)
  (r : result unit) :
  islink w s' = false ->
  ((if negb (exists_ w (dirname d)) then
      create_similar_directory pol s' (dirname d) false
    else ret tt) ;;;
   os_link pol sp d) w = (w1, r) ->
  exists wa, link_frame w (dirname d) wa
             /\ keeps_data w wa
             /\ ((exists e, r = Raise e /\ w1 = wa)
                 \/ (r = Ok tt /\ os_link pol sp d wa = (w1, Ok tt))).
Proof.
  intros Hs. unfold bind.
  destruct ((if negb (exists_ w (dirname d))
             then create_similar_directory pol s' (dirname d) false
             else ret tt) w) as [wa [[]|e]] eqn:Hpre.
  - assert (HF : link_frame w (dirname d) wa /\ keeps_data w wa).
    { destruct (negb (exists_ w (dirname d))).
      - split.
        + eapply create_similar_directory_Frame; [|exact Hpre].
          apply Frame_initial.
        + eapply create_similar_directory_keeps_data; eassumption.
      - injection Hpre as <-. split; [apply Frame_initial|].
        apply keeps_data_refl. }
    intros Hl. exists wa. split; [apply HF|]. split; [apply HF|].
    destruct r as [[]|e]; [right; auto|left].
    apply os_link_raise in Hl as ->. eauto.
  - intros [= <- <-]. exists wa.
    destruct (negb (exists_ w (dirname d))); [|discriminate Hpre].
    split; [|split; [|left; eauto]].
    + eapply create_similar_directory_Frame; [|exact Hpre].
      apply Frame_initial.
    + eapply create_similar_directory_keeps_data; eassumption.
Qed.

(** A successful copy2 of a name itself onto a name that is not there:
    the one new name, the one new inode. *)
Lemma shutil_copy2_new_world (pol : policy) (s d : path) (w w3 : world) :
  dents w !! d = None -> no_dangling w ->
  shutil_copy2 pol s d false w = (w3, Ok tt) ->
  exists i b m m',
    dents w !! s = Some (ENode i)
    /\ inodes w !! i = Some (mkInode b m)
    /\ dents w3 = <[d := ENode (fresh_ino w)]> (dents w)
    /\ inodes w3 = <[fresh_ino w := mkInode b m']> (inodes w)
    /\ st_mode m' = st_mode m /\ st_atime m' = st_atime m
    /\ st_mtime m' = st_mtime m.
Proof.
  intros Hd Hnd. unfold shutil_copy2, bind at 1, get at 1.
  rewrite (isdir_absent w d Hd). unfold bind at 1.
  destruct (shutil_copyfile pol s d false w) as [wa [[]|e]] eqn:Hcf;
    [|discriminate].
  intros Hcs. revert Hcf. unfold shutil_copyfile, bind at 1, get at 1.
  destruct (samefile w s d); [discriminate|].
  cbn [negb andb].
  destruct (islink w s) eqn:Hl.
  - destruct (islink_inv w s Hl) as (i & t & m & Hs & Hi).
    unfold readlink. rewrite Hs, Hi. unfold os_symlink. rewrite Hd.
    intros ->%create_node_ok.
    destruct (copystat_after_create pol d (Lnk t) w Hd Hnd s s false i m w3
                Hs Hi) as (m' & H1 & H2 & H3); [left; eauto|exact Hcs|].
    exists i, (Lnk t), m, m'. repeat split; try tauto.
  - unfold bind. destruct (read_file s w) as [w_ [c|e]] eqn:Hr; [|discriminate].
    pose proof (read_file_state _ _ _ _ Hr) as ->.
    apply read_file_ok in Hr as (q & i & m & Hres & Hq & Hi).
    unfold write_file. rewrite resolve_no_link by (now apply readlink_absent).
    rewrite Hd. intros ->%create_node_ok.
    destruct (copystat_after_create pol d (Reg c) w Hd Hnd s q false i m w3
                Hq Hi) as (m' & H1 & H2 & H3); [right; eauto|exact Hcs|].
    assert (q = s) as ->.
    { unfold islink in Hl. destruct (readlink w s) eqn:Hrl; [discriminate|].
      rewrite resolve_no_link in Hres by exact Hrl. congruence. }
    exists i, (Reg c), m, m'. repeat split; try tauto.
Qed.

(** What a successful [link_or_copy] onto a name that is no directory has
    done: beside the destination, names have their shapes or are new
    directories above it; every inode that was there has its data; and
    the destination names a replica of the source. *)
Lemma link_or_copy_ok_summary (pol : policy) (s d : path) (v v' : world) :
  no_dangling v ->
  is_dir_entry (dents v !! d) = false ->
  islink v (dirname s) = false ->
  link_or_copy pol s d false v = (v', Ok tt) ->
  (forall q, q <> d ->
     shape (dents v' !! q) = shape (dents v !! q)
     \/ (q `prefix_of` dirname d /\ q <> [] /\ dents v !! q = None
         /\ is_dir_entry (dents v' !! q) = true))
  /\ keeps_data v v'
  /\ no_dangling v'
  /\ exists i n j n',
       dents v !! s = Some (ENode i) /\ inodes v !! i = Some n
       /\ dents v' !! d = Some (ENode j) /\ inodes v' !! j = Some n'
       /\ data_of n' = data_of n.
Proof.
  intros Hnd Hnotdir Hsl Hrun.
  unfold link_or_copy in Hrun.
  apply try_except_ok in Hrun as [Htry|(w1 & e & Htry & _ & Hrun)];
    unfold bind at 1, get at 1 in Htry; cbv zeta in Htry;
    apply (link_attempt_summary pol s (dirname s) d v) in Htry
      as (wa & HF & HD & Hcase); try exact Hsl;
    destruct Hcase as [(e' & He' & ->)|[He' Hlink]];
    try discriminate He'.
  - (* the hard link *)
    apply os_link_ok_absent in Hlink as (i & Hsa & Hda & ->).
    pose proof (Frame_no_dangling v (dirname d) wa HF Hnd) as Hnda.
    destruct (Hnda _ _ Hsa) as [na Hna].
    apply (Frame_node v (dirname d) wa _ i HF) in Hsa as Hs0.
    destruct (Hnd _ _ Hs0) as [n0 Hn0].
    destruct (HD _ _ Hn0) as (n1 & Hn1 & E1).
    split; [|split; [|split]].
    + intros q Hq. cbn [dents set_dents].
      rewrite lookup_insert_ne by congruence. apply (lf_shape _ _ _ HF).
    + exact HD.
    + intros p j. cbn [dents inodes set_dents].
      destruct (decide (d = p)) as [<-|Hne].
      * rewrite lookup_insert_eq. intros [= <-]. eauto.
      * rewrite lookup_insert_ne by exact Hne. apply Hnda.
    + exists i, n0, i, n1. cbn [dents inodes set_dents].
      rewrite lookup_insert_eq. auto.
  - (* the fallback *)
    unfold bind at 1 in Hrun.
    destruct (try_except (os_unlink d) is_OSError (fun _ => ret tt) wa)
      as [w2 r2] eqn:Hun.
    assert (Hnd_a : is_dir_entry (dents wa !! d) = false).
    { rewrite (Frame_not_dir v (dirname d) wa d HF (not_prefix_dirname d)).
      exact Hnotdir. }
    apply (unlink_attempt d wa w2 r2 Hnd_a) in Hun as (-> & Hi2 & Hd2).
    assert (Hd2' : dents w2 !! d = None) by (rewrite Hd2; apply lookup_delete_eq).
    assert (Hnd2 : no_dangling w2).
    { intros p i Hp. rewrite Hi2. rewrite Hd2 in Hp.
      apply lookup_delete_Some in Hp as [_ Hp].
      eapply (Frame_no_dangling v (dirname d) wa HF Hnd); exact Hp. }
    unfold bind at 1 in Hrun.
    destruct (shutil_copy2 pol s d false w2) as [w3 [[]|e3]] eqn:Hcp;
      [|discriminate Hrun].
    apply (shutil_copy2_new_world pol s d w2 w3 Hd2' Hnd2) in Hcp
      as (i & b & m & m' & Hs2 & Hiq & Hd3 & Hi3 & Hm1 & Hm2 & Hm3).
    unfold bind at 1 in Hrun.
    destruct (os_stat s false w3) as [w3' [st1|e1]] eqn:Hs1;
      [|discriminate Hrun].
    apply os_stat_state in Hs1 as ->.
    unfold bind at 1 in Hrun.
    destruct (os_stat s false w3) as [w3' [st2|e2]] eqn:Hs2';
      [|discriminate Hrun].
    apply os_stat_state in Hs2' as ->.
    apply chown_attempt_data in Hrun as [Hshape Hdata].
    assert (Hsd : s <> d) by congruence.
    assert (Hsa : dents wa !! s = Some (ENode i)).
    { rewrite Hd2, lookup_delete_ne in Hs2 by congruence. exact Hs2. }
    assert (Hs0 : dents v !! s = Some (ENode i))
      by (apply (Frame_node v (dirname d) wa s i HF); exact Hsa).
    destruct (Hnd _ _ Hs0) as [n0 Hn0].
    destruct (HD _ _ Hn0) as (n1 & Hn1 & E1).
    rewrite <- Hi2, Hiq in Hn1. injection Hn1 as <-.
    assert (Hfresh : forall j n, inodes wa !! j = Some n ->
                                 j <> fresh_ino w2).
    { intros j n Hj ->. rewrite <- Hi2, fresh_ino_absent in Hj.
      discriminate. }
    assert (HD3 : keeps_data v v').
    { apply (keeps_data_trans _ wa); [exact HD|].
      apply (keeps_data_trans _ w3); [|apply keeps_data_fmap, Hdata].
      intros j n Hj. rewrite Hi3, lookup_insert_ne, Hi2
        by (intros <-; eapply Hfresh; eauto). eauto. }
    split; [|split; [exact HD3|split]].
    + intros q Hq.
      assert (Hchain : shape (dents v' !! q) = shape (dents wa !! q)).
      { rewrite Hshape, Hd3, lookup_insert_ne, Hd2, lookup_delete_ne
          by congruence. reflexivity. }
      destruct (lf_shape _ _ _ HF q) as [H|(H1 & H2 & H3 & H4)].
      * left. congruence.
      * right. rewrite (shape_dir _ _ Hchain). auto.
    + intros p j Hp.
      assert (Hp3 : dents w3 !! p = Some (ENode j))
        by (eapply shape_node; [apply Hshape|exact Hp]).
      assert (H3 : is_Some (inodes w3 !! j)).
      { rewrite Hd3 in Hp3. rewrite Hi3.
        destruct (decide (d = p)) as [<-|Hne].
        - rewrite lookup_insert_eq in Hp3. injection Hp3 as <-.
          rewrite lookup_insert_eq. eauto.
        - rewrite lookup_insert_ne in Hp3 by exact Hne.
          destruct (Hnd2 _ _ Hp3) as [n Hn].
          destruct (decide (fresh_ino w2 = j)) as [<-|Hne'].
          + rewrite lookup_insert_eq. eauto.
          + rewrite lookup_insert_ne by exact Hne'. eauto. }
      destruct H3 as [n3 Hn3]. specialize (Hdata j). rewrite Hn3 in Hdata.
      destruct (inodes v' !! j); [eauto|discriminate].
    + pose proof (Hdata (fresh_ino w2)) as Hdj.
      rewrite Hi3, lookup_insert_eq in Hdj.
      destruct (inodes v' !! fresh_ino w2) as [n'|] eqn:Hn';
        [|discriminate Hdj].
      exists i, n0, (fresh_ino w2), n'.
      split; [exact Hs0|]. split; [exact Hn0|]. split.
      { eapply shape_node; [symmetry; apply Hshape|].
        rewrite Hd3. apply lookup_insert_eq. }
      split; [exact Hn'|].
      assert (Hn2 : data_of n' = data_of (mkInode b m'))
        by (cbv [fmap option_fmap option_map] in Hdj; congruence).
      rewrite Hn2, <- E1. unfold data_of. cbn [i_body i_meta]. congruence.
Qed.

Lemma children_intro (w : world) (top : path) (n : string) (e : dentry) :
  dents w !! join top n = Some e -> n ∈ children w top.
Proof.
  intros He. unfold children. apply list_elem_of_omap.
  exists (join top n). split.
  - apply list_elem_of_fmap. exists (join top n, e). split; [reflexivity|].
    apply elem_of_map_to_list. exact He.
  - rewrite bool_decide_eq_true_2.
    + now rewrite basename_join.
    + split; [|apply dirname_join].
      unfold join. intros H. apply app_eq_nil in H as [_ [=]].
Qed.

Lemma prefix_step (r p : path) :
  r `prefix_of` p -> p = r \/ exists d, (r ++ [d]) `prefix_of` p.
Proof.
  intros [k ->]. destruct k as [|d k].
  - left. now rewrite app_nil_r.
  - right. exists d. exists k. now rewrite <- app_assoc.
Qed.

Section Replicate.

Variables (pol : policy) (src dst : path) (w0 : world).

Hypothesis Hsd : ~ src `prefix_of` dst.
Hypothesis Hds : ~ dst `prefix_of` src.
Hypothesis Hnodir : forall rel,
  is_node_entry (dents w0 !! (src ++ rel)) = true ->
  is_dir_entry (dents w0 !! (dst ++ rel)) = false.
Hypothesis Hnd0 : no_dangling w0.
Hypothesis Hsrc : is_dir_entry (dents w0 !! src) = true.

Local Abbreviation CInv := (copy_invariant src dst w0).
Local Abbreviation done := (replicated src dst w0).
Local Abbreviation keeps := (keeps_replicas src dst w0).

Lemma CInv_initial : CInv w0.
Proof using Hnd0.
  split; auto. apply keeps_data_refl.
Qed.

Lemma keeps_refl (v : world) : keeps v v.
Proof. intros r H. exact H. Qed.

Lemma keeps_trans (u v w : world) : keeps u v -> keeps v w -> keeps u w.
Proof. intros H1 H2 r H. auto. Qed.

Lemma dir_known (r : path) :
  known_dirs src w0 r -> is_dir_entry (dents w0 !! (src ++ r)) = true.
Proof using Hsrc.
  intros Hk. destruct (decide (r = [])) as [->|Hne].
  - rewrite app_nil_r. exact Hsrc.
  - apply Hk; [exact Hne|reflexivity].
Qed.

Lemma source_readlink (v : world) (q : path) :
  CInv v -> src `prefix_of` q -> readlink v q = readlink w0 q.
Proof using Hnd0.
  intros HI Hq. pose proof (ci_src _ _ _ _ HI q Hq) as Hs.
  unfold readlink.
  destruct (dents v !! q) as [[m|i]|], (dents w0 !! q) as [[m'|i']|] eqn:H0;
    cbn in Hs; try congruence.
  injection Hs as ->.
  destruct (Hnd0 _ _ H0) as [[b0 m0] Hi0]. rewrite Hi0.
  destruct (ci_data _ _ _ _ HI _ _ Hi0) as ([b1 m1] & -> & E).
  unfold data_of in E. cbn in E. injection E as -> _ _ _. reflexivity.
Qed.

Lemma source_dir_no_link (v : world) (r : path) :
  CInv v -> known_dirs src w0 r -> islink v (src ++ r) = false.
Proof using Hnd0 Hsrc.
  intros HI Hk. unfold islink.
  rewrite (source_readlink v _ HI) by (by apply prefix_app_r).
  unfold readlink. pose proof (dir_known r Hk) as Hd.
  destruct (dents w0 !! (src ++ r)) as [[|]|]; try discriminate. reflexivity.
Qed.

Lemma target_not_dir (v : world) (r : path) :
  CInv v -> r <> [] ->
  is_node_entry (dents w0 !! (src ++ r)) = true ->
  is_dir_entry (dents v !! (dst ++ r)) = false.
Proof using Hnodir.
  intros HI Hne Hnode.
  destruct (is_dir_entry (dents v !! (dst ++ r))) eqn:E; [|reflexivity].
  destruct (ci_dirs _ _ _ _ HI r Hne E) as [H|H].
  - rewrite (Hnodir r Hnode) in H. discriminate.
  - congruence.
Qed.

Lemma replica_kept (v v' : world) (r : path) :
  done v r ->
  shape (dents v' !! (dst ++ r)) = shape (dents v !! (dst ++ r)) ->
  keeps_data v v' ->
  done v' r.
Proof.
  intros (i & n & j & n' & H1 & H2 & H3 & H4 & H5) Hs HD.
  destruct (HD _ _ H4) as (n'' & Hn'' & E).
  exists i, n, j, n''. repeat split; try assumption.
  - eapply shape_node; [symmetry; exact Hs|exact H3].
  - apply same_data_intro. unfold same_data in H5.
    apply bool_decide_eq_true_1 in H5. congruence.
Qed.

(** Cloning a directory of the source tree at its place in the
    destination. *)
Lemma clone_step (r : path) (v v' : world) (res : result unit) :
  known_dirs src w0 r -> CInv v ->
  create_similar_directory pol (src ++ r) (dst ++ r) false v = (v', res) ->
  CInv v' /\ keeps v v'.
Proof using Hsd Hds Hnd0 Hsrc.
  intros Hk HI Hrun.
  pose proof (create_similar_directory_Frame pol v (dst ++ r) (src ++ r) false
                v v' res (Frame_initial v (dst ++ r)) Hrun) as HF.
  pose proof (create_similar_directory_keeps_data pol _ _ v v' res
                (source_dir_no_link v r HI Hk) Hrun) as HD.
  assert (Hout : forall q, q `prefix_of` dst ++ r -> ~ src `prefix_of` q)
    by (intros q; apply (outside_source src dst Hsd Hds)).
  split; [split|].
  - intros q Hq. destruct (lf_shape _ _ _ HF q) as [Hs|(Hp & _)].
    + rewrite Hs. apply (ci_src _ _ _ _ HI), Hq.
    + exfalso. exact (Hout q Hp Hq).
  - intros rel Hne Hdir.
    destruct (lf_shape _ _ _ HF (dst ++ rel)) as [Hs|(Hp & _)].
    + apply (ci_dirs _ _ _ _ HI rel Hne).
      rewrite <- (shape_dir _ _ Hs). exact Hdir.
    + right. apply prefix_app_inv in Hp. apply dir_not_node, Hk; assumption.
  - eapply keeps_data_trans; [apply (ci_data _ _ _ _ HI)|exact HD].
  - apply (Frame_no_dangling v (dst ++ r) v' HF), (ci_nodangling _ _ _ _ HI).
  - intros r' Hr'. apply (replica_kept v); [exact Hr'| |exact HD].
    destruct (lf_shape _ _ _ HF (dst ++ r')) as [Hs|(_ & _ & Hn & _)];
      [exact Hs|].
    destruct Hr' as (? & ? & ? & ? & _ & _ & H3 & _). congruence.
Qed.

Lemma dirname_snoc (p r : path) (n : string) :
  dirname (p ++ (r ++ [n])) = p ++ r.
Proof. rewrite app_assoc. apply dirname_join. Qed.

(** Copying a file of the source tree to its place in the destination. *)
Lemma copy_step (r : path) (n : string) (v v' : world) :
  known_dirs src w0 r ->
  is_node_entry (dents w0 !! (src ++ (r ++ [n]))) = true ->
  CInv v ->
  link_or_copy pol (src ++ (r ++ [n])) (dst ++ (r ++ [n])) false v
  = (v', Ok tt) ->
  CInv v' /\ keeps v v' /\ done v' (r ++ [n]).
Proof using Hsd Hds Hnodir Hnd0 Hsrc.
  intros Hk Hnode HI Hrun.
  assert (Hrn : r ++ [n] <> []) by (intros H; apply app_eq_nil in H as [_ [=]]).
  apply link_or_copy_ok_summary in Hrun
    as (Hnames & HD & Hnd' & i & ni & j & nj & Hs & Hi & Hd & Hj & E).
  2:{ apply (ci_nodangling _ _ _ _ HI). }
  2:{ apply target_not_dir; assumption. }
  2:{ rewrite dirname_snoc. apply source_dir_no_link; assumption. }
  rewrite dirname_snoc in Hnames.
  assert (Hout : forall q, q `prefix_of` dst ++ r -> ~ src `prefix_of` q)
    by (intros q; apply (outside_source src dst Hsd Hds)).
  assert (Hout' : ~ src `prefix_of` dst ++ (r ++ [n]))
    by (apply (outside_source src dst Hsd Hds (r ++ [n])); reflexivity).
  assert (Hdone : done v' (r ++ [n])).
  { assert (Hs0 : dents w0 !! (src ++ (r ++ [n])) = Some (ENode i)).
    { eapply shape_node; [|exact Hs].
      apply (ci_src _ _ _ _ HI). by apply prefix_app_r. }
    destruct (Hnd0 _ _ Hs0) as [n0 Hn0].
    destruct (ci_data _ _ _ _ HI _ _ Hn0) as (n1 & Hn1 & E1).
    exists i, n0, j, nj. repeat split; try assumption.
    apply same_data_intro. congruence. }
  split; [split|split; [|exact Hdone]].
  - intros q Hq.
    destruct (Hnames q) as [Hsh|(Hp & _)]; [congruence| |].
    + rewrite Hsh. apply (ci_src _ _ _ _ HI), Hq.
    + exfalso. exact (Hout q Hp Hq).
  - intros rel Hne Hdir.
    destruct (decide (dst ++ rel = dst ++ (r ++ [n]))) as [Heq|Hneq].
    + rewrite Heq, Hd in Hdir. discriminate.
    + destruct (Hnames _ Hneq) as [Hsh|(Hp & _)].
      * apply (ci_dirs _ _ _ _ HI rel Hne).
        rewrite <- (shape_dir _ _ Hsh). exact Hdir.
      * right. apply prefix_app_inv in Hp.
        apply dir_not_node, Hk; assumption.
  - eapply keeps_data_trans; [apply (ci_data _ _ _ _ HI)|exact HD].
  - exact Hnd'.
  - intros r' Hr'.
    destruct (decide (dst ++ r' = dst ++ (r ++ [n]))) as [Heq|Hneq].
    + apply app_inv_head in Heq. subst r'. exact Hdone.
    + apply (replica_kept v); [exact Hr'| |exact HD].
      destruct (Hnames _ Hneq) as [Hsh|(_ & _ & Hn & _)]; [exact Hsh|].
      destruct Hr' as (? & ? & ? & ? & _ & _ & H3 & _). congruence.
Qed.

(** What the walk lists in a directory of the source tree. *)
Lemma listing (r : path) (v : world) (dirs files : list string) :
  known_dirs src w0 r -> CInv v ->
  scandir v (src ++ r) = Some (dirs, files) ->
  Forall (listed_dir w0 (src ++ r)) dirs
  /\ Forall (listed_file w0 (src ++ r)) files
  /\ (forall n, is_node_entry (dents w0 !! (src ++ (r ++ [n]))) = true ->
        n ∈ dirs \/ n ∈ files)
  /\ (forall n, is_dir_entry (dents w0 !! (src ++ (r ++ [n]))) = true ->
        n ∈ dirs).
Proof using Hnd0.
  intros Hk HI. unfold scandir.
  destruct (isdir v (src ++ r)); [|discriminate]. intros [= <- <-].
  assert (Hpre : forall n, src `prefix_of` join (src ++ r) n).
  { intros n. unfold join. rewrite <- app_assoc. by apply prefix_app_r. }
  assert (Hsh : forall n, shape (dents v !! join (src ++ r) n)
                          = shape (dents w0 !! join (src ++ r) n)).
  { intros n. apply (ci_src _ _ _ _ HI), Hpre. }
  assert (Hjoin : forall n, src ++ (r ++ [n]) = join (src ++ r) n).
  { intros n. unfold join. now rewrite app_assoc. }
  split; [|split; [|split]].
  - apply List.Forall_forall. intros n Hn.
    apply list_elem_of_In, list_elem_of_filter in Hn as [Hdir Hn].
    apply children_lexists in Hn. unfold lexists in Hn. unfold listed_dir.
    specialize (Hsh n).
    destruct (dents v !! join (src ++ r) n) as [[m|i]|] eqn:Hd;
      [| |discriminate].
    + left. rewrite <- (shape_dir _ _ Hsh). reflexivity.
    + right. pose proof (shape_node _ _ i Hsh eq_refl) as Hd0.
      destruct (readlink v (join (src ++ r) n)) as [t|] eqn:Hrl.
      * rewrite (source_readlink v _ HI (Hpre n)) in Hrl.
        unfold readlink in Hrl. rewrite Hd0 in Hrl.
        destruct (inodes w0 !! i) as [[[c|t'] m]|] eqn:Hi; try discriminate.
        exists i, t', m. split; [exact Hd0|exact Hi].
      * rewrite (isdir_no_link _ _ Hrl), Hd in Hdir. discriminate.
  - apply List.Forall_forall. intros n Hn.
    apply list_elem_of_In, list_elem_of_filter in Hn as [Hdir Hn].
    apply children_lexists in Hn. unfold lexists in Hn. unfold listed_file.
    specialize (Hsh n).
    destruct (dents v !! join (src ++ r) n) as [[m|i]|] eqn:Hd;
      [| |discriminate].
    + rewrite (isdir_dir _ _ _ Hd) in Hdir. discriminate.
    + rewrite (shape_node _ _ i Hsh eq_refl). reflexivity.
  - intros n Hn. rewrite Hjoin in Hn. specialize (Hsh n).
    destruct (dents v !! join (src ++ r) n) as [e|] eqn:Hd.
    + apply children_intro in Hd.
      destruct (isdir v (join (src ++ r) n)) eqn:Hdir.
      * left. apply list_elem_of_filter. auto.
      * right. apply list_elem_of_filter. auto.
    + destruct (dents w0 !! join (src ++ r) n) as [[|]|]; cbn in *;
        congruence.
  - intros n Hn. rewrite Hjoin in Hn. specialize (Hsh n).
    destruct (dents v !! join (src ++ r) n) as [[m|i]|] eqn:Hd.
    + apply list_elem_of_filter. split; [apply (isdir_dir _ _ _ Hd)|].
      eapply children_intro, Hd.
    + destruct (dents w0 !! join (src ++ r) n) as [[|]|]; cbn in *;
        congruence.
    + destruct (dents w0 !! join (src ++ r) n) as [[|]|]; cbn in *;
        congruence.
Qed.

(** The loop over the directories of one directory, when it ends
    normally. *)
Lemma tree_directories_ok (r : path) (directories : list string) :
  known_dirs src w0 r ->
  Forall (listed_dir w0 (src ++ r)) directories ->
  forall files v v' files',
    Forall (listed_file w0 (src ++ r)) files ->
    CInv v ->
    tree_directories pol src dst (src ++ r) directories files v
    = (v', Ok files') ->
    CInv v' /\ keeps v v'
    /\ Forall (listed_file w0 (src ++ r)) files'
    /\ (forall n, n ∈ files -> n ∈ files')
    /\ (forall n, n ∈ directories ->
          is_node_entry (dents w0 !! (src ++ (r ++ [n]))) = true ->
          n ∈ files').
Proof using Hsd Hds Hnd0 Hsrc.
  intros Hk. induction directories as [|n rest IH];
    intros Hld files v v' files' Hlf HI.
  - cbn [tree_directories]. intros [= <- <-].
    split; [exact HI|]. split; [apply keeps_refl|]. split; [exact Hlf|].
    split; [auto|]. intros n Hn. inversion Hn.
  - apply Forall_cons in Hld as [Hn Hrest]. cbn [tree_directories].
    unfold bind at 1, get at 1.
    assert (Hpre : src `prefix_of` join (src ++ r) n).
    { unfold join. rewrite <- app_assoc. by apply prefix_app_r. }
    assert (Hjoin : join (src ++ r) n = src ++ (r ++ [n])).
    { unfold join. now rewrite app_assoc. }
    destruct (islink v (join (src ++ r) n)) eqn:Hl.
    + intros Hrun.
      assert (Hnode : is_node_entry (dents w0 !! join (src ++ r) n) = true).
      { apply islink_inv in Hl as (i & t & m & Hd & _).
        pose proof (ci_src _ _ _ _ HI _ Hpre) as Hs. rewrite Hd in Hs.
        destruct (dents w0 !! join (src ++ r) n) as [[|]|]; cbn in *;
          congruence. }
      apply IH in Hrun as (H1 & H2 & H3 & H4 & H5); [|exact Hrest| |exact HI].
      2:{ apply Forall_app. split; [exact Hlf|].
          apply Forall_cons. split; [exact Hnode|constructor]. }
      split; [exact H1|]. split; [exact H2|]. split; [exact H3|]. split.
      * intros k Hk'. apply H4. apply elem_of_app. auto.
      * intros k Hk' Hnk. apply elem_of_cons in Hk' as [->|Hk'].
        -- apply H4. apply elem_of_app. right. apply list_elem_of_here.
        -- apply H5; assumption.
    + assert (Hdir : is_dir_entry (dents w0 !! (src ++ (r ++ [n]))) = true).
      { rewrite <- Hjoin. destruct Hn as [Hn|(i & t & m & Hd & Hi)];
          [exact Hn|].
        unfold islink in Hl.
        rewrite (source_readlink v _ HI Hpre) in Hl.
        unfold readlink in Hl. rewrite Hd, Hi in Hl. discriminate. }
      assert (Hk' : known_dirs src w0 (r ++ [n])).
      { apply known_dirs_snoc; [exact Hk|]. exact Hdir. }
      unfold bind at 1. rewrite Hjoin, relpath_app.
      destruct (create_similar_directory pol _ _ false v) as [v1 [[]|e]] eqn:Hc;
        [|discriminate].
      destruct (clone_step (r ++ [n]) v v1 _ Hk' HI Hc) as [HI1 Hkeep].
      intros Hrun.
      apply IH in Hrun as (H1 & H2 & H3 & H4 & H5);
        [|exact Hrest|exact Hlf|exact HI1].
      split; [exact H1|]. split; [eapply keeps_trans; eassumption|].
      split; [exact H3|]. split; [exact H4|].
      intros k Hkin Hnk. apply elem_of_cons in Hkin as [->|Hkin].
      * apply dir_not_node in Hdir. congruence.
      * apply H5; assumption.
Qed.

(** The loop over the files of one directory, when it ends normally. *)
Lemma tree_files_ok (r : path) (files : list string) :
  known_dirs src w0 r ->
  Forall (listed_file w0 (src ++ r)) files ->
  forall v v',
    CInv v ->
    tree_files (default_copy_function pol) src dst (src ++ r) files v
    = (v', Ok tt) ->
    CInv v' /\ keeps v v' /\ forall n, n ∈ files -> done v' (r ++ [n]).
Proof using Hsd Hds Hnodir Hnd0 Hsrc.
  intros Hk. unfold tree_files.
  induction files as [|n files IH]; intros Hlf v v' HI; cbn [for_each].
  - intros [= <-]. split; [exact HI|]. split; [apply keeps_refl|].
    intros n Hn. inversion Hn.
  - apply Forall_cons in Hlf as [Hn Hrest].
    assert (Hjoin : join (src ++ r) n = src ++ (r ++ [n])).
    { unfold join. now rewrite app_assoc. }
    unfold bind at 1. unfold bind at 1. cbn [modify].
    unfold default_copy_function at 1. rewrite Hjoin, relpath_app.
    set (v0 := add_call _ v).
    assert (HI0 : CInv v0) by (destruct HI; split; assumption).
    destruct (link_or_copy pol _ _ false v0) as [v1 [[]|e]] eqn:Hc;
      [|discriminate].
    unfold listed_file in Hn. rewrite Hjoin in Hn.
    destruct (copy_step r n v0 v1 Hk Hn HI0 Hc) as (HI1 & Hkeep & Hdone).
    intros Hrun. apply IH in Hrun as (H1 & H2 & H3); [|exact Hrest|exact HI1].
    split; [exact H1|]. split.
    + intros r' Hr'. apply H2, Hkeep. exact Hr'.
    + intros k Hkin. apply elem_of_cons in Hkin as [->|Hkin].
      * apply H2, Hdone.
      * apply H3, Hkin.
Qed.

Lemma source_isdir (v : world) (r : path) :
  CInv v -> known_dirs src w0 r -> isdir v (src ++ r) = true.
Proof using Hsrc.
  intros HI Hk. pose proof (dir_known r Hk) as Hd.
  rewrite <- (shape_dir _ _ (ci_src _ _ _ _ HI (src ++ r)
                              ltac:(by apply prefix_app_r))) in Hd.
  destruct (dents v !! (src ++ r)) as [[m|]|] eqn:E; try discriminate.
  apply (isdir_dir _ _ _ E).
Qed.

Local Abbreviation tree_body :=
  (fun root directories files =>
     files' <- tree_directories pol src dst root directories files ;;
     tree_files (default_copy_function pol) src dst root files')%py.

(** The walk over the directory [src ++ r] and what is below it, when it
    ends normally: every file and link below, down through directories,
    has its replica. *)
Lemma os_walk_replicates (fuel : nat) :
  forall r v v',
    known_dirs src w0 r -> CInv v ->
    os_walk fuel (src ++ r) tree_body v = (v', Ok tt) ->
    CInv v' /\ keeps v v'
    /\ forall p n,
         r `prefix_of` p -> known_dirs src w0 p ->
         is_node_entry (dents w0 !! (src ++ (p ++ [n]))) = true ->
         done v' (p ++ [n]).
Proof using Hsd Hds Hnodir Hnd0 Hsrc.
  induction fuel as [|fuel IH]; intros r v v' Hk HI; [discriminate|].
  cbn [os_walk]. unfold bind at 1, get at 1.
  destruct (scandir v (src ++ r)) as [[dirs files]|] eqn:Hscan.
  2:{ unfold scandir in Hscan. rewrite (source_isdir v r HI Hk) in Hscan.
      discriminate. }
  destruct (listing r v dirs files Hk HI Hscan) as (Hld & Hlf & Hmem & Hmemd).
  unfold bind at 1.
  destruct (tree_body (src ++ r) dirs files v) as [v1 [[]|e]] eqn:Hbody;
    [|discriminate].
  unfold bind in Hbody.
  destruct (tree_directories pol src dst (src ++ r) dirs files v)
    as [va [files'|e]] eqn:Htd; [|discriminate].
  destruct (tree_directories_ok r dirs Hk Hld files v va files' Hlf HI Htd)
    as (HIa & Hka & Hlf' & Hin1 & Hin2).
  destruct (tree_files_ok r files' Hk Hlf' va v1 HIa Hbody)
    as (HI1 & Hk1 & Hdone1).
  assert (Hloop : forall l,
            Forall (listed_dir w0 (src ++ r)) l ->
            forall u u', CInv u ->
              for_each l (descend (fun p => os_walk fuel p tree_body)
                            (src ++ r)) u = (u', Ok tt) ->
              CInv u' /\ keeps u u'
              /\ forall d, d ∈ l ->
                   is_dir_entry (dents w0 !! (src ++ (r ++ [d]))) = true ->
                   forall p n,
                     (r ++ [d]) `prefix_of` p -> known_dirs src w0 p ->
                     is_node_entry (dents w0 !! (src ++ (p ++ [n]))) = true ->
                     done u' (p ++ [n])).
  { induction l as [|d l IHl]; intros Hl u u' HIu; cbn [for_each].
    - intros [= <-]. split; [exact HIu|]. split; [apply keeps_refl|].
      intros d Hd. inversion Hd.
    - apply Forall_cons in Hl as [Hd Hl].
      assert (Hjoin : join (src ++ r) d = src ++ (r ++ [d])).
      { unfold join. now rewrite app_assoc. }
      assert (Hpre : src `prefix_of` join (src ++ r) d).
      { rewrite Hjoin. by apply prefix_app_r. }
      unfold bind at 1. unfold descend at 1, bind at 1, get at 1.
      destruct (islink u (join (src ++ r) d)) eqn:Hlink.
      + cbn [ret]. intros Hrest.
        destruct (IHl Hl u u' HIu Hrest) as (H1 & H2 & H3).
        split; [exact H1|]. split; [exact H2|].
        intros d' Hd' Hdir. apply elem_of_cons in Hd' as [->|Hd'];
          [|apply H3; assumption].
        exfalso. rewrite Hjoin in Hlink.
        rewrite (source_dir_no_link u (r ++ [d]) HIu) in Hlink;
          [discriminate|].
        apply known_dirs_snoc; assumption.
      + assert (Hdir : is_dir_entry (dents w0 !! (src ++ (r ++ [d]))) = true).
        { rewrite <- Hjoin. destruct Hd as [Hd|(i & t & m & Hd & Hi)];
            [exact Hd|].
          unfold islink in Hlink.
          rewrite (source_readlink u _ HIu Hpre) in Hlink.
          unfold readlink in Hlink. rewrite Hd, Hi in Hlink. discriminate. }
        assert (Hk' : known_dirs src w0 (r ++ [d]))
          by (apply known_dirs_snoc; assumption).
        rewrite Hjoin.
        destruct (os_walk fuel (src ++ (r ++ [d])) tree_body u)
          as [u1 [[]|e]] eqn:Hwalk; [|discriminate].
        destruct (IH (r ++ [d]) u u1 Hk' HIu Hwalk) as (HIu1 & Hku1 & Hdn).
        intros Hrest.
        destruct (IHl Hl u1 u' HIu1 Hrest) as (H1 & H2 & H3).
        split; [exact H1|]. split; [eapply keeps_trans; eassumption|].
        intros d' Hd' Hdir' p n Hp Hkp Hnode.
        apply elem_of_cons in Hd' as [->|Hd'].
        * apply H2, Hdn; assumption.
        * eapply H3; eassumption. }
  intros Hrun.
  destruct (Hloop dirs Hld v1 v' HI1 Hrun) as (HI' & Hk' & Hunder).
  split; [exact HI'|]. split.
  { eapply keeps_trans; [|exact Hk']. eapply keeps_trans; eassumption. }
  intros p n Hp Hkp Hnode.
  destruct (prefix_step r p Hp) as [->|[d Hd]].
  - apply Hk', Hdone1.
    destruct (Hmem n Hnode) as [Hin|Hin]; [apply Hin2; assumption|].
    apply Hin1, Hin.
  - assert (Hdir : is_dir_entry (dents w0 !! (src ++ (r ++ [d]))) = true).
    { apply Hkp; [|exact Hd]. intros H. apply app_eq_nil in H as [_ [=]]. }
    eapply Hunder; try eassumption. apply Hmemd, Hdir.
Qed.

(** The copy of the tree, when it ends normally. *)
Lemma link_or_copy_tree_ok (fuel : nat) (w' : world) :
  link_or_copy_tree pol fuel src dst (default_copy_function pol) w0
  = (w', Ok tt) ->
  CInv w'
  /\ forall p n,
       known_dirs src w0 p ->
       is_node_entry (dents w0 !! (src ++ (p ++ [n]))) = true ->
       done w' (p ++ [n]).
Proof using Hsd Hds Hnodir Hnd0 Hsrc.
  unfold link_or_copy_tree, bind at 1, get at 1.
  destruct (negb (isdir w0 src)); [discriminate|].
  destruct (negb (isdir w0 dst) && exists_ w0 dst); [discriminate|].
  unfold bind at 1.
  destruct (create_similar_directory pol src dst false w0)
    as [v1 [[]|e]] eqn:Hc; [|discriminate].
  pose proof (clone_step [] w0 v1 (Ok tt) (known_dirs_nil src w0)
                CInv_initial) as Hclone.
  rewrite !app_nil_r in Hclone. destruct (Hclone Hc) as [HI1 _].
  intros Hwalk.
  pose proof (os_walk_replicates fuel [] v1 w' (known_dirs_nil src w0) HI1)
    as Hw.
  rewrite app_nil_r in Hw. destruct (Hw Hwalk) as (HI' & _ & Hall).
  split; [exact HI'|]. intros p n Hk Hnode.
  apply Hall; [apply prefix_nil|exact Hk|exact Hnode].
Qed.

End Replicate.





(** ** The pass over a tree rewrites its files *)

Section Rewrites.

Variables (pol : policy) (fpat spat : Pattern) (repl : string).
Variables (directory : path) (w : world) (i : nat) (c : string)
  (m : stat_result).

Hypothesis Hi : inodes w !! i = Some (mkInode (Reg c) m).
Hypothesis Hstable : forall text,
  decode pol c = Some text ->
  let replaced := re_sub spat repl text in
  re_sub spat repl replaced = replaced
  /\ decode pol (encode pol replaced) = Some replaced.
Hypothesis Hdir : is_dir_entry (dents w !! directory) = true.

Local Abbreviation RInv := (rewrite_invariant pol spat repl w i c).
Local Abbreviation finished := (rewritten_in pol spat repl c i).
Local Abbreviation final := (rewritten pol spat repl).

Lemma rewritten_idem : final (final c) = final c.
Proof using Hstable.
  unfold rewritten at 2 3. destruct (decode pol c) as [text|] eqn:Hdec.
  - cbv zeta. destruct (bool_decide_reflect (re_sub spat repl text ≠ text))
      as [Hne|Heq].
    + destruct (Hstable text eq_refl) as [H1 H2]. cbv zeta in H1, H2.
      unfold rewritten. rewrite H2. cbv zeta. rewrite H1.
      rewrite bool_decide_eq_false_2 by (intros H; now apply H). reflexivity.
    + unfold rewritten. rewrite Hdec. cbv zeta.
      rewrite bool_decide_eq_false_2 by exact Heq. reflexivity.
  - unfold rewritten. rewrite Hdec. reflexivity.
Qed.

Lemma final_of_current (c' : string) :
  c' = c \/ c' = final c -> final c' = final c.
Proof using Hstable.
  intros [->| ->]; [reflexivity|apply rewritten_idem].
Qed.

Lemma RInv_initial : RInv w.
Proof using Hi.
  split; [reflexivity|]. split; [reflexivity|]. eauto.
Qed.

Lemma RInv_same_fs (v v' : world) :
  dents v' = dents v -> inodes v' = inodes v -> RInv v -> RInv v'.
Proof.
  intros Hd Hn (H1 & H2 & H3). split; [congruence|]. split.
  - intros p. rewrite <- H2. now apply readlink_same_fs.
  - rewrite Hn. exact H3.
Qed.

Lemma finished_same_fs (v v' : world) :
  inodes v' = inodes v -> finished v -> finished v'.
Proof. intros Hn [m' H]. exists m'. rewrite Hn. exact H. Qed.

(** One application to a name that is no link. *)
Lemma visit (fp : path) (v v' : world) (res : result unit) :
  RInv v -> islink v fp = false ->
  search_and_replace_contents pol fp spat repl v = (v', res) ->
  RInv v' /\ (finished v -> finished v')
  /\ (res = Ok tt -> dents w !! fp = Some (ENode i) ->
      may_open_rw pol fp = true -> finished v').
Proof using Hstable.
  intros HI Hlink. rewrite search_and_replace_contents_cases. cbv zeta.
  set (v0 := add_call _ v).
  assert (HI0 : RInv v0) by (apply (RInv_same_fs v); auto).
  assert (Hf0 : finished v -> finished v0) by (apply finished_same_fs; auto).
  rewrite resolve_no_link
    by (unfold islink in Hlink; destruct (readlink v _); congruence).
  pose proof HI as (H1 & H2 & c' & m' & Hc' & Hcur).
  rewrite H1.
  destruct (dents w !! fp) as [[md|j]|] eqn:Hfp;
    try (intros [= <- <-]; split; [exact HI0|]; split; [exact Hf0|];
         intros; discriminate).
  destruct (may_open_rw pol fp) eqn:Hrw.
  2:{ intros [= <- <-]. split; [apply (RInv_same_fs v0); auto|].
      split; [intros H; apply (finished_same_fs v0); auto|].
      intros; discriminate. }
  destruct (inodes v !! j) as [[[cj|t] mj]|] eqn:Hj;
    try (intros [= <- <-]; split; [exact HI0|]; split; [exact Hf0|];
         intros; discriminate).
  assert (Hsame : j = i -> cj = c').
  { intros ->. congruence. }
  assert (Hkeep : final cj = cj -> j = i -> finished v0).
  { intros Hfix Hji. pose proof (Hsame Hji) as ->. subst j.
    exists m'. cbn [inodes add_call v0].
    rewrite <- (final_of_current c' Hcur), Hfix. exact Hc'. }
  destruct (decode pol cj) as [text|] eqn:Hdec.
  2:{ intros [= <- <-]. split; [exact HI0|]. split; [exact Hf0|].
      intros _ [= Hji] _. apply Hkeep; [|exact Hji].
      unfold rewritten. rewrite Hdec. reflexivity. }
  destruct (bool_decide_reflect (re_sub spat repl text ≠ text)) as [Hne|Heq].
  2:{ intros [= <- <-]. split; [exact HI0|]. split; [exact Hf0|].
      intros _ [= Hji] _. apply Hkeep; [|exact Hji].
      unfold rewritten. rewrite Hdec. cbv zeta.
      rewrite bool_decide_eq_false_2 by exact Heq. reflexivity. }
  assert (Hfin : final cj = encode pol (re_sub spat repl text)).
  { unfold rewritten. rewrite Hdec. cbv zeta.
    rewrite bool_decide_eq_true_2 by exact Hne. reflexivity. }
  intros [= <- <-].
  assert (Hj0 : inodes v0 !! j = Some (mkInode (Reg cj) mj)) by exact Hj.
  rewrite (rewrite_inode_reg _ _ cj mj) by exact Hj0.
  assert (Hnew : j = i -> finished
            (tick (set_inodes
               (insert j (mkInode (Reg (encode pol (re_sub spat repl text)))
                            (mkStat (st_uid mj) (st_gid mj) (st_mode mj)
                                    (st_atime mj) (clock v0)))) v0))).
  { intros Hji. pose proof (Hsame Hji) as ->. subst j.
    eexists. cbn [inodes tick set_inodes]. rewrite lookup_insert_eq.
    rewrite <- Hfin, (final_of_current c' Hcur). reflexivity. }
  split; [|split].
  - split; [exact H1|]. split.
    + intros p.
      rewrite <- (rewrite_inode_reg j (encode pol (re_sub spat repl text))
                    cj mj v0 Hj0).
      rewrite (readlink_rewrite_inode j _ cj mj v0 p Hj0), <- H2.
      apply readlink_same_fs; reflexivity.
    + destruct (decide (j = i)) as [Hji|Hji].
      * destruct (Hnew Hji) as [mn Hn]. exists (final c), mn. auto.
      * exists c', m'. cbn [inodes tick set_inodes].
        rewrite lookup_insert_ne by exact Hji. auto.
  - intros [mf Hf]. destruct (decide (j = i)) as [Hji|Hji]; [auto|].
    exists mf. cbn [inodes tick set_inodes].
    rewrite lookup_insert_ne by exact Hji. exact Hf.
  - intros _ [= Hji] _. auto.
Qed.

Lemma RInv_isdir (v : world) (p : path) : RInv v -> isdir v p = isdir w p.
Proof.
  intros (H1 & H2 & _). unfold isdir, stat_entry.
  rewrite (resolve_ext w v H2), H1. reflexivity.
Qed.

Lemma target_no_link (v : world) (fp : path) :
  RInv v -> dents w !! fp = Some (ENode i) -> islink v fp = false.
Proof using Hi.
  intros (_ & H2 & _) Hfp. unfold islink. rewrite H2.
  unfold readlink. rewrite Hfp, Hi. reflexivity.
Qed.

(** The loop over the files of one directory, when it ends normally. *)
Lemma replace_in_files_rewrites (root : path) (files : list string) :
  forall v v',
    RInv v ->
    replace_in_files pol fpat spat repl root files v = (v', Ok tt) ->
    RInv v' /\ (finished v -> finished v')
    /\ forall n, n ∈ files -> re_match fpat n = true ->
         dents w !! join root n = Some (ENode i) ->
         may_open_rw pol (join root n) = true -> finished v'.
Proof using Hi Hstable.
  unfold replace_in_files.
  induction files as [|n files IH]; intros v v' HI; cbn [for_each].
  - intros [= <-]. split; [exact HI|]. split; [auto|].
    intros n Hn. inversion Hn.
  - unfold bind at 1.
    destruct (re_match fpat n) eqn:Hmatch.
    + unfold bind at 1, get at 1.
      destruct (islink v (join root n)) eqn:Hlink; cbn [negb ret].
      * intros Hrest. destruct (IH v v' HI Hrest) as (H1 & H2 & H3).
        split; [exact H1|]. split; [exact H2|].
        intros k Hk Hmk Hfp Hrw. apply elem_of_cons in Hk as [->|Hk];
          [|eapply H3; eassumption].
        rewrite (target_no_link v _ HI Hfp) in Hlink. discriminate.
      * destruct (search_and_replace_contents pol (join root n) spat repl v)
          as [v1 [[]|e]] eqn:Hsar; [|discriminate].
        destruct (visit (join root n) v v1 _ HI Hlink Hsar)
          as (HI1 & Hf1 & Hdone).
        intros Hrest. destruct (IH v1 v' HI1 Hrest) as (H1 & H2 & H3).
        split; [exact H1|]. split; [auto|].
        intros k Hk Hmk Hfp Hrw. apply elem_of_cons in Hk as [->|Hk];
          [|eapply H3; eassumption].
        apply H2, Hdone; auto.
    + cbn [ret]. intros Hrest. destruct (IH v v' HI Hrest) as (H1 & H2 & H3).
      split; [exact H1|]. split; [exact H2|].
      intros k Hk Hmk Hfp Hrw. apply elem_of_cons in Hk as [->|Hk];
        [congruence|eapply H3; eassumption].
Qed.

(** The walk over the directory [directory ++ r] and what is below it,
    when it ends normally. *)
Lemma os_walk_rewrites (fuel : nat) :
  forall r v v',
    known_dirs directory w r -> RInv v ->
    os_walk fuel (directory ++ r)
      (fun root _ files => replace_in_files pol fpat spat repl root files) v
    = (v', Ok tt) ->
    RInv v' /\ (finished v -> finished v')
    /\ forall p n,
         r `prefix_of` p -> known_dirs directory w p ->
         re_match fpat n = true ->
         dents w !! (directory ++ (p ++ [n])) = Some (ENode i) ->
         may_open_rw pol (directory ++ (p ++ [n])) = true ->
         finished v'.
Proof using Hi Hstable Hdir.
  induction fuel as [|fuel IH]; intros r v v' Hk HI; [discriminate|].
  cbn [os_walk]. unfold bind at 1, get at 1.
  assert (Hjoin : forall n, join (directory ++ r) n = directory ++ (r ++ [n])).
  { intros n. unfold join. now rewrite app_assoc. }
  pose proof HI as (Hd & Hrl & _).
  destruct (scandir v (directory ++ r)) as [[dirs files]|] eqn:Hscan.
  2:{ unfold scandir in Hscan. rewrite (RInv_isdir v _ HI) in Hscan.
      pose proof (dir_known directory w Hdir r Hk) as Hdr.
      destruct (dents w !! (directory ++ r)) as [[md|]|] eqn:E;
        try discriminate.
      rewrite (isdir_dir _ _ _ E) in Hscan. discriminate. }
  assert (Hfiles : forall n, dents w !! join (directory ++ r) n
                             = Some (ENode i) -> n ∈ files).
  { intros n Hn. unfold scandir in Hscan.
    destruct (isdir v (directory ++ r)); [|discriminate].
    injection Hscan as _ <-. apply list_elem_of_filter. split.
    - rewrite isdir_no_link, Hd, Hn; [reflexivity|].
      rewrite Hrl. unfold readlink. rewrite Hn, Hi. reflexivity.
    - eapply children_intro. rewrite Hd. exact Hn. }
  assert (Hdirs : forall d, is_dir_entry (dents w !! join (directory ++ r) d)
                            = true -> d ∈ dirs).
  { intros d Hdd. unfold scandir in Hscan.
    destruct (isdir v (directory ++ r)); [|discriminate].
    injection Hscan as <- _.
    destruct (dents w !! join (directory ++ r) d) as [[md|]|] eqn:E;
      try discriminate.
    rewrite <- Hd in E. apply list_elem_of_filter. split.
    - apply (isdir_dir _ _ _ E).
    - eapply children_intro, E. }
  apply scandir_Some in Hscan as (_ & Hld & _).
  unfold bind at 1.
  destruct (replace_in_files pol fpat spat repl (directory ++ r) files v)
    as [v1 [[]|e]] eqn:Hbody; [|discriminate].
  destruct (replace_in_files_rewrites _ _ v v1 HI Hbody) as (HI1 & Hf1 & Hdone1).
  assert (Hloop : forall l,
            Forall (fun d => isdir w (join (directory ++ r) d) = true) l ->
            forall u u', RInv u ->
              for_each l
                (descend (fun p => os_walk fuel p
                            (fun root _ files =>
                               replace_in_files pol fpat spat repl root files))
                   (directory ++ r)) u = (u', Ok tt) ->
              RInv u' /\ (finished u -> finished u')
              /\ forall d, d ∈ l -> forall p n,
                   (r ++ [d]) `prefix_of` p -> known_dirs directory w p ->
                   re_match fpat n = true ->
                   dents w !! (directory ++ (p ++ [n])) = Some (ENode i) ->
                   may_open_rw pol (directory ++ (p ++ [n])) = true ->
                   finished u').
  { induction l as [|d l IHl]; intros Hl u u' HIu; cbn [for_each].
    - intros [= <-]. split; [exact HIu|]. split; [auto|].
      intros d Hdin. inversion Hdin.
    - apply Forall_cons in Hl as [Hdd Hl].
      unfold bind at 1. unfold descend at 1, bind at 1, get at 1.
      destruct (islink u (join (directory ++ r) d)) eqn:Hlink.
      + cbn [ret]. intros Hrest.
        destruct (IHl Hl u u' HIu Hrest) as (H1 & H2 & H3).
        split; [exact H1|]. split; [exact H2|].
        intros d' Hd' p n Hp Hkp Hmn Hfp Hrw.
        apply elem_of_cons in Hd' as [->|Hd'];
          [|eapply H3; eassumption].
        exfalso.
        assert (Hdr : is_dir_entry (dents w !! (directory ++ (r ++ [d])))
                      = true).
        { apply Hkp; [|exact Hp]. intros H. apply app_eq_nil in H as [_ [=]]. }
        destruct HIu as (_ & Hrlu & _). unfold islink in Hlink.
        rewrite Hrlu, Hjoin in Hlink. unfold readlink in Hlink.
        destruct (dents w !! (directory ++ (r ++ [d]))) as [[|]|];
          discriminate.
      + assert (Hdr : is_dir_entry (dents w !! (directory ++ (r ++ [d])))
                      = true).
        { rewrite <- Hjoin. rewrite <- Hdd. symmetry. apply isdir_no_link.
          destruct HIu as (_ & Hrlu & _). rewrite <- Hrlu.
          unfold islink in Hlink. destruct (readlink u _); congruence. }
        assert (Hk' : known_dirs directory w (r ++ [d]))
          by (apply known_dirs_snoc; assumption).
        rewrite Hjoin.
        destruct (os_walk fuel (directory ++ (r ++ [d])) _ u)
          as [u1 [[]|e]] eqn:Hwalk; [|discriminate].
        destruct (IH (r ++ [d]) u u1 Hk' HIu Hwalk) as (HIu1 & Hfu1 & Hdn).
        intros Hrest.
        destruct (IHl Hl u1 u' HIu1 Hrest) as (H1 & H2 & H3).
        split; [exact H1|]. split; [auto|].
        intros d' Hd' p n Hp Hkp Hmn Hfp Hrw.
        apply elem_of_cons in Hd' as [->|Hd'].
        * eapply H2, Hdn; eassumption.
        * eapply H3; eassumption. }
  intros Hrun.
  assert (Hld' : Forall (fun d => isdir w (join (directory ++ r) d) = true)
                   dirs).
  { eapply Forall_impl; [exact Hld|]. cbv beta. intros d [_ Hdd].
    rewrite <- (RInv_isdir v _ HI). exact Hdd. }
  destruct (Hloop dirs Hld' v1 v' HI1 Hrun) as (HI' & Hf' & Hunder).
  split; [exact HI'|]. split; [auto|].
  intros p n Hp Hkp Hmn Hfp Hrw.
  destruct (prefix_step r p Hp) as [->|[d Hdp]].
  - apply Hf', (Hdone1 n); try assumption; rewrite ?Hjoin; try assumption.
    apply Hfiles. rewrite Hjoin. exact Hfp.
  - assert (Hdr : is_dir_entry (dents w !! (directory ++ (r ++ [d]))) = true).
    { apply Hkp; [|exact Hdp]. intros H. apply app_eq_nil in H as [_ [=]]. }
    eapply Hunder; try eassumption. apply Hdirs. rewrite Hjoin. exact Hdr.
Qed.

End Rewrites.


